(** * CiyuReader: chapter reconstruction and segment annotation

    A shallow embedding of [main.py].  Python strings are sequences of
    Unicode code points, so they are modelled as [list Z]; the file
    system is a finite map from paths to file contents; the external
    collaborators (tokenizer, phonetic transcriber, translation backend,
    markup parser, directory scan) are the fields of an environment
    record; effects are threaded explicitly through a [World].  The
    asynchronous [KeyboardInterrupt] of the chapter loop is not part of
    the model: every run considered here is an uninterrupted pass. *)

From stdpp Require Import gmap list strings sorting.
From Stdlib Require Import ZArith QArith Lia.

Open Scope Z_scope.

(** ** Strings *)

Abbreviation str := (list Z).

(** An ASCII literal as a Python string. *)
Definition lit (s : string) : str :=
  (fun a => Z.of_nat (Ascii.nat_of_ascii a)) <$> String.list_ascii_of_string s.

Arguments lit : simpl never.

(** [str.isspace] on one code point: the white-space set that
    [str.strip()] removes. *)
Definition py_isspace (c : Z) : bool :=
  ((9 <=? c) && (c <=? 13)) || ((28 <=? c) && (c <=? 32))
  || (c =? 133) || (c =? 160) || (c =? 5760)
  || ((8192 <=? c) && (c <=? 8202))
  || (c =? 8232) || (c =? 8233) || (c =? 8239) || (c =? 8287) || (c =? 12288).

Fixpoint lstrip (s : str) : str :=
  match s with
  | [] => []
  | c :: s' => if py_isspace c then lstrip s' else s
  end.

Definition rstrip (s : str) : str := reverse (lstrip (reverse s)).

(** [s.strip()] *)
Definition strip (s : str) : str := rstrip (lstrip s).

(** Python truthiness of a string. *)
Definition nonempty (s : str) : bool :=
  match s with [] => false | _ :: _ => true end.

Fixpoint starts_with (p s : str) : bool :=
  match p, s with
  | [], _ => true
  | a :: p', b :: s' => (a =? b) && starts_with p' s'
  | _ :: _, [] => false
  end.

(** [sub in s] *)
Fixpoint contains (sub s : str) : bool :=
  starts_with sub s ||
  match s with
  | [] => false
  | _ :: s' => contains sub s'
  end.

Definition ends_with (suffix s : str) : bool :=
  starts_with (reverse suffix) (reverse s).

(** [sep.join(parts)] *)
Fixpoint join (sep : str) (parts : list str) : str :=
  match parts with
  | [] => []
  | [p] => p
  | p :: rest => p ++ sep ++ join sep rest
  end.

(** [s.replace(old, new)] for a one-character [old]. *)
Definition replace_char (old : Z) (new : str) (s : str) : str :=
  mjoin ((fun c => if c =? old then new else [c]) <$> s).

(** ** The Unicode character database

    The tables of the interpreter's Unicode database are not part of the
    repository; they are taken as data.  The laws are facts of the
    database: a decimal digit has a value from 0 to 9 and is not white
    space, and every code point of the block CJK Unified Ideographs
    (U+4E00 to U+9FFF) is a letter (the block is fully assigned since
    Unicode 14.0). *)
Record UnicodeData := {
  unicode_decimal : Z -> option Z;
  unicode_isalnum : Z -> bool;
  unicode_lower : str -> str;
  unicode_title : str -> str;
  unicode_decimal_range :
    forall c d, unicode_decimal c = Some d -> 0 <= d <= 9;
  unicode_decimal_not_space :
    forall c d, unicode_decimal c = Some d -> py_isspace c = false;
  unicode_cjk_isalnum :
    forall c, 19968 <= c <= 40959 -> unicode_isalnum c = true;
}.

Section Unicode.
Context (U : UnicodeData).

(** Decimal value of a code point ([Py_UNICODE_TODECIMAL]); the regular
    expression class [\d] and [int()] both consult it. *)
Definition py_todecimal (c : Z) : option Z :=
  if c <? 128 then
    if (48 <=? c) && (c <=? 57) then Some (c - 48) else None
  else unicode_decimal U c.

Definition is_decimal (c : Z) : bool :=
  match py_todecimal c with Some _ => true | None => false end.

(** [s.isalnum()]: false on the empty string. *)
Definition py_isalnum (s : str) : bool :=
  nonempty s && forallb (unicode_isalnum U) s.

(** *** [int(s)]

    The string is first normalised to ASCII: white space becomes a blank,
    a decimal digit its ASCII digit, anything else outside ASCII a
    question mark.  The ASCII text is then read as blanks, an optional
    sign, and decimal digits in which single underscores may separate
    digits.  [None] stands for [ValueError].  A text with more digit
    characters than the interpreter's bound is refused as well. *)
Definition int_normalize (c : Z) : Z :=
  if c <? 127 then c
  else if py_isspace c then 32
  else match py_todecimal c with
       | Some d => 48 + d
       | None => 63
       end.

Definition ascii_isspace (c : Z) : bool :=
  ((9 <=? c) && (c <=? 13)) || (c =? 32).

Fixpoint ascii_lstrip (s : str) : str :=
  match s with
  | [] => []
  | c :: s' => if ascii_isspace c then ascii_lstrip s' else s
  end.

Definition ascii_digit (c : Z) : option Z :=
  if (48 <=? c) && (c <=? 57) then Some (c - 48) else None.

Fixpoint int_digits (after_digit : bool) (acc : Z) (s : str) : option Z :=
  match s with
  | [] => if after_digit then Some acc else None
  | c :: s' =>
      match ascii_digit c with
      | Some d => int_digits true (10 * acc + d) s'
      | None =>
          if (c =? 95) && after_digit && nonempty s'
          then int_digits false acc s'
          else None
      end
  end.

(** The bound on the digits of a conversion between [str] and [int]
    ([sys.int_info.default_max_str_digits], in force by default since
    Python 3.11 and in the security releases of 3.7 to 3.10; the program
    does not change it).  Every digit character counts, leading zeros
    included; the sign, underscores and the white space around the text
    do not. *)
Definition INT_MAX_STR_DIGITS : Z := 4300.

Definition count_digits (s : str) : Z :=
  Z.of_nat (length (filter (fun c => is_Some (ascii_digit c)) s)).

Definition py_int (s : str) : option Z :=
  let t := reverse (ascii_lstrip (reverse (ascii_lstrip (int_normalize <$> s)))) in
  value ← match t with
          | [] => None
          | c :: body =>
              if c =? 43 then int_digits false 0 body
              else if c =? 45 then Z.opp <$> int_digits false 0 body
              else int_digits false 0 t
          end;
  if INT_MAX_STR_DIGITS <? count_digits t then None else Some value.

(** The number a run of decimal digits denotes. *)
Definition decimal_value (digits : str) : Z :=
  fold_left (fun acc c => 10 * acc + default 0 (py_todecimal c)) digits 0.

(** ** Filename parsing *)

(** [os.path.basename] (POSIX): what follows the last slash. *)
Fixpoint until_slash (s : str) : str :=
  match s with
  | [] => []
  | c :: s' => if c =? 47 then [] else c :: until_slash s'
  end.

Definition basename (p : str) : str := reverse (until_slash (reverse p)).

(** One pattern character against one subject character under
    [re.IGNORECASE].  The letters of the pattern are ASCII letters with
    no other case variant in Unicode, so a letter matches itself and its
    ASCII capital; the underscore and the dot match themselves. *)
Definition ci_char (p c : Z) : bool :=
  (c =? p) || ((97 <=? p) && (p <=? 122) && (c =? p - 32)).

(** A literal piece of the pattern: what is left of the subject after
    it. *)
Fixpoint match_literal (pat s : str) : option str :=
  match pat with
  | [] => Some s
  | p :: pat' =>
      match s with
      | [] => None
      | c :: s' => if ci_char p c then match_literal pat' s' else None
      end
  end.

(** The longest run of decimal digits at the start of the subject and
    what follows it. *)
Fixpoint span_digits (s : str) : str * str :=
  match s with
  | [] => ([], [])
  | c :: s' =>
      if is_decimal c
      then let '(d, r) := span_digits s' in (c :: d, r)
      else ([], s)
  end.

(** [(\d+)]: greedy, at least one digit.  Every group of the pattern is
    followed by a character that is not a digit, so giving back digits
    never helps and the greedy run is the only candidate. *)
Definition match_digits (s : str) : option (str * str) :=
  match span_digits s with
  | ([], _) => None
  | (d, r) => Some (d, r)
  end.

(** [re.match(r"volume(\d+)_chapter(\d+)_(\d+)\.html", s, re.IGNORECASE)]:
    the three groups and the unmatched remainder of the subject
    ([re.match] anchors at the start only). *)
Definition re_match_page (s : str) : option (str * str * str * str) :=
  r1 ← match_literal (lit "volume") s;
  '(volume, r2) ← match_digits r1;
  r3 ← match_literal (lit "_chapter") r2;
  '(chapter, r4) ← match_digits r3;
  r5 ← match_literal (lit "_") r4;
  '(page_str, r6) ← match_digits r5;
  r7 ← match_literal (lit ".html") r6;
  Some (volume, chapter, page_str, r7).

Definition parse_filename (filename : str) : option (str * str * Z * str) :=
  match re_match_page (basename filename) with
  | Some (volume, chapter, page_str, _) =>
      match py_int page_str with
      | Some page_int => Some (volume, chapter, page_int, page_str)
      | None => None
      end
  | None => None
  end.

(** *** The page-name pattern, as the specification words it *)

(** Two texts that agree up to the case of ASCII letters. *)
Definition ci_equal (pat s : str) : Prop :=
  Forall2 (fun p c => ci_char p c = true) pat s.

(** A run of at least one decimal digit. *)
Definition digit_run (d : str) : Prop :=
  d ≠ [] ∧ Forall (fun c => is_decimal c = true) d.

(** The subject starts with a page name: the literal pieces in any case,
    the three digit runs between them, then anything. *)
Definition page_prefix (s volume chapter page_str rest : str) : Prop :=
  ∃ l1 l2 l3 l4,
    s = l1 ++ volume ++ l2 ++ chapter ++ l3 ++ page_str ++ l4 ++ rest
    ∧ ci_equal (lit "volume") l1 ∧ ci_equal (lit "_chapter") l2
    ∧ ci_equal (lit "_") l3 ∧ ci_equal (lit ".html") l4
    ∧ digit_run volume ∧ digit_run chapter ∧ digit_run page_str.

(** The whole name is a page name [volume{V}_chapter{C}_{P}.html]. *)
Definition page_name (s volume chapter page_str : str) : Prop :=
  page_prefix s volume chapter page_str [].

End Unicode.


(** ** Paragraphs *)

(** [re.split(r'\n+', text)]: the pieces between maximal runs of line
    feeds.  A line feed that is followed by another one belongs to the
    same run and opens no new piece. *)
Fixpoint re_split_newlines (text : str) : list str :=
  match text with
  | [] => [[]]
  | c :: text' =>
      let pieces := re_split_newlines text' in
      if c =? 10 then
        match text' with
        | c' :: _ => if c' =? 10 then pieces else [] :: pieces
        | [] => [] :: pieces
        end
      else
        match pieces with
        | p :: ps => (c :: p) :: ps
        | [] => [[c]]
        end
  end.

(** The placeholder glyph U+25C7. *)
Definition PLACEHOLDER : str := [9671].

(** The condition of the comprehension in [segment_text_to_paragraphs]. *)
Definition keeps_paragraph (para : str) : bool :=
  nonempty (strip para) && negb (bool_decide (strip para = PLACEHOLDER)).

Definition segment_text_to_paragraphs (text : str) : list str :=
  strip <$> filter (fun para => keeps_paragraph para = true) (re_split_newlines text).

(** A chapter text written out as its paragraphs and the runs of line
    feeds between them: [first], then for every [(k, p)] a run of [k + 1]
    line feeds followed by [p]. *)
Fixpoint text_of_paragraphs (first : str) (rest : list (nat * str)) : str :=
  match rest with
  | [] => first
  | (k, p) :: rest' => first ++ replicate (S k) 10 ++ text_of_paragraphs p rest'
  end.

Definition no_newline (p : str) : Prop := Forall (fun c => c ≠ 10) p.

(** ** The annotation stream and its renderer *)

Record Annotation := { zh : str; py : str; trans : str }.

(** An item of [annotated_chapter_data]: a dictionary with the three
    keys, or the sentinel string. *)
Inductive Item :=
| Ann (a : Annotation)
| PARAGRAPH_BREAK.

(** The no-break space U+00A0 the source uses for an empty cell. *)
Definition NBSP : str := [160].

Definition cell (seg : str) : str :=
  lit "<td>" ++ (if nonempty (strip seg) then seg else NBSP) ++ lit "</td>".

(** The parts appended for one paragraph block. *)
Definition block_parts (segs_zh segs_py segs_trans : list str) : list str :=
  [lit "<div class='segment-block'><table class='chapter-table'>";
   lit "<tr class='chinese-row'>"]
  ++ (cell <$> segs_zh)
  ++ [lit "</tr><tr class='pinyin-row'>"]
  ++ (cell <$> segs_py)
  ++ [lit "</tr><tr class='translation-row'>"]
  ++ (cell <$> segs_trans)
  ++ [lit "</tr></table></div>"].

Definition html_head (chapter_title : str) : list str :=
  [lit "<!DOCTYPE html><html lang='en'><head><meta charset='UTF-8'>";
   lit "<title>" ++ chapter_title ++ lit "</title><style>";
   lit "body { font-family: Arial, 'Microsoft YaHei', 'SimSun', sans-serif; margin: 20px; line-height: 1.7; background-color: #f8f9fa; color: #212529; }";
   lit "h1 { text-align: center; color: #343a40; margin-bottom: 30px; font-weight: 300; }";
   lit ".segment-block { margin-bottom: 20px; padding: 12px; background-color: #ffffff; border: 1px solid #dee2e6; border-radius: .25rem; box-shadow: 0 1px 3px rgba(0,0,0,.05); overflow-x: auto; }";
   lit ".chapter-table { width: 100%; border-collapse: collapse; table-layout: auto; }";
   lit ".chapter-table td { padding: 8px 10px; text-align: left; vertical-align: top; word-break: break-word; }";
   lit ".chinese-row td { font-size: 1.4em; color: #2c3e50; padding-bottom: 5px; }";
   lit ".pinyin-row td { color: #2980b9; font-size: 0.95em; padding-bottom: 5px; border-bottom: 1px dashed #e0e0e0; }";
   lit ".translation-row td { color: #495057; font-style: italic; font-size: 0.9em; line-height: 1.4; }";
   lit "td:empty::after { content: '\00a0'; }";
   lit "</style></head><body>";
   lit "<h1>" ++ chapter_title ++ lit "</h1>"].

(** The local variables of [generate_chapter_html_output]. *)
Record RenderState := {
  html_parts : list str;
  current_segments_zh : list str;
  current_segments_py : list str;
  current_segments_trans : list str;
}.

(** One iteration of the loop over the stream. *)
Definition render_item (st : RenderState) (item : Item) : RenderState :=
  match item with
  | PARAGRAPH_BREAK =>
      match current_segments_zh st with
      | [] => st
      | _ :: _ =>
          {| html_parts :=
               html_parts st ++
               block_parts (current_segments_zh st) (current_segments_py st)
                           (current_segments_trans st);
             current_segments_zh := [];
             current_segments_py := [];
             current_segments_trans := [] |}
      end
  | Ann a =>
      {| html_parts := html_parts st;
         current_segments_zh := current_segments_zh st ++ [zh a];
         current_segments_py := current_segments_py st ++ [py a];
         current_segments_trans := current_segments_trans st ++ [trans a] |}
  end.

(** What is appended after the loop: the last paragraph, if the buffers
    are not empty, and the closing tags. *)
Definition render_finish (st : RenderState) : list str :=
  match current_segments_zh st with
  | [] => html_parts st ++ [lit "</body></html>"]
  | _ :: _ =>
      (html_parts st ++
       block_parts (current_segments_zh st) (current_segments_py st)
                   (current_segments_trans st))
      ++ [lit "</body></html>"]
  end.

Definition render_start (chapter_title : str) : RenderState :=
  {| html_parts := html_head chapter_title;
     current_segments_zh := [];
     current_segments_py := [];
     current_segments_trans := [] |}.

(** The list [html_parts] at the end of [generate_chapter_html_output]. *)
Definition generate_chapter_html_parts
    (annotated_chapter_data : list Item) (chapter_title : str) : list str :=
  render_finish (fold_left render_item annotated_chapter_data (render_start chapter_title)).

Definition generate_chapter_html_output
    (annotated_chapter_data : list Item) (chapter_title : str) : str :=
  join [10] (generate_chapter_html_parts annotated_chapter_data chapter_title).

(** The opening part of a paragraph block, and the number of blocks in a
    list of parts. *)
Definition BLOCK_OPEN : str :=
  lit "<div class='segment-block'><table class='chapter-table'>".

Definition count_blocks (parts : list str) : nat :=
  length (filter (fun part => part = BLOCK_OPEN) parts).

(** *** The renderer, as the specification words it

    Consecutive annotations form a group; a break closes the group, an
    empty group is nothing, and what is left at the end of the stream is
    a last group. *)
Fixpoint paragraph_groups_from (current : list Annotation) (data : list Item)
  : list (list Annotation) :=
  match data with
  | [] => match current with [] => [] | _ :: _ => [current] end
  | Ann a :: rest => paragraph_groups_from (current ++ [a]) rest
  | PARAGRAPH_BREAK :: rest =>
      match current with
      | [] => paragraph_groups_from [] rest
      | _ :: _ => current :: paragraph_groups_from [] rest
      end
  end.

Definition paragraph_groups (data : list Item) : list (list Annotation) :=
  paragraph_groups_from [] data.

(** The three rows of a group: one cell text per annotation in each. *)
Definition rows_of_group (group : list Annotation) : list str * list str * list str :=
  (zh <$> group, py <$> group, trans <$> group).

Definition block_of_rows (rows : list str * list str * list str) : list str :=
  block_parts rows.1.1 rows.1.2 rows.2.

(** The three buffers hold the same number of entries. *)
Definition buffers_aligned (st : RenderState) : Prop :=
  length (current_segments_zh st) = length (current_segments_py st)
  ∧ length (current_segments_py st) = length (current_segments_trans st).

(** *** The rows of an emitted document

    The block of a group of annotations, part by part: the opening of
    the block, the tag of the original row and one cell for the original
    of every annotation, the tag of the phonetic row and one cell for
    every phonetic text, the tag of the gloss row and one cell for every
    gloss, and the closing of the block. *)
Definition ROW_ZH : str := lit "<tr class='chinese-row'>".
Definition ROW_PY : str := lit "</tr><tr class='pinyin-row'>".
Definition ROW_TRANS : str := lit "</tr><tr class='translation-row'>".
Definition BLOCK_CLOSE : str := lit "</tr></table></div>".

Definition block_of_group (group : list Annotation) : list str :=
  [BLOCK_OPEN; ROW_ZH] ++ (cell <$> (zh <$> group))
  ++ [ROW_PY] ++ (cell <$> (py <$> group))
  ++ [ROW_TRANS] ++ (cell <$> (trans <$> group))
  ++ [BLOCK_CLOSE].

(** The rows read off the emitted parts: a cell is a part that opens
    with [<td>], and the row a row tag opens is the run of cells right
    after the tag.  [rows_tagged tag parts] are the rows of the parts
    that [tag] opens, in order. *)
Definition is_cell (part : str) : bool := starts_with (lit "<td>") part.

Fixpoint take_cells (parts : list str) : list str :=
  match parts with
  | [] => []
  | part :: rest => if is_cell part then part :: take_cells rest else []
  end.

Fixpoint rows_tagged (tag : str) (parts : list str) : list (list str) :=
  match parts with
  | [] => []
  | part :: rest =>
      if bool_decide (part = tag)
      then take_cells rest :: rows_tagged tag rest
      else rows_tagged tag rest
  end.

(** ** Configuration *)

Definition SOURCE_DIRECTORY : str := lit "data".
Definition OUTPUT_DIRECTORY : str := lit "output".
Definition DELETE_SOURCE_FILES_AFTER_PROCESSING : bool := true.
Definition ONLINE_TRANSLATION_MAX_RETRIES : Z := 2.
Definition ONLINE_TRANSLATION_BASE_DELAY : Q := 3 # 10.
Definition ONLINE_TRANSLATION_RATE_LIMIT_MULTIPLIER : Z := 4.

(** ** The environment *)

(** What one call of [translate] gives: a text (empty for an empty or
    missing result) or an exception with its message. *)
Inductive Response :=
| Translated (text : str)
| TranslateError (message : str).

(** The translator object handed from [main] to the gloss resolver. *)
Inductive Translator := TranslatorObject.

(** What the markup parser finds in one page. *)
Inductive Markup :=
| NoContainer
| Paragraphs (texts : list str)
| MarkupError.

(** The collaborators.  [Backend] is the state of the translation
    service, which may change with every call. *)
Record Env (Backend : Type) := {
  DEEP_TRANSLATOR_AVAILABLE : bool;
  (** the constructor call; [None] when it raises *)
  GoogleTranslator : option Translator;
  translate : Backend -> str -> Backend * Response;
  (** the names in a directory, in scan order *)
  listdir : gmap str str -> str -> list str;
  (** the paragraph texts of [div#TextContent] *)
  page_markup : str -> Markup;
  (** [jieba.cut] with the custom dictionary loaded; [None] when it raises *)
  jieba_cut : str -> option (list str);
  (** [pypinyin.pinyin]; [None] when it raises *)
  pinyin : str -> option (list (list str));
  (** whether writing or removing this file fails *)
  write_fails : str -> bool;
  remove_fails : str -> bool;
  (** what a failed write of a text leaves at the path: nothing when the
      file could not be opened, else the file that [open(..., 'w')]
      created, with what got through before the failure *)
  failed_write_leaves : str -> str -> option str;
}.

Arguments DEEP_TRANSLATOR_AVAILABLE {Backend} _.
Arguments GoogleTranslator {Backend} _.
Arguments translate {Backend} _ _ _.
Arguments listdir {Backend} _ _ _.
Arguments page_markup {Backend} _ _.
Arguments jieba_cut {Backend} _ _.
Arguments pinyin {Backend} _ _.
Arguments write_fails {Backend} _ _.
Arguments remove_fails {Backend} _ _.
Arguments failed_write_leaves {Backend} _ _ _.

(** What a run does to the outside, in order. *)
Inductive Event :=
| EvTranslate (segment : str)
| EvSleep (seconds : Q)
| EvRead (path : str)
| EvCut (paragraph : str)
| EvPinyin (segment : str)
| EvWrite (path : str)
| EvWriteFailed (path : str)
| EvRemove (path : str)
| EvRemoveFailed (path : str).

Record World (Backend : Type) := {
  fs : gmap str str;
  backend : Backend;
  trace : list Event;
}.

Arguments fs {Backend} _.
Arguments backend {Backend} _.
Arguments trace {Backend} _.

(** The number of provider calls in a trace. *)
Definition is_translate_event (e : Event) : bool :=
  match e with EvTranslate _ => true | _ => false end.

Definition translate_calls (events : list Event) : nat :=
  length (filter (fun e => is_translate_event e = true) events).

(** The files written in a trace, in order. *)
Definition written_paths (events : list Event) : list str :=
  omap (fun e => match e with EvWrite p => Some p | _ => None end) events.

Record Page := { path : str; page_num : Z }.

(** What [process_chapter] gives back: its pair of results, or an
    exception that reaches [main]. *)
Inductive Outcome :=
| Returned (processed_files : list str) (skipped : bool)
| Raised.

Record Summary := {
  chapters_processed_count : Z;
  chapters_skipped_count : Z;
  chapters_error_count : Z;
}.

Section Pipeline.
Context (U : UnicodeData) {Backend : Type} (E : Env Backend).

Definition log (e : Event) (w : World Backend) : World Backend :=
  {| fs := fs w; backend := backend w; trace := trace w ++ [e] |}.

Definition exists_file (w : World Backend) (p : str) : bool :=
  match fs w !! p with Some _ => true | None => false end.

(** ** The gloss resolver *)

Definition call_translate (segment : str) (w : World Backend)
  : World Backend * Response :=
  let '(b, r) := translate E (backend w) segment in
  ({| fs := fs w; backend := b; trace := trace w ++ [EvTranslate segment] |}, r).

Definition sleep (seconds : Q) (w : World Backend) : World Backend :=
  log (EvSleep seconds) w.

Definition is_cjk (c : Z) : bool := (19968 <=? c) && (c <=? 40959).

Definition is_likely_chinese (segment : str) : bool :=
  existsb is_cjk (strip segment).

(** The test on the text of an exception. *)
Definition is_rate_limit (message : str) : bool :=
  let error_str := unicode_lower U message in
  contains (lit "429") error_str
  || contains (lit "too many requests") error_str
  || contains (lit "rate limit") error_str.

Definition general_delay (attempt : Z) : Q :=
  (ONLINE_TRANSLATION_BASE_DELAY * inject_Z (attempt + 1))%Q.

Definition rate_limit_delay (attempt : Z) : Q :=
  (ONLINE_TRANSLATION_BASE_DELAY
   * inject_Z ONLINE_TRANSLATION_RATE_LIMIT_MULTIPLIER
   * inject_Z (attempt + 1))%Q.

(** The retry loop, over the attempt indices still to run. *)
Fixpoint translation_attempts (segment : str) (attempts : list Z)
    (w : World Backend) : World Backend * str :=
  match attempts with
  | [] => (w, lit "Translation Failed (Loop End)")
  | attempt :: rest =>
      let '(w1, r) := call_translate segment w in
      match r with
      | Translated translated_text =>
          if nonempty translated_text then (w1, translated_text)
          else if attempt <? ONLINE_TRANSLATION_MAX_RETRIES
          then translation_attempts segment rest (sleep (general_delay attempt) w1)
          else (w1, lit "Translation Failed (Empty)")
      | TranslateError message =>
          if is_rate_limit message then
            if attempt <? ONLINE_TRANSLATION_MAX_RETRIES
            then translation_attempts segment rest
                   (sleep (rate_limit_delay attempt) w1)
            else (w1, lit "Translation Failed (Rate Limit)")
          else if attempt <? ONLINE_TRANSLATION_MAX_RETRIES
          then translation_attempts segment rest (sleep (general_delay attempt) w1)
          else (w1, lit "Translation Failed (Max Retries)")
      end
  end.

(** [range(n)] *)
Definition py_range (n : Z) : list Z := Z.of_nat <$> seq 0 (Z.to_nat n).

Definition get_online_translation (segment : str)
    (online_translator_obj : option Translator) (w : World Backend)
  : World Backend * str :=
  if negb (DEEP_TRANSLATOR_AVAILABLE E) || negb (bool_decide (is_Some online_translator_obj))
  then (w, lit "Translator N/A")
  else if negb (nonempty segment) || negb (nonempty (strip segment))
  then (w, NBSP)
  else if (Z.of_nat (length (strip segment)) <=? 1) && negb (py_isalnum U (strip segment))
  then (w, segment)
  else if negb (is_likely_chinese segment)
  then (w, segment)
  else translation_attempts segment (py_range (ONLINE_TRANSLATION_MAX_RETRIES + 1)) w.

(** ** The phonetic annotator *)

Definition get_pinyin_for_segment (segment : str) (w : World Backend)
  : World Backend * str :=
  let w1 := log (EvPinyin segment) w in
  match pinyin E segment with
  | Some pinyin_list =>
      let result := join [32] (omap head pinyin_list) in
      (w1, if nonempty result then result else NBSP)
  | None => (w1, lit "N/A")
  end.

(** ** The chapter grouper *)

(** [os.path.join(a, b)] (POSIX). *)
Definition path_join (a b : str) : str :=
  if starts_with [47] b then b
  else if negb (nonempty a) || ends_with [47] a then a ++ b
  else a ++ [47] ++ b.

(** A name that the pattern [*.html] of [glob] matches: it ends in
    [.html] and is not hidden. *)
Definition fnmatch_html (name : str) : bool :=
  ends_with (lit ".html") name && negb (starts_with [46] name).

(** The name of a directory entry holds no slash. *)
Definition entry_name (name : str) : bool :=
  forallb (fun c => negb (c =? 47)) name.

(** [glob.glob(os.path.join(source_dir, '*.html'))] *)
Definition glob_html (source_dir : str) (w : World Backend) : list str :=
  path_join source_dir <$>
    filter (fun name => entry_name name && fnmatch_html name = true)
      (listdir E (fs w) source_dir).

(** [chapters_data[chapter_key].append(page)] on a dictionary that keeps
    its keys in the order of their first insertion. *)
Fixpoint add_page (chapter_key : str) (page : Page)
    (chapters_data : list (str * list Page)) : list (str * list Page) :=
  match chapters_data with
  | [] => [(chapter_key, [page])]
  | (k, pages) :: rest =>
      if bool_decide (k = chapter_key)
      then (k, pages ++ [page]) :: rest
      else (k, pages) :: add_page chapter_key page rest
  end.

(** The stable sort of a chapter's pages by page number. *)
Fixpoint insert_page (page : Page) (sorted : list Page) : list Page :=
  match sorted with
  | [] => [page]
  | q :: rest =>
      if page_num page <=? page_num q then page :: sorted
      else q :: insert_page page rest
  end.

Definition sort_pages (pages : list Page) : list Page :=
  foldr insert_page [] pages.

Definition chapter_key_of (volume chapter : str) : str :=
  lit "volume" ++ volume ++ lit "_chapter" ++ chapter.

(** The first loop of [group_html_files]; a file whose name does not
    parse is passed over. *)
Definition group_step (chapters_data : list (str * list Page)) (filepath : str)
  : list (str * list Page) :=
  match parse_filename U filepath with
  | Some (volume, chapter, page_int, _) =>
      add_page (chapter_key_of volume chapter)
               {| path := filepath; page_num := page_int |} chapters_data
  | None => chapters_data
  end.

Definition group_files (html_files : list str) : list (str * list Page) :=
  (fun kv => (kv.1, sort_pages kv.2)) <$> fold_left group_step html_files [].

Definition group_html_files (source_dir : str) (w : World Backend)
  : list (str * list Page) :=
  group_files (glob_html source_dir w).

(** ** The chapter assembler *)

(** The text one page contributes, if any. *)
Definition page_text_of (w : World Backend) (filepath : str) : option str :=
  match fs w !! filepath with
  | None => None
  | Some html_content =>
      match page_markup E html_content with
      | Paragraphs page_text_parts =>
          let page_text := join [10] (filter (fun t => nonempty t = true) page_text_parts) in
          if nonempty page_text then Some page_text else None
      | NoContainer => None
      | MarkupError => None
      end
  end.

Fixpoint read_pages (page_files_data : list Page)
    (full_chapter_text_list : list str) (w : World Backend)
  : World Backend * list str :=
  match page_files_data with
  | [] => (w, full_chapter_text_list)
  | page_data :: rest =>
      let w1 := log (EvRead (path page_data)) w in
      match page_text_of w (path page_data) with
      | Some page_text => read_pages rest (full_chapter_text_list ++ [page_text]) w1
      | None => read_pages rest full_chapter_text_list w1
      end
  end.

Definition read_and_concatenate_chapter_text (page_files_data : list Page)
    (w : World Backend) : World Backend * str :=
  let '(w1, full_chapter_text_list) := read_pages page_files_data [] w in
  (w1, join [10] full_chapter_text_list).

(** ** The segment annotator *)

Definition annotation_failed (pinyin_text english_text : str) : bool :=
  bool_decide (pinyin_text = lit "N/A")
  || contains (lit "Failed") english_text
  || bool_decide (english_text = lit "Translator N/A").

(** The loop over the segments of one paragraph. *)
Fixpoint annotate_segments (segments : list str)
    (online_translator_obj : option Translator)
    (annotated_chapter_data : list Item) (annotation_errors_occurred : bool)
    (w : World Backend) : World Backend * (list Item * bool) :=
  match segments with
  | [] => (w, (annotated_chapter_data, annotation_errors_occurred))
  | seg :: rest =>
      let seg_strip := strip seg in
      if negb (nonempty seg_strip)
      then annotate_segments rest online_translator_obj annotated_chapter_data
             annotation_errors_occurred w
      else
        let '(w1, pinyin_text) := get_pinyin_for_segment seg_strip w in
        let '(w2, english_text) :=
          get_online_translation seg_strip online_translator_obj w1 in
        annotate_segments rest online_translator_obj
          (annotated_chapter_data ++
           [Ann {| zh := seg_strip; py := pinyin_text; trans := english_text |}])
          (annotation_errors_occurred || annotation_failed pinyin_text english_text)
          w2
  end.

(** The loop over the paragraphs; [None] when the tokenizer raises. *)
Fixpoint annotate_paragraphs (paragraphs : list str)
    (online_translator_obj : option Translator)
    (annotated_chapter_data : list Item) (annotation_errors_occurred : bool)
    (w : World Backend) : World Backend * option (list Item * bool) :=
  match paragraphs with
  | [] => (w, Some (annotated_chapter_data, annotation_errors_occurred))
  | para_text :: rest =>
      if negb (nonempty (strip para_text))
      then annotate_paragraphs rest online_translator_obj annotated_chapter_data
             annotation_errors_occurred w
      else
        let w0 := log (EvCut para_text) w in
        match jieba_cut E para_text with
        | None => (w0, None)
        | Some segments =>
            let '(w1, (data, errors)) :=
              annotate_segments segments online_translator_obj
                annotated_chapter_data annotation_errors_occurred w0 in
            annotate_paragraphs rest online_translator_obj
              (data ++ [PARAGRAPH_BREAK]) errors w1
        end
  end.

(** ** The orchestrator *)

Definition write_file (p content : str) (w : World Backend) : World Backend :=
  {| fs := <[p := content]> (fs w); backend := backend w;
     trace := trace w ++ [EvWrite p] |}.

(** A write that fails.  The file is opened with mode ['w'] before the
    text is written, so a failure after the opening leaves the file
    behind; the exception is caught and logged. *)
Definition fail_write (p content : str) (w : World Backend) : World Backend :=
  {| fs := match failed_write_leaves E p content with
           | Some remains => <[p := remains]> (fs w)
           | None => fs w
           end;
     backend := backend w;
     trace := trace w ++ [EvWriteFailed p] |}.

Definition process_chapter (chapter_key : str) (page_files_data : list Page)
    (output_dir : str) (online_translator_obj : option Translator)
    (w : World Backend) : World Backend * Outcome :=
  let output_filename := path_join output_dir (chapter_key ++ lit ".html") in
  if exists_file w output_filename
  then (w, Returned (path <$> page_files_data) true)
  else
    let '(w1, full_chapter_text) :=
      read_and_concatenate_chapter_text page_files_data w in
    if negb (nonempty (strip full_chapter_text))
    then (w1, Returned [] false)
    else
      let paragraphs := segment_text_to_paragraphs full_chapter_text in
      match annotate_paragraphs paragraphs online_translator_obj [] false w1 with
      | (w2, None) => (w2, Raised)
      | (w2, Some (annotated_chapter_data, _)) =>
          let html_output_content :=
            generate_chapter_html_output annotated_chapter_data
              (unicode_title U (replace_char 95 [32] chapter_key)) in
          if write_fails E output_filename
          then (fail_write output_filename html_output_content w2,
                Returned [] false)
          else (write_file output_filename html_output_content w2,
                Returned (path <$> page_files_data) false)
      end.

(** The translator set up at the start of [main]: the object is bound
    as soon as the constructor returns, before the test call. *)
Definition init_translator (w : World Backend)
  : World Backend * option Translator :=
  match GoogleTranslator E with
  | None => (w, None)
  | Some translator =>
      let '(w1, _) := call_translate [20320; 22909] w in
      (w1, Some translator)
  end.

Definition count_skipped (s : Summary) : Summary :=
  {| chapters_processed_count := chapters_processed_count s;
     chapters_skipped_count := chapters_skipped_count s + 1;
     chapters_error_count := chapters_error_count s |}.

Definition count_processed (s : Summary) : Summary :=
  {| chapters_processed_count := chapters_processed_count s + 1;
     chapters_skipped_count := chapters_skipped_count s;
     chapters_error_count := chapters_error_count s |}.

Definition count_error (s : Summary) : Summary :=
  {| chapters_processed_count := chapters_processed_count s;
     chapters_skipped_count := chapters_skipped_count s;
     chapters_error_count := chapters_error_count s + 1 |}.

(** The loop of [main] over the chapter groups, as it runs when no
    keyboard interrupt arrives: the handler that leaves the loop on
    [KeyboardInterrupt] has no counterpart here, an interrupt being
    asynchronous (see the head of the file).  What is proved of the
    loop and of [main] is proved of runs that are not interrupted. *)
Fixpoint chapter_loop (grouped_chapters : list (str * list Page))
    (online_translator : option Translator)
    (all_processed_source_files : list str) (counts : Summary)
    (w : World Backend) : World Backend * (list str * Summary) :=
  match grouped_chapters with
  | [] => (w, (all_processed_source_files, counts))
  | (chapter_key, page_files_data) :: rest =>
      match page_files_data with
      | [] => chapter_loop rest online_translator all_processed_source_files counts w
      | _ :: _ =>
          match online_translator with
          | None =>
              chapter_loop rest online_translator all_processed_source_files
                (count_error counts) w
          | Some _ =>
              match process_chapter chapter_key page_files_data OUTPUT_DIRECTORY
                      online_translator w with
              | (w1, Returned processed_files_for_this_chapter skipped) =>
                  if skipped
                  then chapter_loop rest online_translator
                         all_processed_source_files (count_skipped counts) w1
                  else
                    match processed_files_for_this_chapter with
                    | _ :: _ =>
                        chapter_loop rest online_translator
                          (all_processed_source_files ++ processed_files_for_this_chapter)
                          (count_processed counts) w1
                    | [] =>
                        chapter_loop rest online_translator
                          all_processed_source_files (count_error counts) w1
                    end
              | (w1, Raised) =>
                  chapter_loop rest online_translator
                    all_processed_source_files (count_error counts) w1
              end
          end
      end
  end.

(** The deletion loop at the end of [main]. *)
Definition remove_file (w : World Backend) (filepath : str) : World Backend :=
  if exists_file w filepath then
    if remove_fails E filepath then log (EvRemoveFailed filepath) w
    else {| fs := delete filepath (fs w); backend := backend w;
            trace := trace w ++ [EvRemove filepath] |}
  else w.

Definition delete_sources (files : list str) (w : World Backend) : World Backend :=
  fold_left remove_file files w.

Definition no_counts : Summary :=
  {| chapters_processed_count := 0; chapters_skipped_count := 0;
     chapters_error_count := 0 |}.

(** [main]; the summary is [None] when the run returns early.  The
    creation of the output directory and the loading of the character
    names into the tokenizer come first in the source; directories are
    not part of the file map and [jieba_cut] stands for the tokenizer
    with the names loaded.  With clean-up enabled the deletion loop runs
    over the collected paths (over none, when the list is empty). *)
Definition main (w : World Backend) : World Backend * option Summary :=
  if negb (DEEP_TRANSLATOR_AVAILABLE E) then (w, None)
  else
    let '(w1, online_translator) := init_translator w in
    let grouped_chapters := group_html_files SOURCE_DIRECTORY w1 in
    match grouped_chapters with
    | [] => (w1, None)
    | _ :: _ =>
        let '(w2, (all_processed_source_files, counts)) :=
          chapter_loop grouped_chapters online_translator [] no_counts w1 in
        if DELETE_SOURCE_FILES_AFTER_PROCESSING
        then (delete_sources all_processed_source_files w2, Some counts)
        else (w2, Some counts)
    end.

End Pipeline.

(** A step that neither changes a file nor writes one. *)
Definition quiet {Backend : Type} (w w' : World Backend) : Prop :=
  fs w' = fs w ∧ written_paths (trace w') = written_paths (trace w).

(** A step after which every file that was there is as it was. *)
Definition files_kept {Backend : Type} (w w' : World Backend) : Prop :=
  ∀ p c, fs w !! p = Some c → fs w' !! p = Some c.

(** Every file written since [w0] is there and is no page of the source
    directory (its path does not begin with the letter d). *)
Definition writes_landed {Backend : Type} (w0 w : World Backend) : Prop :=
  ∀ p, p ∈ written_paths (trace w) →
       p ∈ written_paths (trace w0)
       ∨ (is_Some (fs w !! p) ∧ head p ≠ Some 100).

(** The path of the output artifact of a chapter. *)
Definition output_path (chapter_key : str) : str :=
  path_join OUTPUT_DIRECTORY (chapter_key ++ lit ".html").

(** ** Notions of the properties

    The order of the pages of a chapter, membership in a chapter group,
    the markers and tokens of the annotator, and the bookkeeping of the
    chapter loop, as the properties below speak of them. *)

(** The order by page number. *)
Definition page_le (a b : Page) : Prop := page_num a <= page_num b.

(** A page lies in the group of a key. *)
Definition in_group (k : str) (pg : Page) (data : list (str * list Page)) : Prop :=
  ∃ pages, (k, pages) ∈ data ∧ pg ∈ pages.

(** The file of a page parses to the key of its group and to its page
    number. *)
Definition page_parses (U : UnicodeData) (k : str) (pg : Page) : Prop :=
  ∃ volume chapter page_str,
    parse_filename U (path pg) = Some (volume, chapter, page_num pg, page_str)
    ∧ k = chapter_key_of volume chapter.

(** The markers of a failed resolution. *)
Definition failure_markers : list str :=
  [lit "Translation Failed (Empty)"; lit "Translation Failed (Rate Limit)";
   lit "Translation Failed (Max Retries)"].

(** The last attempt index is one after which the loop does not retry. *)
Definition ends_without_retry (attempts : list Z) : Prop :=
  match last attempts with
  | Some attempt => (attempt <? ONLINE_TRANSLATION_MAX_RETRIES) = false
  | None => False
  end.

(** The pieces of a text that become paragraphs. *)
Abbreviation kept := (filter (fun para => keeps_paragraph para = true)).

(** The tokens of a paragraph that are annotated: stripped, and not
    empty after stripping. *)
Definition tokens_of (segments : list str) : list str :=
  filter (fun s => s ≠ []) (strip <$> segments).

(** An annotation with nothing empty in it and a trimmed original. *)
Definition annotation_filled (a : Annotation) : Prop :=
  zh a ≠ [] ∧ strip (zh a) = zh a ∧ py a ≠ [] ∧ trans a ≠ [].

(** The items a list of groups stands for: every group followed by a
    break. *)
Definition stream_of_groups (groups : list (list Annotation)) : list Item :=
  mjoin ((fun g => (Ann <$> g) ++ [PARAGRAPH_BREAK]) <$> groups).

(** The tokens of the paragraphs that are not blank, one list for each;
    [None] when the tokenizer raises on one of them. *)
Fixpoint paragraph_tokens {Backend : Type} (E : Env Backend)
    (paragraphs : list str) : option (list (list str)) :=
  match paragraphs with
  | [] => Some []
  | para_text :: rest =>
      if negb (nonempty (strip para_text)) then paragraph_tokens E rest
      else
        match jieba_cut E para_text with
        | None => None
        | Some segments => (tokens_of segments ::.) <$> paragraph_tokens E rest
        end
  end.

(** The segments given to the transcriber in a trace, in order. *)
Definition transcribed (events : list Event) : list str :=
  omap (fun e => match e with EvPinyin segment => Some segment | _ => None end)
    events.

(** The chapters a summary has counted. *)
Definition chapters_counted (s : Summary) : Z :=
  chapters_processed_count s + chapters_skipped_count s + chapters_error_count s.

(** The page paths and the output artifacts of a list of chapters. *)
Definition pages_of (chapters : list (str * list Page)) : list str :=
  mjoin ((fun kv => path <$> kv.2) <$> chapters).

Definition outputs_of (chapters : list (str * list Page)) : list str :=
  (fun kv => output_path kv.1) <$> chapters.

(** A step of the chapter loop that writes no file completely: no file
    changes, or a failed write leaves a file at the output path, where
    none was. *)
Definition no_complete_write {Backend : Type} (E : Env Backend)
    (out : str) (w w1 : World Backend) : Prop :=
  written_paths (trace w1) = written_paths (trace w)
  ∧ (fs w1 = fs w
     ∨ (fs w !! out = None ∧ write_fails E out = true
        ∧ ∃ content remains,
            failed_write_leaves E out content = Some remains
            ∧ fs w1 = <[out := remains]> (fs w))).

(** What the chapter loop has done when it comes back with [res]: the
    chapters [done] were processed; a file that was not there before is
    the output of one of them, or what a failed write left at the output
    path of a chapter. *)
Definition loop_result {Backend : Type} (E : Env Backend)
    (chapters : list (str * list Page))
    (all : list str) (counts : Summary) (w : World Backend)
    (res : World Backend * (list str * Summary)) : Prop :=
  ∃ done,
    sublist done chapters
    ∧ res.2.1 = all ++ pages_of done
    ∧ written_paths (trace res.1) = written_paths (trace w) ++ outputs_of done
    ∧ chapters_processed_count res.2.2
      = chapters_processed_count counts + Z.of_nat (length done)
    ∧ chapters_skipped_count counts <= chapters_skipped_count res.2.2
    ∧ chapters_error_count counts <= chapters_error_count res.2.2
    ∧ (Forall (fun kv => kv.2 ≠ []) chapters →
       chapters_counted res.2.2
       = chapters_counted counts + Z.of_nat (length chapters))
    ∧ Forall (fun kv => kv.2 ≠ []
                        ∧ fs w !! output_path kv.1 = None
                        ∧ write_fails E (output_path kv.1) = false
                        ∧ is_Some (fs res.1 !! output_path kv.1)) done
    ∧ (∀ p, p ∉ outputs_of done →
            fs res.1 !! p = fs w !! p
            ∨ (fs w !! p = None ∧ write_fails E p = true
               ∧ p ∈ outputs_of chapters)).

(** ** Concrete collaborators

    A small environment on which the definitions can be run: ASCII
    tables (with the ideographs of the CJK block alphabetic), a directory
    scan that reads the file map, a page whose markup is its only
    paragraph, a tokenizer that cuts at blanks, and a transcriber that
    answers with a fixed syllable. *)

Definition ascii_lower (s : str) : str :=
  (fun c => if (65 <=? c) && (c <=? 90) then c + 32 else c) <$> s.

Definition ascii_isalnum (c : Z) : bool :=
  ((48 <=? c) && (c <=? 57)) || ((65 <=? c) && (c <=? 90))
  || ((97 <=? c) && (c <=? 122)) || ((19968 <=? c) && (c <=? 40959)).

Definition ascii_tables : UnicodeData :=
  {| unicode_decimal := fun _ => None;
     unicode_isalnum := ascii_isalnum;
     unicode_lower := ascii_lower;
     unicode_title := fun s => s;
     unicode_decimal_range := ltac:(intros; discriminate);
     unicode_decimal_not_space := ltac:(intros; discriminate);
     unicode_cjk_isalnum := ltac:(intros c H; unfold ascii_isalnum; lia) |}.

Fixpoint drop_prefix (p s : str) : option str :=
  match p, s with
  | [], _ => Some s
  | a :: p', b :: s' => if a =? b then drop_prefix p' s' else None
  | _ :: _, [] => None
  end.

Definition demo_listdir (files : gmap str str) (dir : str) : list str :=
  filter (fun name => forallb (fun c => negb (c =? 47)) name = true)
    (omap (fun kv => drop_prefix (dir ++ [47]) kv.1) (map_to_list files)).

Fixpoint split_blanks (s : str) : list str :=
  match s with
  | [] => [[]]
  | c :: s' =>
      if c =? 32 then [] :: split_blanks s'
      else match split_blanks s' with
           | p :: ps => (c :: p) :: ps
           | [] => [[c]]
           end
  end.

(** A translation service that answers every call with the same
    response; its state counts the calls. *)
Definition demo_env (available : bool) (ctor : option Translator)
    (answer : Response) : Env nat :=
  {| DEEP_TRANSLATOR_AVAILABLE := available;
     GoogleTranslator := ctor;
     translate := fun calls _ => (S calls, answer);
     listdir := demo_listdir;
     page_markup := fun html => Paragraphs [html];
     jieba_cut := fun para => Some (split_blanks para);
     pinyin := fun _ => Some [[lit "yin"]];
     write_fails := fun _ => false;
     remove_fails := fun _ => false;
     failed_write_leaves := fun _ _ => None |}.

Definition demo_world (files : list (str * str)) : World nat :=
  {| fs := list_to_map files; backend := 0%nat; trace := [] |}.

(** Two words of a chapter, with a blank between them. *)
Definition chapter_text : str := [28201; 27700; 32; 26159].

(** One page of one chapter, not yet rendered. *)
Definition page_of_world : World nat :=
  demo_world [(lit "data/volume1_chapter1_1.html", chapter_text)].

(** Three chapters: the first already rendered, the second not yet, the
    third with a page that holds no text. *)
Definition three_chapters_world : World nat :=
  demo_world
    [(lit "data/volume1_chapter1_1.html", chapter_text);
     (lit "output/volume1_chapter1.html", lit "old");
     (lit "data/volume1_chapter2_1.html", chapter_text);
     (lit "data/volume1_chapter3_1.html", [])].

(** A working service on a disk where every write fails after the file
    is opened: the file is left empty. *)
Definition truncating_env : Env nat :=
  {| DEEP_TRANSLATOR_AVAILABLE := true;
     GoogleTranslator := Some TranslatorObject;
     translate := fun calls _ => (S calls, Translated (lit "hello"));
     listdir := demo_listdir;
     page_markup := fun html => Paragraphs [html];
     jieba_cut := fun para => Some (split_blanks para);
     pinyin := fun _ => Some [[lit "yin"]];
     write_fails := fun _ => true;
     remove_fails := fun _ => false;
     failed_write_leaves := fun _ _ => Some [] |}.

(** A page and a stray copy of it whose name goes on after [.html]. *)
Definition stray_page_world : World nat :=
  demo_world
    [(lit "data/volume1_chapter1_1.html", chapter_text);
     (lit "data/volume1_chapter1_1.html.old.html", [26087; 25991])].

(** A page name whose page field has one digit more than [int()]
    accepts. *)
Definition long_page_name : str :=
  lit "data/volume1_chapter1_" ++ replicate 4301 49 ++ lit ".html".

(** A service that works, and one that is down from the start. *)
Definition working_env : Env nat :=
  demo_env true (Some TranslatorObject) (Translated (lit "hello")).

Definition network_down_env : Env nat :=
  demo_env true (Some TranslatorObject) (TranslateError (lit "Connection refused")).

(** A service that refuses the first call with a rate-limit error and
    answers from the second call on. *)
Definition recovering_env : Env nat :=
  {| DEEP_TRANSLATOR_AVAILABLE := true;
     GoogleTranslator := Some TranslatorObject;
     translate := fun calls _ =>
       (S calls,
        if Nat.eqb calls 0
        then TranslateError (lit "HTTP 429 Too Many Requests")
        else Translated (lit "hello"));
     listdir := demo_listdir;
     page_markup := fun html => Paragraphs [html];
     jieba_cut := fun para => Some (split_blanks para);
     pinyin := fun _ => Some [[lit "yin"]];
     write_fails := fun _ => false;
     remove_fails := fun _ => false;
     failed_write_leaves := fun _ _ => None |}.

(** * Properties *)

(** ** Stripping *)

Lemma lstrip_idemp s : lstrip (lstrip s) = lstrip s.
Proof.
  induction s as [|c s IH]; simpl; [done|].
  destruct (py_isspace c) eqn:Hc; [done|]. simpl. by rewrite Hc.
Qed.

Lemma lstrip_app_keep a c b :
  py_isspace c = false → lstrip (a ++ c :: b) = lstrip a ++ c :: b.
Proof.
  intros Hc. induction a as [|x a IH]; simpl; [by rewrite Hc|].
  by destruct (py_isspace x).
Qed.

Lemma rstrip_cons_keep h l :
  py_isspace h = false → rstrip (h :: l) = h :: rstrip l.
Proof.
  intros Hh. unfold rstrip. rewrite reverse_cons.
  rewrite lstrip_app_keep by done. by rewrite reverse_app.
Qed.

Lemma rstrip_idemp s : rstrip (rstrip s) = rstrip s.
Proof. unfold rstrip. by rewrite reverse_involutive, lstrip_idemp. Qed.

Lemma lstrip_head s :
  lstrip s = [] ∨ ∃ h l, lstrip s = h :: l ∧ py_isspace h = false.
Proof.
  induction s as [|c s IH]; simpl; [by left|].
  destruct (py_isspace c) eqn:Hc; [done|]. right. by exists c, s.
Qed.

(** A stripped text is its own stripping. *)
Lemma strip_idemp s : strip (strip s) = strip s.
Proof.
  unfold strip. destruct (lstrip_head s) as [->|(h & l & -> & Hh)]; [done|].
  rewrite rstrip_cons_keep by done. simpl. rewrite Hh.
  rewrite rstrip_cons_keep by done. by rewrite rstrip_idemp.
Qed.

Lemma existsb_reverse {A} (f : A → bool) l : existsb f (reverse l) = existsb f l.
Proof.
  induction l as [|x l IH]; [done|].
  rewrite reverse_cons, existsb_app, IH. simpl.
  rewrite orb_false_r. apply orb_comm.
Qed.

Lemma existsb_lstrip f s :
  (∀ c, py_isspace c = true → f c = false) →
  existsb f (lstrip s) = existsb f s.
Proof.
  intros Hf. induction s as [|c s IH]; simpl; [done|].
  destruct (py_isspace c) eqn:Hc; [|done]. by rewrite (Hf c Hc).
Qed.

(** Stripping removes white space only, so it loses no character of
    another kind. *)
Lemma existsb_strip f s :
  (∀ c, py_isspace c = true → f c = false) →
  existsb f (strip s) = existsb f s.
Proof.
  intros Hf. unfold strip, rstrip.
  by rewrite existsb_reverse, existsb_lstrip, existsb_reverse, existsb_lstrip.
Qed.

(** ** Paragraphs: splitting *)

Lemma re_split_newlines_cons_keep c text :
  c ≠ 10 →
  re_split_newlines (c :: text)
  = match re_split_newlines text with
    | p :: ps => (c :: p) :: ps
    | [] => [[c]]
    end.
Proof. intros Hc. simpl. by destruct (Z.eqb_spec c 10). Qed.

Lemma re_split_newlines_nonempty text : re_split_newlines text ≠ [].
Proof.
  induction text as [|c text IH]; simpl; [done|].
  destruct (c =? 10).
  - destruct text as [|c' text]; [done|]. by destruct (c' =? 10).
  - by destruct (re_split_newlines text).
Qed.

(** A text that begins with a line feed has an empty first piece. *)
Lemma re_split_newlines_leading text :
  ∃ ps, re_split_newlines (10 :: text) = [] :: ps
        ∧ filter (fun para => keeps_paragraph para = true) ps
          = filter (fun para => keeps_paragraph para = true) (re_split_newlines text).
Proof.
  induction text as [|c text IH].
  - by exists [[]].
  - destruct (Z.eqb_spec c 10) as [->|Hc].
    + destruct IH as (ps & Hps & Hf). exists ps.
      change (re_split_newlines (10 :: 10 :: text))
        with (re_split_newlines (10 :: text)).
      split; [done|]. by rewrite Hps.
    + exists (re_split_newlines (c :: text)). split; [|done].
      change (re_split_newlines (10 :: c :: text))
        with (if c =? 10 then re_split_newlines (c :: text)
              else [] :: re_split_newlines (c :: text)).
      by destruct (Z.eqb_spec c 10).
Qed.

Lemma re_split_newlines_app p text :
  no_newline p →
  re_split_newlines (p ++ text)
  = match re_split_newlines text with
    | q :: qs => (p ++ q) :: qs
    | [] => [p]
    end.
Proof.
  pose proof (re_split_newlines_nonempty text) as Hne.
  induction 1 as [|c p Hc _ IH]; simpl app.
  - by destruct (re_split_newlines text).
  - rewrite re_split_newlines_cons_keep, IH by done.
    by destruct (re_split_newlines text).
Qed.

Lemma re_split_newlines_single p : no_newline p → re_split_newlines p = [p].
Proof.
  intros Hp. rewrite <-(app_nil_r p) at 1.
  rewrite re_split_newlines_app by done. simpl. by rewrite app_nil_r.
Qed.

Lemma filter_keeps_run k text :
  filter (fun para => keeps_paragraph para = true)
    (re_split_newlines (replicate (S k) 10 ++ text))
  = filter (fun para => keeps_paragraph para = true) (re_split_newlines text).
Proof.
  induction k as [|k IH].
  - destruct (re_split_newlines_leading text) as (ps & Hps & Hf).
    simpl replicate. simpl app. by rewrite Hps.
  - destruct (re_split_newlines_leading (replicate (S k) 10 ++ text))
      as (ps & Hps & Hf).
    change (replicate (S (S k)) 10 ++ text)
      with (10 :: (replicate (S k) 10 ++ text)).
    rewrite Hps. rewrite <-IH, <-Hf. done.
Qed.

(** One paragraph and the run after it: the paragraph is kept or
    dropped on its own, the remainder of the text is split as before. *)
Lemma segment_text_to_paragraphs_step p k text :
  no_newline p →
  segment_text_to_paragraphs (p ++ replicate (S k) 10 ++ text)
  = (strip <$> filter (fun para => keeps_paragraph para = true) [p])
    ++ segment_text_to_paragraphs text.
Proof.
  intros Hp. unfold segment_text_to_paragraphs.
  rewrite re_split_newlines_app by done.
  destruct (re_split_newlines_leading (replicate k 10 ++ text)) as (ps & Hps & Hf).
  change (replicate (S k) 10 ++ text) with (10 :: (replicate k 10 ++ text)).
  rewrite Hps, app_nil_r.
  rewrite <-fmap_app. f_equal.
  change (p :: ps) with ([p] ++ ps). rewrite filter_app. f_equal.
  rewrite Hf. destruct k as [|k]; [done|]. apply filter_keeps_run.
Qed.

Lemma segment_text_to_paragraphs_pieces : ∀ rest first,
  no_newline first → Forall (fun kp => no_newline kp.2) rest →
  segment_text_to_paragraphs (text_of_paragraphs first rest)
  = strip <$> filter (fun para => keeps_paragraph para = true) (first :: rest.*2).
Proof.
  induction rest as [|[k p] rest IH]; intros first Hf Hr.
  - simpl. unfold segment_text_to_paragraphs.
    by rewrite re_split_newlines_single.
  - inversion Hr as [|? ? Hp Hrest]; subst. simpl in Hp.
    cbn [text_of_paragraphs]. rewrite segment_text_to_paragraphs_step by done.
    rewrite IH by done. rewrite <-fmap_app. f_equal.
    change (first :: ((k, p) :: rest).*2) with ([first] ++ (p :: rest.*2)).
    by rewrite filter_app.
Qed.

Lemma keeps_paragraph_strip p :
  keeps_paragraph p = true →
  strip p ≠ [] ∧ strip (strip p) = strip p ∧ strip p ≠ PLACEHOLDER.
Proof.
  unfold keeps_paragraph. intros [Hne Hph]%andb_prop.
  split; [by destruct (strip p) | split; [apply strip_idemp|]].
  by apply negb_true_iff, bool_decide_eq_false in Hph.
Qed.

Lemma text_of_paragraphs_snoc rest : ∀ first k p,
  text_of_paragraphs first (rest ++ [(k, p)])
  = text_of_paragraphs first rest ++ replicate (S k) 10 ++ p.
Proof.
  induction rest as [|[k' p'] rest IH]; intros first k p; [done|].
  cbn [app text_of_paragraphs]. rewrite IH. by rewrite <-!app_assoc.
Qed.

(** Runs of line feeds before the first and after the last paragraph
    separate nothing and change nothing. *)
Lemma segment_text_to_paragraphs_margins lead trail first rest :
  no_newline first → Forall (fun kp => no_newline kp.2) rest →
  segment_text_to_paragraphs
    (replicate lead 10 ++ text_of_paragraphs first rest ++ replicate trail 10)
  = strip <$> filter (fun para => keeps_paragraph para = true) (first :: rest.*2).
Proof.
  intros Hf Hr.
  assert (segment_text_to_paragraphs
            (text_of_paragraphs first rest ++ replicate trail 10)
          = strip <$> filter (fun para => keeps_paragraph para = true)
                        (first :: rest.*2)) as Htrail.
  { destruct trail as [|k].
    - rewrite app_nil_r. by apply segment_text_to_paragraphs_pieces.
    - rewrite <-(app_nil_r (replicate (S k) 10)), <-text_of_paragraphs_snoc.
      rewrite segment_text_to_paragraphs_pieces;
        [|done | apply Forall_app; split; [done | by repeat constructor]].
      rewrite fmap_app. change (first :: rest.*2 ++ [(k, [])].*2)
        with ((first :: rest.*2) ++ [[]]).
      rewrite filter_app. by rewrite app_nil_r. }
  destruct lead as [|k]; [exact Htrail|].
  unfold segment_text_to_paragraphs in *. by rewrite filter_keeps_run.
Qed.

(** C6.  A text written as paragraphs without line feeds, separated by
    N runs of line feeds (and with any runs before the first and after
    the last), splits into the stripped paragraphs that are neither
    blank nor the placeholder alone.  When every paragraph is kept there
    are N + 1 of them.  Every paragraph returned is not empty, is
    trimmed, and is not the placeholder glyph: a placeholder-only
    paragraph is dropped. *)
Theorem segment_text_to_paragraphs_count (lead trail : nat) (first : str)
    (rest : list (nat * str)) :
  no_newline first → Forall (fun kp => no_newline kp.2) rest →
  let paragraphs :=
    segment_text_to_paragraphs
      (replicate lead 10 ++ text_of_paragraphs first rest ++ replicate trail 10) in
  paragraphs
  = strip <$> filter (fun para => keeps_paragraph para = true) (first :: rest.*2)
  ∧ (Forall (fun para => keeps_paragraph para = true) (first :: rest.*2) →
     paragraphs = strip <$> (first :: rest.*2)
     ∧ length paragraphs = S (length rest))
  ∧ Forall (fun q => q ≠ [] ∧ strip q = q ∧ q ≠ PLACEHOLDER) paragraphs.
Proof.
  intros Hf Hr paragraphs.
  assert (paragraphs
          = strip <$> filter (fun para => keeps_paragraph para = true)
                        (first :: rest.*2)) as Heq
    by by apply segment_text_to_paragraphs_margins.
  split; [exact Heq | split].
  - intros Hall.
    assert (filter (fun para => keeps_paragraph para = true) (first :: rest.*2)
            = first :: rest.*2) as Hfil.
    { clear Heq. induction Hall as [|x l Hx _ IH]; [done|].
      by rewrite filter_cons_True, IH. }
    rewrite Heq, Hfil. split; [done|].
    rewrite length_fmap. simpl. by rewrite length_fmap.
  - rewrite Heq. apply Forall_fmap, Forall_forall.
    intros p [Hp _]%list_elem_of_filter. by apply keeps_paragraph_strip.
Qed.

Lemma segment_text_to_paragraphs_count_witness :
  segment_text_to_paragraphs [10; 28201; 10; 10; 32; 27700; 32; 10; 10]
  = [[28201]; [27700]]
  ∧ length (segment_text_to_paragraphs [10; 28201; 10; 10; 32; 27700; 32; 10; 10])
    = 2%nat.
Proof.
  refine (proj1 (proj2 (segment_text_to_paragraphs_count 1 2 [28201]
                          [(1%nat, [32; 27700; 32])] _ _)) _).
  - repeat constructor; discriminate.
  - repeat constructor; discriminate.
  - repeat constructor.
Defined.

(** ** Filename parsing: the pattern *)

Section ParseFacts.
Context (U : UnicodeData).

Lemma match_literal_app pat l r :
  ci_equal pat l → match_literal pat (l ++ r) = Some r.
Proof.
  induction 1 as [|p c pat l Hc _ IH]; simpl; [done|].
  by rewrite Hc.
Qed.

Lemma match_literal_inv pat : ∀ s r,
  match_literal pat s = Some r → ∃ l, s = l ++ r ∧ ci_equal pat l.
Proof.
  induction pat as [|p pat IH]; intros s r; simpl.
  - intros [= ->]. exists []. split; [done | constructor].
  - destruct s as [|c s]; [done|].
    destruct (ci_char p c) eqn:Hc; [|done].
    intros (l & -> & Hl)%IH. exists (c :: l). split; [done|].
    by constructor.
Qed.

Lemma span_digits_app d r :
  Forall (fun c => is_decimal U c = true) d →
  (∀ c, head r = Some c → is_decimal U c = false) →
  span_digits U (d ++ r) = (d, r).
Proof.
  intros Hd Hr. induction Hd as [|c d Hc _ IH]; simpl.
  - destruct r as [|c r]; [done|]. simpl. by rewrite (Hr c).
  - by rewrite Hc, IH.
Qed.

Lemma span_digits_inv : ∀ s d r,
  span_digits U s = (d, r) →
  s = d ++ r ∧ Forall (fun c => is_decimal U c = true) d.
Proof.
  induction s as [|c s IH]; intros d r; simpl.
  - intros [= <- <-]. by split.
  - destruct (is_decimal U c) eqn:Hc.
    + destruct (span_digits U s) as [d' r'] eqn:Hs.
      intros [= <- <-]. destruct (IH d' r' eq_refl) as [-> Hd'].
      split; [done | by constructor].
    + intros [= <- <-]. by split.
Qed.

Lemma match_digits_app d r :
  digit_run U d →
  (∀ c, head r = Some c → is_decimal U c = false) →
  match_digits U (d ++ r) = Some (d, r).
Proof.
  intros [Hne Hd] Hr. unfold match_digits.
  rewrite span_digits_app by done. by destruct d.
Qed.

Lemma match_digits_inv s d r :
  match_digits U s = Some (d, r) → s = d ++ r ∧ digit_run U d.
Proof.
  unfold match_digits. destruct (span_digits U s) as [d' r'] eqn:Hs.
  apply span_digits_inv in Hs as [-> Hd].
  destruct d' as [|c d']; [done|]. intros [= <- <-].
  split; [done|]. by split.
Qed.

(** The character after every group of the pattern is no digit. *)
Lemma ci_equal_head_not_digit p pat l r :
  (p <? 128) = true → ((48 <=? p) && (p <=? 57)) = false →
  ((97 <=? p) && (p <=? 122)) = false →
  ci_equal (p :: pat) l →
  ∀ c, head (l ++ r) = Some c → is_decimal U c = false.
Proof.
  intros Hp Hnd Hnl Hl c. inversion Hl as [|? c' ? l' Hc Hrest]; subst.
  simpl. intros [= ->]. unfold ci_char in Hc. rewrite Hnl in Hc.
  rewrite orb_false_r in Hc. apply Z.eqb_eq in Hc as ->.
  unfold is_decimal, py_todecimal. by rewrite Hp, Hnd.
Qed.

Lemma re_match_page_prefix s volume chapter page_str rest :
  page_prefix U s volume chapter page_str rest →
  re_match_page U s = Some (volume, chapter, page_str, rest).
Proof.
  intros (l1 & l2 & l3 & l4 & -> & H1 & H2 & H3 & H4 & Hv & Hc & Hp).
  unfold re_match_page.
  rewrite (match_literal_app _ _ _ H1). cbn [mbind option_bind].
  rewrite (match_digits_app volume) by
    (done || by eapply (ci_equal_head_not_digit 95); [..|exact H2]).
  cbn [mbind option_bind].
  rewrite (match_literal_app _ _ _ H2). cbn [mbind option_bind].
  rewrite (match_digits_app chapter) by
    (done || by eapply (ci_equal_head_not_digit 95); [..|exact H3]).
  cbn [mbind option_bind].
  rewrite (match_literal_app _ _ _ H3). cbn [mbind option_bind].
  rewrite (match_digits_app page_str) by
    (done || by eapply (ci_equal_head_not_digit 46); [..|exact H4]).
  cbn [mbind option_bind].
  by rewrite (match_literal_app _ _ _ H4).
Qed.

Lemma re_match_page_inv s volume chapter page_str rest :
  re_match_page U s = Some (volume, chapter, page_str, rest) →
  page_prefix U s volume chapter page_str rest.
Proof.
  unfold re_match_page. intros H.
  destruct (match_literal (lit "volume") s) as [r1|] eqn:H1; [|done].
  cbn [mbind option_bind] in H.
  destruct (match_digits U r1) as [[v r2]|] eqn:Hv; [|done]. cbn [mbind option_bind] in H.
  destruct (match_literal (lit "_chapter") r2) as [r3|] eqn:H2; [|done].
  cbn [mbind option_bind] in H.
  destruct (match_digits U r3) as [[c r4]|] eqn:Hc; [|done]. cbn [mbind option_bind] in H.
  destruct (match_literal (lit "_") r4) as [r5|] eqn:H3; [|done].
  cbn [mbind option_bind] in H.
  destruct (match_digits U r5) as [[p r6]|] eqn:Hp; [|done]. cbn [mbind option_bind] in H.
  destruct (match_literal (lit ".html") r6) as [r7|] eqn:H4; [|done].
  cbn [mbind option_bind] in H. injection H as <- <- <- <-.
  apply match_literal_inv in H1 as (l1 & -> & H1).
  apply match_digits_inv in Hv as [-> Hv].
  apply match_literal_inv in H2 as (l2 & -> & H2).
  apply match_digits_inv in Hc as [-> Hc].
  apply match_literal_inv in H3 as (l3 & -> & H3).
  apply match_digits_inv in Hp as [-> Hp].
  apply match_literal_inv in H4 as (l4 & -> & H4).
  by exists l1, l2, l3, l4.
Qed.


(** [int()] on a run of decimal digits. *)
Lemma int_normalize_digit c :
  is_decimal U c = true →
  ascii_digit (int_normalize U c) = Some (default 0 (py_todecimal U c)).
Proof.
  unfold is_decimal, int_normalize, py_todecimal, ascii_digit.
  destruct (c <? 127) eqn:H127.
  - assert ((c <? 128) = true) as -> by lia.
    destruct ((48 <=? c) && (c <=? 57)); [done | discriminate].
  - destruct (c <? 128) eqn:H128.
    + assert (c = 127) as -> by lia. discriminate.
    + destruct (unicode_decimal U c) as [d|] eqn:Hd; [|discriminate].
      intros _. rewrite (unicode_decimal_not_space U c d Hd).
      pose proof (unicode_decimal_range U c d Hd).
      assert (((48 <=? 48 + d) && (48 + d <=? 57)) = true) as -> by lia.
      simpl. f_equal. lia.
Qed.

Lemma ascii_digit_not_space c d :
  ascii_digit c = Some d → ascii_isspace c = false ∧ c ≠ 43 ∧ c ≠ 45.
Proof.
  unfold ascii_digit, ascii_isspace.
  destruct ((48 <=? c) && (c <=? 57)) eqn:H; [|done]. intros _. lia.
Qed.

Lemma ascii_lstrip_id l :
  Forall (fun c => ascii_isspace c = false) l → ascii_lstrip l = l.
Proof. destruct 1 as [|c l Hc _]; simpl; [done | by rewrite Hc]. Qed.

Lemma int_digits_run d : ∀ after_digit acc,
  Forall (fun c => is_decimal U c = true) d →
  d ≠ [] ∨ after_digit = true →
  int_digits after_digit acc (int_normalize U <$> d)
  = Some (fold_left (fun a c => 10 * a + default 0 (py_todecimal U c)) d acc).
Proof.
  induction d as [|c d IH]; intros b acc Hd Hne.
  - destruct Hne as [? | ->]; done.
  - inversion Hd as [|? ? Hc Hd']; subst. cbn [fmap list_fmap int_digits].
    rewrite (int_normalize_digit c Hc). cbn [fold_left]. apply IH; auto.
Qed.

Lemma count_digits_run d :
  Forall (fun c => is_decimal U c = true) d →
  count_digits (int_normalize U <$> d) = Z.of_nat (length d).
Proof.
  intros Hd. unfold count_digits. f_equal.
  induction Hd as [|c d Hc _ IH]; [done|].
  cbn [fmap list_fmap]. rewrite filter_cons_True.
  - cbn [length]. by rewrite IH.
  - rewrite (int_normalize_digit c Hc). by eexists.
Qed.

(** [int()] on a run of decimal digits: its value when the run is within
    the bound on the digits, [ValueError] when it is longer. *)
Lemma py_int_digit_run d :
  digit_run U d →
  py_int U d
  = if INT_MAX_STR_DIGITS <? Z.of_nat (length d) then None
    else Some (decimal_value U d).
Proof.
  intros [Hne Hd]. unfold py_int, decimal_value.
  assert (Forall (fun c => ascii_isspace c = false ∧ c ≠ 43 ∧ c ≠ 45)
            (int_normalize U <$> d)) as Hn.
  { apply Forall_fmap. eapply Forall_impl; [exact Hd|]. intros c Hc. simpl.
    eapply ascii_digit_not_space, int_normalize_digit, Hc. }
  cbv zeta.
  rewrite (ascii_lstrip_id (int_normalize U <$> d))
    by (eapply Forall_impl; [exact Hn|]; by intros ? [? _]).
  rewrite ascii_lstrip_id
    by (apply Forall_reverse; eapply Forall_impl; [exact Hn|]; by intros ? [? _]).
  rewrite reverse_involutive, (count_digits_run d Hd).
  assert (match int_normalize U <$> d with
          | [] => None
          | c :: body =>
              if c =? 43 then int_digits false 0 body
              else if c =? 45 then Z.opp <$> int_digits false 0 body
              else int_digits false 0 (int_normalize U <$> d)
          end
          = Some (fold_left (fun a c => 10 * a + default 0 (py_todecimal U c)) d 0))
    as ->.
  { destruct d as [|c d]; [done|]. cbn [fmap list_fmap] in *.
    inversion Hn as [|? ? (_ & H43 & H45) _]; subst.
    destruct (Z.eqb_spec (int_normalize U c) 43); [done|].
    destruct (Z.eqb_spec (int_normalize U c) 45); [done|].
    by apply (int_digits_run (c :: d)); [|left]. }
  done.
Qed.

Lemma parse_filename_match filename volume chapter page_str rest :
  re_match_page U (basename filename) = Some (volume, chapter, page_str, rest) →
  parse_filename U filename
  = if INT_MAX_STR_DIGITS <? Z.of_nat (length page_str) then None
    else Some (volume, chapter, decimal_value U page_str, page_str).
Proof.
  intros H. unfold parse_filename. rewrite H.
  apply re_match_page_inv in H as (? & ? & ? & ? & _ & _ & _ & _ & _ & _ & _ & Hp).
  rewrite (py_int_digit_run _ Hp). by destruct (_ <? _).
Qed.

End ParseFacts.

(** The reach of the parser.  A file whose base name starts with a page
    name [volume{V}_chapter{C}_{P}.html], the letters in any case and
    the page field within the bound of [int()], parses to the volume and
    chapter texts as written and the page number as an integer;
    [re.match] anchors the pattern at the start only, so text after
    [.html] is accepted.  A file whose base name has no such start
    parses to no result, and the grouping loop passes it over. *)
Lemma parse_filename_page_prefix (U : UnicodeData) (filename : str) :
  (∀ volume chapter page_str rest,
      page_prefix U (basename filename) volume chapter page_str rest →
      Z.of_nat (length page_str) <= INT_MAX_STR_DIGITS →
      parse_filename U filename
      = Some (volume, chapter, decimal_value U page_str, page_str))
  ∧ ((∀ volume chapter page_str rest,
        ¬ page_prefix U (basename filename) volume chapter page_str rest) →
     parse_filename U filename = None
     ∧ ∀ chapters_data, group_step U chapters_data filename = chapters_data).
Proof.
  split.
  - intros volume chapter page_str rest H Hlen.
    rewrite (parse_filename_match U filename volume chapter page_str rest)
      by by apply re_match_page_prefix.
    by rewrite (proj2 (Z.ltb_ge _ _) Hlen).
  - intros Hno.
    assert (parse_filename U filename = None) as Hnone.
    { unfold parse_filename.
      destruct (re_match_page U (basename filename)) as [[[[v c] p] r]|] eqn:H;
        [|done].
      by apply re_match_page_inv, Hno in H. }
    split; [done|]. intros chapters_data. unfold group_step. by rewrite Hnone.
Qed.

Lemma parse_filename_page_prefix_witness :
  parse_filename ascii_tables (lit "data/Volume1_Chapter02_10.HTML")
  = Some (lit "1", lit "02", 10, lit "10").
Proof.
  apply (proj1 (parse_filename_page_prefix ascii_tables
                  (lit "data/Volume1_Chapter02_10.HTML"))
           (lit "1") (lit "02") (lit "10") []).
  - exists (lit "Volume"), (lit "_Chapter"), (lit "_"), (lit ".HTML").
    repeat split; try done; repeat (constructor; try done).
  - vm_compute. discriminate.
Defined.

(** C8, the failing run.  The pattern spells out the extension, and the
    parser warns about a name that does not match the expected pattern;
    but [re.match] anchors at the start only.  The stray copy
    [volume1_chapter1_1.html.old.html] is no page name, the scan for
    [*.html] finds it, and it parses as page 1 of chapter 1 of volume 1:
    it is filed in the chapter beside the page itself (here before it,
    both being page 1), its text is rendered with the chapter, and it is
    deleted with the page. *)
Theorem parse_filename_accepts_trailing_text :
  (∀ volume chapter page_str,
      ¬ page_name ascii_tables
          (basename (lit "data/volume1_chapter1_1.html.old.html"))
          volume chapter page_str)
  ∧ fnmatch_html (basename (lit "data/volume1_chapter1_1.html.old.html")) = true
  ∧ parse_filename ascii_tables (lit "data/volume1_chapter1_1.html.old.html")
    = Some (lit "1", lit "1", 1, lit "1")
  ∧ group_html_files ascii_tables working_env SOURCE_DIRECTORY stray_page_world
    = [(lit "volume1_chapter1",
        [ {| path := lit "data/volume1_chapter1_1.html.old.html"; page_num := 1 |};
          {| path := lit "data/volume1_chapter1_1.html"; page_num := 1 |} ])]
  ∧ (read_and_concatenate_chapter_text working_env
       [ {| path := lit "data/volume1_chapter1_1.html.old.html"; page_num := 1 |};
         {| path := lit "data/volume1_chapter1_1.html"; page_num := 1 |} ]
       stray_page_world).2
    = [26087; 25991] ++ [10] ++ chapter_text
  ∧ (main ascii_tables working_env stray_page_world).2
    = Some {| chapters_processed_count := 1;
              chapters_skipped_count := 0;
              chapters_error_count := 0 |}
  ∧ exists_file (main ascii_tables working_env stray_page_world).1
      (lit "output/volume1_chapter1.html") = true
  ∧ fs (main ascii_tables working_env stray_page_world).1
      !! lit "data/volume1_chapter1_1.html.old.html" = None.
Proof.
  split; [|vm_compute; repeat split].
  intros volume chapter page_str H%re_match_page_prefix.
  vm_compute in H. discriminate.
Qed.

(** C10 (as amended).  When the regular expression matches and the page
    field has at most [INT_MAX_STR_DIGITS] digits, the field converts to
    an integer and [parse_filename] returns its tuple.  When the field
    is longer, [int()] raises [ValueError]: the branch for a failed
    conversion is taken and the file is dropped. *)
Theorem parse_filename_int_within_limit (U : UnicodeData)
    (filename volume chapter page_str rest : str) :
  re_match_page U (basename filename) = Some (volume, chapter, page_str, rest) →
  (Z.of_nat (length page_str) <= INT_MAX_STR_DIGITS →
   py_int U page_str = Some (decimal_value U page_str)
   ∧ parse_filename U filename
     = Some (volume, chapter, decimal_value U page_str, page_str))
  ∧ (INT_MAX_STR_DIGITS < Z.of_nat (length page_str) →
     py_int U page_str = None ∧ parse_filename U filename = None).
Proof.
  intros H. rewrite (parse_filename_match U filename volume chapter page_str rest H).
  apply re_match_page_inv in H as (? & ? & ? & ? & _ & _ & _ & _ & _ & _ & _ & Hp).
  rewrite (py_int_digit_run U _ Hp).
  split; intros Hlen.
  - by rewrite (proj2 (Z.ltb_ge _ _) Hlen).
  - by rewrite (proj2 (Z.ltb_lt _ _) Hlen).
Qed.

Lemma parse_filename_int_within_limit_witness :
  py_int ascii_tables (lit "007") = Some 7
  ∧ parse_filename ascii_tables (lit "data/volume3_chapter12_007.html")
    = Some (lit "3", lit "12", 7, lit "007").
Proof.
  apply (proj1 (parse_filename_int_within_limit ascii_tables
                  (lit "data/volume3_chapter12_007.html")
                  (lit "3") (lit "12") (lit "007") [] eq_refl)).
  vm_compute. discriminate.
Defined.

(** C10, as stated, fails: the regular expression matches a name whose
    page field has 4301 digits, [int()] refuses the field, and the file
    is dropped. *)
Lemma parse_filename_int_fails_beyond_limit :
  re_match_page ascii_tables (basename long_page_name)
  = Some (lit "1", lit "1", replicate 4301 49, [])
  ∧ py_int ascii_tables (replicate 4301 49) = None
  ∧ parse_filename ascii_tables long_page_name = None.
Proof. vm_compute. repeat split. Qed.

(** ** The renderer: blocks *)

Lemma fold_render_annotations anns : ∀ st,
  fold_left render_item (Ann <$> anns) st
  = {| html_parts := html_parts st;
       current_segments_zh := current_segments_zh st ++ (zh <$> anns);
       current_segments_py := current_segments_py st ++ (py <$> anns);
       current_segments_trans := current_segments_trans st ++ (trans <$> anns) |}.
Proof.
  induction anns as [|a anns IH]; intros st.
  - simpl. rewrite !app_nil_r. by destruct st.
  - cbn [fmap list_fmap fold_left]. rewrite IH. simpl.
    by rewrite <-!app_assoc.
Qed.

Lemma fold_render_breaks n title :
  fold_left render_item (replicate n PARAGRAPH_BREAK) (render_start title)
  = render_start title.
Proof. induction n as [|n IH]; [done|]. simpl. exact IH. Qed.

Lemma render_item_aligned st item :
  buffers_aligned st → buffers_aligned (render_item st item).
Proof.
  intros [H1 H2]. destruct item as [a|]; simpl.
  - split; simpl; rewrite !length_app; simpl; lia.
  - unfold buffers_aligned. destruct (current_segments_zh st) eqn:Hz.
    + rewrite Hz. done.
    + done.
Qed.

Lemma fold_render_aligned data : ∀ st,
  buffers_aligned st → buffers_aligned (fold_left render_item data st).
Proof.
  induction data as [|item data IH]; intros st Hst; [done|].
  simpl. by apply IH, render_item_aligned.
Qed.

(** The loop with its three buffers against the grouping of the
    stream: the buffers are the rows of the group being collected. *)
Lemma render_groups data : ∀ parts current,
  render_finish
    (fold_left render_item data
       {| html_parts := parts;
          current_segments_zh := zh <$> current;
          current_segments_py := py <$> current;
          current_segments_trans := trans <$> current |})
  = parts
    ++ mjoin (block_of_rows <$> (rows_of_group <$> paragraph_groups_from current data))
    ++ [lit "</body></html>"].
Proof.
  induction data as [|item data IH]; intros parts current.
  - simpl. destruct current as [|a current]; simpl.
    + done.
    + unfold render_finish. simpl. rewrite app_nil_r.
      by rewrite <-app_assoc.
  - destruct item as [a|]; cbn [fold_left render_item paragraph_groups_from].
    + cbn [html_parts current_segments_zh current_segments_py current_segments_trans].
      specialize (IH parts (current ++ [a])). rewrite !fmap_app in IH.
      exact IH.
    + destruct current as [|a current].
      * simpl. apply (IH parts []).
      * cbn [fmap list_fmap current_segments_zh].
        cbn [html_parts current_segments_zh current_segments_py current_segments_trans].
        rewrite (IH _ []). cbn [fmap list_fmap mjoin list_join].
        rewrite <-!app_assoc. reflexivity.
Qed.

Lemma starts_with_eq p a b :
  starts_with p a = true → starts_with p b = false → a ≠ b.
Proof. by intros Ha Hb ->; rewrite Ha in Hb. Qed.

Lemma cell_not_block_open seg : cell seg ≠ BLOCK_OPEN.
Proof. by apply (starts_with_eq (lit "<td>")). Qed.

Lemma count_blocks_app a b :
  count_blocks (a ++ b) = (count_blocks a + count_blocks b)%nat.
Proof. unfold count_blocks. by rewrite filter_app, length_app. Qed.

Lemma count_blocks_cells segs : count_blocks (cell <$> segs) = 0%nat.
Proof.
  induction segs as [|seg segs IH]; [done|].
  cbn [fmap list_fmap]. unfold count_blocks in *.
  rewrite filter_cons_False by apply cell_not_block_open. exact IH.
Qed.

Lemma count_blocks_block a b c : count_blocks (block_parts a b c) = 1%nat.
Proof.
  unfold block_parts. rewrite !count_blocks_app, !count_blocks_cells.
  reflexivity.
Qed.

Lemma count_blocks_head title : count_blocks (html_head title) = 0%nat.
Proof.
  unfold count_blocks, html_head.
  rewrite filter_cons_False by done.
  rewrite filter_cons_False by by apply (starts_with_eq (lit "<t")).
  do 10 (rewrite filter_cons_False by done).
  rewrite filter_cons_False by by apply (starts_with_eq (lit "<h")).
  done.
Qed.

Lemma count_blocks_foot : count_blocks [lit "</body></html>"] = 0%nat.
Proof. reflexivity. Qed.

(** C7.  A stream that ends in annotations, with no break after them,
    still gets its last block: the parts end with the block of the
    buffered annotations and the closing tags.  A stream of breaks only
    gives the head and the closing tags, and no block. *)
Theorem renderer_boundary (chapter_title : str) :
  (∀ (before : list Item) (anns : list Annotation),
      anns ≠ [] →
      let st := fold_left render_item before (render_start chapter_title) in
      generate_chapter_html_parts (before ++ (Ann <$> anns)) chapter_title
      = html_parts st
        ++ block_parts (current_segments_zh st ++ (zh <$> anns))
                       (current_segments_py st ++ (py <$> anns))
                       (current_segments_trans st ++ (trans <$> anns))
        ++ [lit "</body></html>"]
      ∧ count_blocks (generate_chapter_html_parts (before ++ (Ann <$> anns)) chapter_title)
        = S (count_blocks (html_parts st)))
  ∧ (∀ n : nat,
      generate_chapter_html_parts (replicate n PARAGRAPH_BREAK) chapter_title
      = html_head chapter_title ++ [lit "</body></html>"]
      ∧ count_blocks (generate_chapter_html_parts (replicate n PARAGRAPH_BREAK) chapter_title)
        = 0%nat).
Proof.
  split.
  - intros before anns Hne st.
    assert (generate_chapter_html_parts (before ++ (Ann <$> anns)) chapter_title
            = html_parts st
              ++ block_parts (current_segments_zh st ++ (zh <$> anns))
                             (current_segments_py st ++ (py <$> anns))
                             (current_segments_trans st ++ (trans <$> anns))
              ++ [lit "</body></html>"]) as Heq.
    { unfold generate_chapter_html_parts. rewrite fold_left_app.
      fold st. rewrite fold_render_annotations. unfold render_finish.
      cbn [current_segments_zh current_segments_py current_segments_trans html_parts].
      destruct (current_segments_zh st ++ (zh <$> anns)) as [|x l] eqn:Hz.
      - apply app_eq_nil in Hz as [_ Hz]. by destruct anns.
      - by rewrite <-app_assoc. }
    split; [exact Heq|].
    rewrite Heq, !count_blocks_app, count_blocks_block, count_blocks_foot. lia.
  - intros n. unfold generate_chapter_html_parts.
    rewrite fold_render_breaks. unfold render_finish. simpl.
    split; [done|].
    change (count_blocks (html_head chapter_title ++ [lit "</body></html>"]) = 0%nat).
    by rewrite count_blocks_app, count_blocks_head, count_blocks_foot.
Qed.

Lemma renderer_boundary_witness :
  count_blocks
    (generate_chapter_html_parts
       ([PARAGRAPH_BREAK] ++
        (Ann <$> [ {| zh := [26159]; py := lit "shi"; trans := lit "is" |} ]))
       (lit "T"))
  = 1%nat.
Proof.
  refine (proj2 (proj1 (renderer_boundary (lit "T")) [PARAGRAPH_BREAK]
            [ {| zh := [26159]; py := lit "shi"; trans := lit "is" |} ] _)).
  discriminate.
Defined.

Lemma count_blocks_groups (rows : list (list str * list str * list str)) :
  count_blocks (mjoin (block_of_rows <$> rows)) = length rows.
Proof.
  induction rows as [|r rows IH]; [done|].
  cbn [fmap list_fmap mjoin list_join length].
  rewrite count_blocks_app. unfold block_of_rows at 1.
  rewrite count_blocks_block. f_equal. exact IH.
Qed.

(** The rows of the emitted parts. *)
Lemma is_cell_cell seg : is_cell (cell seg) = true.
Proof. reflexivity. Qed.

Lemma take_cells_cells segs stop rest :
  is_cell stop = false →
  take_cells ((cell <$> segs) ++ stop :: rest) = cell <$> segs.
Proof.
  intros Hstop. induction segs as [|seg segs IH]; cbn [fmap list_fmap app take_cells].
  - by rewrite Hstop.
  - by rewrite is_cell_cell, IH.
Qed.

Lemma rows_tagged_skip tag part rest :
  part ≠ tag → rows_tagged tag (part :: rest) = rows_tagged tag rest.
Proof. intros Hne. cbn [rows_tagged]. by rewrite bool_decide_eq_false_2. Qed.

Lemma rows_tagged_here tag rest :
  rows_tagged tag (tag :: rest) = take_cells rest :: rows_tagged tag rest.
Proof. cbn [rows_tagged]. by rewrite bool_decide_eq_true_2. Qed.

Lemma rows_tagged_cells tag segs rest :
  is_cell tag = false →
  rows_tagged tag ((cell <$> segs) ++ rest) = rows_tagged tag rest.
Proof.
  intros Htag. induction segs as [|seg segs IH]; [done|].
  cbn [fmap list_fmap app]. rewrite rows_tagged_skip; [exact IH|].
  intros Heq. by rewrite <-Heq, is_cell_cell in Htag.
Qed.

Lemma block_of_group_parts group rest :
  block_of_group group ++ rest
  = BLOCK_OPEN :: ROW_ZH :: (cell <$> (zh <$> group))
    ++ ROW_PY :: (cell <$> (py <$> group))
    ++ ROW_TRANS :: (cell <$> (trans <$> group))
    ++ BLOCK_CLOSE :: rest.
Proof. unfold block_of_group. rewrite <-!app_assoc. reflexivity. Qed.

Lemma rows_tagged_block_zh group rest :
  rows_tagged ROW_ZH (block_of_group group ++ rest)
  = (cell <$> (zh <$> group)) :: rows_tagged ROW_ZH rest.
Proof.
  rewrite block_of_group_parts.
  rewrite rows_tagged_skip by done. rewrite rows_tagged_here.
  rewrite take_cells_cells by done. f_equal.
  rewrite rows_tagged_cells by done. rewrite rows_tagged_skip by done.
  rewrite rows_tagged_cells by done. rewrite rows_tagged_skip by done.
  rewrite rows_tagged_cells by done. by rewrite rows_tagged_skip by done.
Qed.

Lemma rows_tagged_block_py group rest :
  rows_tagged ROW_PY (block_of_group group ++ rest)
  = (cell <$> (py <$> group)) :: rows_tagged ROW_PY rest.
Proof.
  rewrite block_of_group_parts.
  rewrite rows_tagged_skip by done. rewrite rows_tagged_skip by done.
  rewrite rows_tagged_cells by done. rewrite rows_tagged_here.
  rewrite take_cells_cells by done. f_equal.
  rewrite rows_tagged_cells by done. rewrite rows_tagged_skip by done.
  rewrite rows_tagged_cells by done. by rewrite rows_tagged_skip by done.
Qed.

Lemma rows_tagged_block_trans group rest :
  rows_tagged ROW_TRANS (block_of_group group ++ rest)
  = (cell <$> (trans <$> group)) :: rows_tagged ROW_TRANS rest.
Proof.
  rewrite block_of_group_parts.
  rewrite rows_tagged_skip by done. rewrite rows_tagged_skip by done.
  rewrite rows_tagged_cells by done. rewrite rows_tagged_skip by done.
  rewrite rows_tagged_cells by done. rewrite rows_tagged_here.
  rewrite take_cells_cells by done. f_equal.
  rewrite rows_tagged_cells by done. by rewrite rows_tagged_skip by done.
Qed.

(** No part of the head is a row tag. *)
Lemma rows_tagged_head tag title rest :
  starts_with (lit "<ti") tag = false → starts_with (lit "<h") tag = false →
  tag = ROW_ZH ∨ tag = ROW_PY ∨ tag = ROW_TRANS →
  rows_tagged tag (html_head title ++ rest) = rows_tagged tag rest.
Proof.
  intros Hti Hh Htag. unfold html_head. cbn [app].
  rewrite rows_tagged_skip by (by destruct Htag as [-> | [-> | ->]]).
  rewrite rows_tagged_skip
    by (intros Heq; by rewrite <-Heq in Hti).
  do 10 (rewrite rows_tagged_skip by (by destruct Htag as [-> | [-> | ->]])).
  by rewrite rows_tagged_skip by (intros Heq; by rewrite <-Heq in Hh).
Qed.

Lemma rows_tagged_document tag (row : list Annotation → list str) title groups :
  starts_with (lit "<ti") tag = false → starts_with (lit "<h") tag = false →
  tag = ROW_ZH ∨ tag = ROW_PY ∨ tag = ROW_TRANS →
  (∀ group rest, rows_tagged tag (block_of_group group ++ rest)
                 = row group :: rows_tagged tag rest) →
  rows_tagged tag
    (html_head title ++ mjoin (block_of_group <$> groups) ++ [lit "</body></html>"])
  = row <$> groups.
Proof.
  intros Hti Hh Htag Hblock. rewrite rows_tagged_head by done.
  induction groups as [|group groups IH].
  - cbn. by rewrite bool_decide_eq_false_2 by (by destruct Htag as [-> | [-> | ->]]).
  - cbn [fmap list_fmap mjoin list_join]. rewrite <-app_assoc, Hblock.
    f_equal. exact IH.
Qed.

Lemma generate_chapter_html_parts_block_of_group data title :
  generate_chapter_html_parts data title
  = html_head title
    ++ mjoin (block_of_group <$> paragraph_groups data)
    ++ [lit "</body></html>"].
Proof.
  pose proof (render_groups data (html_head title) []) as H.
  unfold generate_chapter_html_parts, render_start, paragraph_groups.
  cbn [fmap list_fmap] in H. rewrite H. do 2 f_equal.
  rewrite <-list_fmap_compose. reflexivity.
Qed.

Lemma rows_tagged_parts data title :
  rows_tagged ROW_ZH (generate_chapter_html_parts data title)
  = (fun group : list Annotation => cell <$> (zh <$> group)) <$> paragraph_groups data
  ∧ rows_tagged ROW_PY (generate_chapter_html_parts data title)
    = (fun group : list Annotation => cell <$> (py <$> group)) <$> paragraph_groups data
  ∧ rows_tagged ROW_TRANS (generate_chapter_html_parts data title)
    = (fun group : list Annotation => cell <$> (trans <$> group))
        <$> paragraph_groups data.
Proof.
  rewrite generate_chapter_html_parts_block_of_group. split; [|split].
  - apply rows_tagged_document; [done | done | by left |].
    apply rows_tagged_block_zh.
  - apply rows_tagged_document; [done | done | by right; left |].
    apply rows_tagged_block_py.
  - apply rows_tagged_document; [done | done | by right; right |].
    apply rows_tagged_block_trans.
Qed.

(** C9.  The parts are the head, one block for every group of the
    stream, and the closing tags.  Read off the emitted parts, the rows
    that the three row tags open are, block by block, one cell for the
    original, one for the phonetic text and one for the gloss of every
    annotation of the group, in order: the three rows of every block
    hold the same number of cells, and there is one row of each kind for
    every block.  Throughout the loop the three buffers have the same
    length: an annotation adds one entry to each, and a break that emits
    a block empties all three. *)
Theorem renderer_rows_aligned (data : list Item) (chapter_title : str) :
  let parts : list str := generate_chapter_html_parts data chapter_title in
  parts
  = html_head chapter_title
    ++ mjoin (block_of_rows <$> (rows_of_group <$> paragraph_groups data))
    ++ [lit "</body></html>"]
  ∧ Forall (fun rows => length rows.1.1 = length rows.1.2
                        ∧ length rows.1.2 = length rows.2)
      (rows_of_group <$> paragraph_groups data)
  ∧ (∀ k, buffers_aligned
            (fold_left render_item (take k data) (render_start chapter_title)))
  ∧ (∀ st a,
       let st' := render_item st (Ann a) in
       length (current_segments_zh st') = S (length (current_segments_zh st))
       ∧ length (current_segments_py st') = S (length (current_segments_py st))
       ∧ length (current_segments_trans st') = S (length (current_segments_trans st)))
  ∧ (∀ st,
       let st' := render_item st PARAGRAPH_BREAK in
       current_segments_zh st ≠ [] →
       html_parts st'
       = html_parts st ++ block_parts (current_segments_zh st)
                            (current_segments_py st) (current_segments_trans st)
       ∧ current_segments_zh st' = [] ∧ current_segments_py st' = []
       ∧ current_segments_trans st' = [])
  ∧ parts
    = html_head chapter_title
      ++ mjoin (block_of_group <$> paragraph_groups data)
      ++ [lit "</body></html>"]
  ∧ rows_tagged ROW_ZH parts
    = (fun group : list Annotation => cell <$> (zh <$> group)) <$> paragraph_groups data
  ∧ rows_tagged ROW_PY parts
    = (fun group : list Annotation => cell <$> (py <$> group)) <$> paragraph_groups data
  ∧ rows_tagged ROW_TRANS parts
    = (fun group : list Annotation => cell <$> (trans <$> group)) <$> paragraph_groups data
  ∧ length <$> rows_tagged ROW_ZH parts = length <$> rows_tagged ROW_PY parts
  ∧ length <$> rows_tagged ROW_PY parts = length <$> rows_tagged ROW_TRANS parts
  ∧ length (rows_tagged ROW_ZH parts) = count_blocks parts.
Proof.
  intros parts. subst parts.
  destruct (rows_tagged_parts data chapter_title) as (Hzh & Hpy & Htr).
  assert (∀ (f : Annotation → str),
            length <$> ((fun group : list Annotation => cell <$> (f <$> group)) <$> paragraph_groups data)
            = length <$> paragraph_groups data) as Hlen.
  { intros f. rewrite <-list_fmap_compose. apply list_fmap_ext.
    intros _ group _. simpl. by rewrite !length_fmap. }
  split; [|split; [|split; [|split; [|split]]]].
  - apply (render_groups data (html_head chapter_title) []).
  - apply Forall_fmap, Forall_forall. intros group _. simpl.
    by rewrite !length_fmap.
  - intros k. apply fold_render_aligned. by split.
  - intros st a. simpl. rewrite !length_app. simpl. lia.
  - intros st st' Hne. subst st'. simpl.
    by destruct (current_segments_zh st).
  - split; [apply generate_chapter_html_parts_block_of_group|].
    split; [exact Hzh|]. split; [exact Hpy|]. split; [exact Htr|].
    rewrite Hzh, Hpy, Htr, !Hlen. split; [done|]. split; [done|].
    rewrite length_fmap.
    rewrite (render_groups data (html_head chapter_title) []
             : generate_chapter_html_parts data chapter_title = _).
    rewrite !count_blocks_app, count_blocks_head, count_blocks_foot,
      count_blocks_groups, length_fmap. unfold paragraph_groups. lia.
Qed.

Lemma renderer_rows_aligned_witness :
  let st := render_item
              (render_item (render_start (lit "T"))
                 (Ann {| zh := [26159]; py := lit "shi"; trans := lit "is" |}))
              PARAGRAPH_BREAK in
  current_segments_zh st = [] ∧ current_segments_py st = []
  ∧ current_segments_trans st = [].
Proof.
  refine (proj2 (proj1 (proj2 (proj2 (proj2 (proj2
            (renderer_rows_aligned [] (lit "T"))))))
            (render_item (render_start (lit "T"))
               (Ann {| zh := [26159]; py := lit "shi"; trans := lit "is" |})) _)).
  discriminate.
Defined.

(** ** The gloss resolver: filters and retries *)

Lemma isspace_not_cjk c : py_isspace c = true → is_cjk c = false.
Proof. unfold py_isspace, is_cjk. lia. Qed.

Lemma is_likely_chinese_strip segment :
  is_likely_chinese segment = existsb is_cjk segment.
Proof. apply existsb_strip, isspace_not_cjk. Qed.

Lemma nonempty_true_iff (s : str) : nonempty s = true ↔ s ≠ [].
Proof. by destruct s. Qed.

Lemma nonempty_false_iff (s : str) : nonempty s = false ↔ s = [].
Proof. by destruct s. Qed.

Lemma strip_nil_nonempty (segment : str) :
  strip segment ≠ [] → nonempty segment = true.
Proof. by destruct segment. Qed.

Section Resolver.
Context (U : UnicodeData) {Backend : Type} (E : Env Backend).

(** The first test of [get_online_translation]. *)
Lemma get_online_translation_unavailable segment tr (w : World Backend) :
  DEEP_TRANSLATOR_AVAILABLE E = false ∨ tr = None →
  get_online_translation U E segment tr w = (w, lit "Translator N/A").
Proof.
  unfold get_online_translation. intros [-> | ->]; [done|].
  by rewrite orb_true_r.
Qed.

Lemma get_online_translation_available segment t (w : World Backend) :
  DEEP_TRANSLATOR_AVAILABLE E = true →
  get_online_translation U E segment (Some t) w
  = if negb (nonempty segment) || negb (nonempty (strip segment))
    then (w, NBSP)
    else if (Z.of_nat (length (strip segment)) <=? 1)
            && negb (py_isalnum U (strip segment))
    then (w, segment)
    else if negb (is_likely_chinese segment)
    then (w, segment)
    else translation_attempts U E segment
           (py_range (ONLINE_TRANSLATION_MAX_RETRIES + 1)) w.
Proof. unfold get_online_translation. by intros ->. Qed.

Lemma get_online_translation_blank segment t (w : World Backend) :
  DEEP_TRANSLATOR_AVAILABLE E = true → strip segment = [] →
  get_online_translation U E segment (Some t) w = (w, NBSP).
Proof.
  intros Ha Hs. rewrite get_online_translation_available by done.
  rewrite Hs. simpl. by rewrite orb_true_r.
Qed.

Lemma get_online_translation_short segment t (w : World Backend) :
  DEEP_TRANSLATOR_AVAILABLE E = true → strip segment ≠ [] →
  (length (strip segment) ≤ 1)%nat → py_isalnum U (strip segment) = false →
  get_online_translation U E segment (Some t) w = (w, segment).
Proof.
  intros Ha Hs Hlen Hal. rewrite get_online_translation_available by done.
  rewrite (strip_nil_nonempty _ Hs), (proj2 (nonempty_true_iff _) Hs), Hal.
  cbn [negb orb]. by assert ((Z.of_nat (length (strip segment)) <=? 1) = true) as -> by lia.
Qed.

Lemma get_online_translation_not_chinese segment t (w : World Backend) :
  DEEP_TRANSLATOR_AVAILABLE E = true → strip segment ≠ [] →
  existsb is_cjk segment = false →
  get_online_translation U E segment (Some t) w = (w, segment).
Proof.
  intros Ha Hs Hc. rewrite get_online_translation_available by done.
  rewrite (strip_nil_nonempty _ Hs), (proj2 (nonempty_true_iff _) Hs).
  rewrite is_likely_chinese_strip, Hc. cbn [negb orb].
  by destruct (_ && _).
Qed.

(** A segment with an ideograph gets past the three filters: a single
    ideograph is alphanumeric. *)
Lemma get_online_translation_chinese segment t (w : World Backend) :
  DEEP_TRANSLATOR_AVAILABLE E = true →
  existsb is_cjk segment = true →
  get_online_translation U E segment (Some t) w
  = translation_attempts U E segment
      (py_range (ONLINE_TRANSLATION_MAX_RETRIES + 1)) w.
Proof.
  intros Ha Hc. rewrite get_online_translation_available by done.
  pose proof Hc as Hs. rewrite <-is_likely_chinese_strip in Hs.
  unfold is_likely_chinese in Hs.
  assert (strip segment ≠ []) as Hne by (by destruct (strip segment)).
  rewrite (strip_nil_nonempty _ Hne), (proj2 (nonempty_true_iff _) Hne).
  rewrite is_likely_chinese_strip, Hc. cbn [negb orb].
  assert ((Z.of_nat (length (strip segment)) <=? 1)
          && negb (py_isalnum U (strip segment)) = false) as ->; [|done].
  apply andb_false_iff.
  destruct (strip segment) as [|c [|c' s]]; [done| |].
  - right. simpl in Hs. rewrite orb_false_r in Hs.
    unfold py_isalnum. simpl. rewrite (unicode_cjk_isalnum U c); [done|].
    unfold is_cjk in Hs. lia.
  - left. apply Z.leb_gt. change (length (c :: c' :: s)) with (S (S (length s))). lia.
Qed.


(** One attempt that ends in a rate-limit error. *)
Lemma translation_attempts_rate_limited segment attempt rest
    (w : World Backend) b message :
  translate E (backend w) segment = (b, TranslateError message) →
  is_rate_limit U message = true →
  translation_attempts U E segment (attempt :: rest) w
  = let w1 := {| fs := fs w; backend := b;
                 trace := trace w ++ [EvTranslate segment] |} in
    if attempt <? ONLINE_TRANSLATION_MAX_RETRIES
    then translation_attempts U E segment rest (sleep (rate_limit_delay attempt) w1)
    else (w1, lit "Translation Failed (Rate Limit)").
Proof.
  intros Ht Hr. cbn [translation_attempts]. unfold call_translate.
  by rewrite Ht, Hr.
Qed.

End Resolver.

Lemma translate_calls_app a b :
  translate_calls (a ++ b) = (translate_calls a + translate_calls b)%nat.
Proof. unfold translate_calls. by rewrite filter_app, length_app. Qed.

(** C3.  With the translator available, a segment that holds a CJK
    ideograph and whose every [translate] call raises an error with a
    rate-limit indicator in its lower-cased text is answered with the
    rate-limit marker after MAX_RETRIES + 1 calls, with a sleep of
    BASE_DELAY * RATE_LIMIT_MULTIPLIER * (attempt + 1) after each call
    but the last.  The resolver is a total function that returns a
    string: the provider's exceptions end in the marker. *)
Theorem rate_limit_exhausts_retries (U : UnicodeData) {Backend : Type}
    (E : Env Backend) (segment : str) (t : Translator) (w : World Backend) :
  DEEP_TRANSLATOR_AVAILABLE E = true →
  existsb is_cjk segment = true →
  (∀ b, ∃ b' message,
      translate E b segment = (b', TranslateError message)
      ∧ is_rate_limit U message = true) →
  ∃ w',
    get_online_translation U E segment (Some t) w
    = (w', lit "Translation Failed (Rate Limit)")
    ∧ fs w' = fs w
    ∧ trace w'
      = trace w ++
        [EvTranslate segment;
         EvSleep (ONLINE_TRANSLATION_BASE_DELAY
                  * inject_Z ONLINE_TRANSLATION_RATE_LIMIT_MULTIPLIER
                  * inject_Z (0 + 1))%Q;
         EvTranslate segment;
         EvSleep (ONLINE_TRANSLATION_BASE_DELAY
                  * inject_Z ONLINE_TRANSLATION_RATE_LIMIT_MULTIPLIER
                  * inject_Z (1 + 1))%Q;
         EvTranslate segment]
    ∧ translate_calls (trace w')
      = (translate_calls (trace w)
         + Z.to_nat (ONLINE_TRANSLATION_MAX_RETRIES + 1))%nat.
Proof.
  intros Ha Hc Hrate.
  rewrite (get_online_translation_chinese U E segment t w Ha Hc).
  change (py_range (ONLINE_TRANSLATION_MAX_RETRIES + 1)) with [0; 1; 2].
  destruct (Hrate (backend w)) as (b1 & m1 & Ht1 & Hr1).
  erewrite (translation_attempts_rate_limited U E); [|exact Ht1|exact Hr1].
  cbn zeta. change (0 <? ONLINE_TRANSLATION_MAX_RETRIES) with true. cbn iota.
  destruct (Hrate b1) as (b2 & m2 & Ht2 & Hr2).
  erewrite (translation_attempts_rate_limited U E); [|exact Ht2|exact Hr2].
  cbn zeta. change (1 <? ONLINE_TRANSLATION_MAX_RETRIES) with true. cbn iota.
  destruct (Hrate b2) as (b3 & m3 & Ht3 & Hr3).
  erewrite (translation_attempts_rate_limited U E); [|exact Ht3|exact Hr3].
  cbn zeta. change (2 <? ONLINE_TRANSLATION_MAX_RETRIES) with false. cbn iota.
  eexists. split; [reflexivity|]. split; [reflexivity|].
  assert (∀ A (l : list A) a b c d e,
            ((((l ++ [a]) ++ [b]) ++ [c]) ++ [d]) ++ [e] = l ++ [a; b; c; d; e])
    as Happ by (intros; by rewrite <-!app_assoc).
  split.
  - cbn [trace sleep log]. apply Happ.
  - cbn [trace sleep log]. rewrite Happ, translate_calls_app. reflexivity.
Qed.

Lemma rate_limit_exhausts_retries_witness :
  ∃ w',
    get_online_translation ascii_tables
      (demo_env true (Some TranslatorObject)
         (TranslateError (lit "HTTP 429 Too Many Requests")))
      [26159] (Some TranslatorObject) (demo_world [])
    = (w', lit "Translation Failed (Rate Limit)")
    ∧ fs w' = fs (demo_world [])
    ∧ trace w'
      = trace (demo_world []) ++
        [EvTranslate [26159];
         EvSleep (ONLINE_TRANSLATION_BASE_DELAY
                  * inject_Z ONLINE_TRANSLATION_RATE_LIMIT_MULTIPLIER
                  * inject_Z (0 + 1))%Q;
         EvTranslate [26159];
         EvSleep (ONLINE_TRANSLATION_BASE_DELAY
                  * inject_Z ONLINE_TRANSLATION_RATE_LIMIT_MULTIPLIER
                  * inject_Z (1 + 1))%Q;
         EvTranslate [26159]]
    ∧ translate_calls (trace w')
      = (translate_calls (trace (demo_world []))
         + Z.to_nat (ONLINE_TRANSLATION_MAX_RETRIES + 1))%nat.
Proof.
  apply (rate_limit_exhausts_retries ascii_tables
           (demo_env true (Some TranslatorObject)
              (TranslateError (lit "HTTP 429 Too Many Requests")))
           [26159] TranslatorObject (demo_world [])).
  - reflexivity.
  - reflexivity.
  - intros b. exists (S b), (lit "HTTP 429 Too Many Requests").
    split; reflexivity.
Defined.

(** C4 (as amended).  Without a translator (the library missing or no
    translator object) every input is answered with the marker
    "Translator N/A".  With a translator, and never with a provider call
    (the world is returned as it was): an input that is empty or white
    space only gives the one-character placeholder U+00A0; otherwise an
    input whose stripped text has at most one character and is not
    alphanumeric is returned unchanged; and an input that is not blank
    and holds no CJK ideograph is returned unchanged. *)
Theorem gloss_prefilter (U : UnicodeData) {Backend : Type} (E : Env Backend)
    (segment : str) (online_translator_obj : option Translator)
    (w : World Backend) :
  (DEEP_TRANSLATOR_AVAILABLE E = false ∨ online_translator_obj = None →
   get_online_translation U E segment online_translator_obj w
   = (w, lit "Translator N/A"))
  ∧ (DEEP_TRANSLATOR_AVAILABLE E = true → is_Some online_translator_obj →
     (strip segment = [] →
      get_online_translation U E segment online_translator_obj w = (w, NBSP))
     ∧ (strip segment ≠ [] → (length (strip segment) ≤ 1)%nat →
        py_isalnum U (strip segment) = false →
        get_online_translation U E segment online_translator_obj w = (w, segment))
     ∧ (strip segment ≠ [] → existsb is_cjk segment = false →
        get_online_translation U E segment online_translator_obj w = (w, segment))).
Proof.
  split.
  - apply get_online_translation_unavailable.
  - intros Ha [t ->]. split; [|split].
    + by apply get_online_translation_blank.
    + by apply get_online_translation_short.
    + by apply get_online_translation_not_chinese.
Qed.

Lemma gloss_prefilter_witness :
  get_online_translation ascii_tables
    (demo_env true (Some TranslatorObject) (Translated (lit "hello")))
    (lit " ! ") (Some TranslatorObject) (demo_world [])
  = (demo_world [], lit " ! ").
Proof.
  refine (proj1 (proj2 (proj2 (gloss_prefilter ascii_tables
            (demo_env true (Some TranslatorObject) (Translated (lit "hello")))
            (lit " ! ") (Some TranslatorObject) (demo_world []))
            eq_refl (ex_intro _ TranslatorObject eq_refl))) _ _ _).
  - discriminate.
  - vm_compute. lia.
  - reflexivity.
Defined.

(** C4, as stated, fails: with no translator object the empty input is
    answered with "Translator N/A", not with the placeholder. *)
Lemma gloss_prefilter_needs_translator :
  get_online_translation ascii_tables
    (demo_env true None (Translated (lit "hello"))) [] None (demo_world [])
  = (demo_world [], lit "Translator N/A")
  ∧ lit "Translator N/A" ≠ NBSP.
Proof. split; [reflexivity | discriminate]. Qed.

(** ** The orchestrator: what a run touches *)

Section Frame.
Context (U : UnicodeData) {Backend : Type} (E : Env Backend).
Implicit Types w : World Backend.

(** The steps of assembly and annotation are quiet. *)
Lemma quiet_refl w : quiet w w.
Proof. by split. Qed.

Lemma quiet_trans w1 w2 w3 : quiet w1 w2 → quiet w2 w3 → quiet w1 w3.
Proof. intros [H1 H2] [H3 H4]. split; congruence. Qed.

Lemma written_paths_snoc events e :
  written_paths (events ++ [e])
  = written_paths events ++ match e with EvWrite p => [p] | _ => [] end.
Proof. unfold written_paths. rewrite omap_app. by destruct e. Qed.

Lemma quiet_log e w :
  (∀ p, e ≠ EvWrite p) → quiet w (log e w).
Proof.
  intros He. split; [done|]. simpl. rewrite written_paths_snoc.
  destruct e as [?|?|?|?|?|p|?|?|?]; try apply app_nil_r. by destruct (He p).
Qed.

Lemma call_translate_quiet segment w :
  quiet w (call_translate E segment w).1.
Proof.
  unfold call_translate. destruct (translate E (backend w) segment).
  split; [done|]. simpl. by rewrite written_paths_snoc, app_nil_r.
Qed.

Lemma translation_attempts_quiet segment attempts : ∀ w,
  quiet w (translation_attempts U E segment attempts w).1.
Proof.
  induction attempts as [|attempt rest IH]; intros w; [apply quiet_refl|].
  cbn [translation_attempts].
  pose proof (call_translate_quiet segment w) as Hc.
  destruct (call_translate E segment w) as [w1 r]. simpl in Hc.
  assert (∀ d, quiet w (translation_attempts U E segment rest (sleep d w1)).1)
    as Hnext.
  { intros d. eapply quiet_trans; [exact Hc|].
    eapply quiet_trans; [|apply IH]. by apply quiet_log. }
  destruct r as [text|message].
  - destruct (nonempty text); [done|]. by destruct (attempt <? _).
  - by destruct (is_rate_limit U message), (attempt <? _).
Qed.

Lemma get_online_translation_quiet segment tr w :
  quiet w (get_online_translation U E segment tr w).1.
Proof.
  unfold get_online_translation.
  repeat (match goal with |- context [if ?b then _ else _] => destruct b end;
          [apply quiet_refl|]).
  apply translation_attempts_quiet.
Qed.

Lemma get_pinyin_for_segment_quiet segment w :
  quiet w (get_pinyin_for_segment E segment w).1.
Proof.
  unfold get_pinyin_for_segment.
  destruct (pinyin E segment); by apply quiet_log.
Qed.

Lemma annotate_segments_quiet segments tr : ∀ data errors w,
  quiet w (annotate_segments U E segments tr data errors w).1.
Proof.
  induction segments as [|seg rest IH]; intros data errors w;
    [apply quiet_refl|].
  cbn [annotate_segments]. cbv zeta.
  destruct (negb (nonempty (strip seg))); [apply IH|].
  pose proof (get_pinyin_for_segment_quiet (strip seg) w) as Hp.
  destruct (get_pinyin_for_segment E (strip seg) w) as [w1 pinyin_text].
  pose proof (get_online_translation_quiet (strip seg) tr w1) as Ht.
  destruct (get_online_translation U E (strip seg) tr w1) as [w2 english_text].
  simpl in Hp, Ht.
  eapply quiet_trans; [exact Hp|]. eapply quiet_trans; [exact Ht|]. apply IH.
Qed.

Lemma annotate_paragraphs_quiet paragraphs tr : ∀ data errors w,
  quiet w (annotate_paragraphs U E paragraphs tr data errors w).1.
Proof.
  induction paragraphs as [|para rest IH]; intros data errors w;
    [apply quiet_refl|].
  cbn [annotate_paragraphs]. cbv zeta.
  destruct (negb (nonempty (strip para))); [apply IH|].
  assert (quiet w (log (EvCut para) w)) as Hl by by apply quiet_log.
  destruct (jieba_cut E para) as [segments|]; [|done].
  pose proof (annotate_segments_quiet segments tr data errors (log (EvCut para) w)) as Hs.
  destruct (annotate_segments U E segments tr data errors (log (EvCut para) w))
    as [w1 [data1 errors1]].
  simpl in Hs.
  eapply quiet_trans; [exact Hl|]. eapply quiet_trans; [exact Hs|]. apply IH.
Qed.

Lemma read_pages_quiet pages : ∀ texts w,
  quiet w (read_pages E pages texts w).1.
Proof.
  induction pages as [|page rest IH]; intros texts w; [apply quiet_refl|].
  cbn [read_pages]. cbv zeta.
  assert (quiet w (log (EvRead (path page)) w)) as Hl by by apply quiet_log.
  destruct (page_text_of E w (path page));
    (eapply quiet_trans; [exact Hl | apply IH]).
Qed.

Lemma read_and_concatenate_chapter_text_quiet pages w :
  quiet w (read_and_concatenate_chapter_text E pages w).1.
Proof.
  unfold read_and_concatenate_chapter_text.
  pose proof (read_pages_quiet pages [] w) as H.
  by destruct (read_pages E pages [] w).
Qed.

Lemma files_kept_refl w : files_kept w w.
Proof. by intros p c. Qed.

Lemma files_kept_trans w1 w2 w3 :
  files_kept w1 w2 → files_kept w2 w3 → files_kept w1 w3.
Proof. intros H1 H2 p c Hp. by apply H2, H1. Qed.

Lemma files_kept_quiet w w' : quiet w w' → files_kept w w'.
Proof. intros [H _] p c. by rewrite H. Qed.

Lemma output_path_head chapter_key : head (output_path chapter_key) ≠ Some 100.
Proof.
  unfold output_path, path_join.
  destruct (chapter_key ++ lit ".html") as [|c rest]; [done|].
  cbn [starts_with]. destruct (Z.eqb_spec 47 c) as [<-|_]; done.
Qed.

Lemma writes_landed_quiet w w' : quiet w w' → writes_landed w w'.
Proof. intros [_ H] p Hp. left. by rewrite <-H. Qed.

Lemma writes_landed_trans w0 w1 w2 :
  writes_landed w0 w1 → files_kept w1 w2 → writes_landed w1 w2 →
  writes_landed w0 w2.
Proof.
  intros H01 Hk H12 p [Hp|Hp]%H12; [|by right].
  destruct (H01 p Hp) as [?|[[c Hc] ?]]; [by left|].
  right. split; [|done]. exists c. by apply Hk.
Qed.

(** [process_chapter] writes at most its own output, and only when it
    is not there yet; what it returns are page paths or nothing. *)
Lemma process_chapter_frame chapter_key pages tr w :
  files_kept w (process_chapter U E chapter_key pages OUTPUT_DIRECTORY tr w).1
  ∧ writes_landed w (process_chapter U E chapter_key pages OUTPUT_DIRECTORY tr w).1
  ∧ ∀ processed skipped,
      (process_chapter U E chapter_key pages OUTPUT_DIRECTORY tr w).2
      = Returned processed skipped →
      processed = path <$> pages ∨ processed = [].
Proof.
  unfold process_chapter. cbv zeta. fold (output_path chapter_key).
  set (out := output_path chapter_key).
  destruct (exists_file w out) eqn:Hex.
  { split; [apply files_kept_refl|]. split; [apply writes_landed_quiet, quiet_refl|].
    intros ? ? [= <- _]. by left. }
  pose proof (read_and_concatenate_chapter_text_quiet pages w) as Hr.
  destruct (read_and_concatenate_chapter_text E pages w) as [w1 text].
  simpl in Hr.
  destruct (negb (nonempty (strip text))).
  { split; [by apply files_kept_quiet|]. split; [by apply writes_landed_quiet|].
    intros ? ? [= <- _]. by right. }
  pose proof (annotate_paragraphs_quiet (segment_text_to_paragraphs text) tr [] false w1)
    as Ha.
  destruct (annotate_paragraphs U E (segment_text_to_paragraphs text) tr [] false w1)
    as [w2 [[data errors]|]]; simpl in Ha.
  - pose proof (quiet_trans _ _ _ Hr Ha) as Hq.
    destruct (write_fails E out).
    + destruct Hq as [Hfs Hwr].
      split; [|split; [|intros ? ? [= <- _]; by right]].
      * intros p c Hp. unfold fail_write. simpl. rewrite Hfs.
        destruct (failed_write_leaves E out _); [|done].
        rewrite lookup_insert_ne; [done|]. intros <-.
        unfold exists_file in Hex. by rewrite Hp in Hex.
      * intros p. unfold fail_write. simpl.
        rewrite written_paths_snoc, app_nil_r, Hwr. by left.
    + destruct Hq as [Hfs Hwr].
      split; [|split; [|intros ? ? [= <- _]; by left]].
      * intros p c Hp. simpl. rewrite Hfs.
        rewrite lookup_insert_ne; [done|]. intros <-.
        unfold exists_file in Hex. by rewrite Hp in Hex.
      * intros p. simpl. rewrite written_paths_snoc, Hwr.
        intros [Hp|Hp]%elem_of_app; [by left|].
        apply list_elem_of_singleton in Hp as ->. right.
        split; [|apply output_path_head].
        rewrite lookup_insert_eq. by eexists.
  - pose proof (quiet_trans _ _ _ Hr Ha) as Hq.
    split; [by apply files_kept_quiet|]. split; [by apply writes_landed_quiet|].
    done.
Qed.

(** The chapter loop keeps every file, lands its writes and collects
    page paths only. *)
Lemma chapter_loop_frame chapters tr : ∀ all counts w,
  files_kept w (chapter_loop U E chapters tr all counts w).1
  ∧ writes_landed w (chapter_loop U E chapters tr all counts w).1
  ∧ ∀ p, p ∈ (chapter_loop U E chapters tr all counts w).2.1 →
         p ∈ all ∨ ∃ kv, kv ∈ chapters ∧ p ∈ path <$> kv.2.
Proof.
  induction chapters as [|[key pages] rest IH]; intros all counts w.
  { split; [apply files_kept_refl|].
    split; [apply writes_landed_quiet, quiet_refl | by left]. }
  assert (∀ all' counts' w',
            files_kept w w' → writes_landed w w' →
            (∀ p, p ∈ all' → p ∈ all ∨ p ∈ path <$> pages) →
            files_kept w (chapter_loop U E rest tr all' counts' w').1
            ∧ writes_landed w (chapter_loop U E rest tr all' counts' w').1
            ∧ ∀ p, p ∈ (chapter_loop U E rest tr all' counts' w').2.1 →
                   p ∈ all ∨ ∃ kv, kv ∈ (key, pages) :: rest ∧ p ∈ path <$> kv.2)
    as Hstep.
  { intros all' counts' w' Hk Hw Hall.
    destruct (IH all' counts' w') as (Hk' & Hw' & Hin).
    split; [by eapply files_kept_trans|].
    split; [by eapply writes_landed_trans|].
    intros p [Hp|(kv & Hkv & Hp)]%Hin.
    - destruct (Hall p Hp) as [?|?]; [by left|].
      right. exists (key, pages). split; [by left | done].
    - right. exists kv. split; [by right | done]. }
  assert (writes_landed w w) as Hw0 by apply writes_landed_quiet, quiet_refl.
  cbn [chapter_loop].
  destruct pages as [|page pages'] eqn:Hpages.
  { apply Hstep; [apply files_kept_refl | done | by left]. }
  rewrite <-Hpages in *. clear Hpages.
  destruct tr as [t|].
  2: { apply Hstep; [apply files_kept_refl | done | by left]. }
  destruct (process_chapter_frame key pages (Some t) w) as (Hk & Hw & Hret).
  destruct (process_chapter U E key pages OUTPUT_DIRECTORY (Some t) w)
    as [w1 [processed skipped|]]; simpl in Hk, Hw, Hret.
  - destruct skipped; [apply Hstep; [done | done | by left]|].
    destruct processed as [|f processed'] eqn:Hproc.
    + apply Hstep; [done | done | by left].
    + rewrite <-Hproc in *. apply Hstep; [done | done |].
      intros p [?|Hp]%elem_of_app; [by left|]. right.
      destruct (Hret processed false eq_refl) as [<- | ->]; [done|].
      by apply elem_of_nil in Hp.
  - apply Hstep; [done | done | by left].
Qed.

(** Deletion touches the listed files only and writes nothing. *)
Lemma delete_sources_other files : ∀ w p,
  p ∉ files → fs (delete_sources E files w) !! p = fs w !! p.
Proof.
  induction files as [|f files IH]; intros w p Hp; [done|].
  apply not_elem_of_cons in Hp as [Hne Hp].
  unfold delete_sources in *. cbn [fold_left]. rewrite IH by done.
  unfold remove_file. destruct (exists_file w f); [|done].
  destruct (remove_fails E f); [done|]. simpl. by rewrite lookup_delete_ne.
Qed.

Lemma delete_sources_written files : ∀ w,
  written_paths (trace (delete_sources E files w)) = written_paths (trace w).
Proof.
  induction files as [|f files IH]; intros w; [done|].
  unfold delete_sources in *. cbn [fold_left]. rewrite IH.
  unfold remove_file. destruct (exists_file w f); [|done].
  destruct (remove_fails E f); simpl; by rewrite written_paths_snoc, app_nil_r.
Qed.

(** The pages of the groups are files of the scan. *)
Lemma add_page_paths key page : ∀ data kv p,
  kv ∈ add_page key page data → p ∈ path <$> kv.2 →
  p = path page ∨ ∃ kv', kv' ∈ data ∧ p ∈ path <$> kv'.2.
Proof.
  induction data as [|[k pages] rest IH]; intros kv p Hkv Hp.
  - apply list_elem_of_singleton in Hkv as ->. simpl in Hp.
    apply list_elem_of_singleton in Hp. by left.
  - cbn [add_page] in Hkv. destruct (bool_decide (k = key)).
    + apply elem_of_cons in Hkv as [-> | Hkv].
      * simpl in Hp. rewrite fmap_app in Hp.
        apply elem_of_app in Hp as [Hp|Hp].
        -- right. exists (k, pages). split; [by left | done].
        -- left. simpl in Hp. by apply list_elem_of_singleton in Hp.
      * right. exists kv. split; [by right | done].
    + apply elem_of_cons in Hkv as [-> | Hkv].
      * right. exists (k, pages). split; [by left | done].
      * destruct (IH kv p Hkv Hp) as [?|(kv' & ? & ?)]; [by left|].
        right. exists kv'. split; [by right | done].
Qed.

Lemma group_step_paths files : ∀ data kv p,
  kv ∈ fold_left (group_step U) files data → p ∈ path <$> kv.2 →
  p ∈ files ∨ ∃ kv', kv' ∈ data ∧ p ∈ path <$> kv'.2.
Proof.
  induction files as [|f files IH]; intros data kv p Hkv Hp.
  - right. by exists kv.
  - cbn [fold_left] in Hkv.
    destruct (IH _ kv p Hkv Hp) as [?|(kv' & Hkv' & Hp')]; [left; by right|].
    unfold group_step in Hkv'.
    destruct (parse_filename U f) as [[[[volume chapter] page_int] page_str]|].
    + destruct (add_page_paths _ _ _ _ _ Hkv' Hp') as [->|?]; [|by right].
      left. by left.
    + right. by exists kv'.
Qed.

Lemma insert_page_paths page : ∀ sorted p,
  p ∈ path <$> insert_page page sorted → p = path page ∨ p ∈ path <$> sorted.
Proof.
  induction sorted as [|q rest IH]; intros p Hp; cbn [insert_page] in Hp.
  - simpl in Hp. apply list_elem_of_singleton in Hp. by left.
  - destruct (page_num page <=? page_num q).
    + cbn [fmap list_fmap] in Hp. apply elem_of_cons in Hp as [->|Hp];
        [by left | by right].
    + cbn [fmap list_fmap] in Hp. apply elem_of_cons in Hp as [->|Hp].
      * right. cbn [fmap list_fmap]. by left.
      * destruct (IH p Hp) as [?|?]; [by left|].
        right. cbn [fmap list_fmap]. by right.
Qed.

Lemma sort_pages_paths pages : ∀ p,
  p ∈ path <$> sort_pages pages → p ∈ path <$> pages.
Proof.
  induction pages as [|page rest IH]; intros p Hp; [done|].
  unfold sort_pages in *. cbn [foldr] in Hp.
  apply insert_page_paths in Hp as [->|Hp]; cbn [fmap list_fmap].
  - by left.
  - right. by apply IH.
Qed.

Lemma group_files_paths files kv p :
  kv ∈ group_files U files → p ∈ path <$> kv.2 → p ∈ files.
Proof.
  unfold group_files. intros ([k pages] & -> & Hkv)%list_elem_of_fmap Hp.
  simpl in Hp. apply sort_pages_paths in Hp.
  destruct (group_step_paths _ _ _ _ Hkv Hp) as [?|(? & Hnil & _)]; [done|].
  by apply elem_of_nil in Hnil.
Qed.

(** The scanned pages lie in the source directory, the output artifacts
    do not. *)
Lemma glob_html_head w p :
  p ∈ glob_html E SOURCE_DIRECTORY w → head p = Some 100.
Proof.
  unfold glob_html. intros (name & -> & [Hname _]%list_elem_of_filter)%list_elem_of_fmap.
  apply andb_prop in Hname as [Hentry _].
  unfold path_join. destruct name as [|c name]; [done|].
  cbn [entry_name forallb] in Hentry. apply andb_prop in Hentry as [Hc _].
  cbn [starts_with]. destruct (Z.eqb_spec 47 c) as [<-|_]; [done|]. done.
Qed.

Lemma init_translator_quiet w : quiet w (init_translator E w).1.
Proof.
  unfold init_translator. destruct (GoogleTranslator E); [|apply quiet_refl].
  pose proof (call_translate_quiet [20320; 22909] w).
  by destruct (call_translate E [20320; 22909] w).
Qed.

(** A run keeps every file that is not a page of the source directory,
    and every file it writes is there at the end. *)
Lemma main_frame w :
  (∀ p c, fs w !! p = Some c → head p ≠ Some 100 →
          fs (main U E w).1 !! p = Some c)
  ∧ writes_landed w (main U E w).1.
Proof.
  unfold main.
  destruct (negb (DEEP_TRANSLATOR_AVAILABLE E));
    [split; [done | apply writes_landed_quiet, quiet_refl]|].
  pose proof (init_translator_quiet w) as Hi.
  destruct (init_translator E w) as [w1 tr]. simpl in Hi.
  pose proof (group_files_paths (glob_html E SOURCE_DIRECTORY w1)) as Hg.
  fold (group_html_files U E SOURCE_DIRECTORY w1) in Hg.
  destruct (group_html_files U E SOURCE_DIRECTORY w1) as [|kv0 chapters] eqn:Hgr.
  { split; [|by apply writes_landed_quiet].
    intros p c Hp _. by apply (files_kept_quiet _ _ Hi). }
  rewrite <-Hgr in *. clear Hgr.
  destruct (chapter_loop_frame (group_html_files U E SOURCE_DIRECTORY w1)
              tr [] no_counts w1) as (Hk & Hw & Hall).
  destruct (chapter_loop U E (group_html_files U E SOURCE_DIRECTORY w1) tr []
              no_counts w1) as [w2 [all counts]].
  simpl in Hk, Hw, Hall. unfold DELETE_SOURCE_FILES_AFTER_PROCESSING. simpl.
  assert (∀ p, head p ≠ Some 100 → p ∉ all) as Hnot.
  { intros p Hhead [Hnil|(kv & Hkv & Hin)]%Hall; [by apply elem_of_nil in Hnil|].
    apply Hhead, (glob_html_head w1), (Hg kv p Hkv Hin). }
  split.
  - intros p c Hp Hhead. rewrite delete_sources_other by auto.
    by apply Hk, (files_kept_quiet _ _ Hi).
  - intros p. rewrite delete_sources_written. intros [Hp|[Hs Hhead]]%Hw.
    + left. destruct Hi as [_ <-]. done.
    + right. split; [|done]. by rewrite delete_sources_other by auto.
Qed.

End Frame.

(** C5.  A chapter whose output artifact exists is not processed: the
    world comes back as it was (nothing read, annotated or written) and
    the result carries the skipped flag; [main] counts it as skipped.
    A run leaves every output artifact that exists as it is, and every
    file a run writes is there when the run ends; so a second run (in
    any environment) changes no output that the first run wrote. *)
Theorem existing_output_is_skipped (U : UnicodeData) {Backend : Type}
    (E E2 : Env Backend) :
  (∀ chapter_key pages tr (w : World Backend),
      exists_file w (output_path chapter_key) = true →
      process_chapter U E chapter_key pages OUTPUT_DIRECTORY tr w
      = (w, Returned (path <$> pages) true))
  ∧ (∀ chapter_key page pages rest t all counts (w : World Backend),
      exists_file w (output_path chapter_key) = true →
      chapter_loop U E ((chapter_key, page :: pages) :: rest) (Some t) all counts w
      = chapter_loop U E rest (Some t) all (count_skipped counts) w)
  ∧ (∀ (w : World Backend) chapter_key content,
      fs w !! output_path chapter_key = Some content →
      fs (main U E w).1 !! output_path chapter_key = Some content)
  ∧ (∀ (w : World Backend) p,
      p ∈ written_paths (trace (main U E w).1) →
      p ∉ written_paths (trace w) →
      is_Some (fs (main U E w).1 !! p)
      ∧ fs (main U E2 (main U E w).1).1 !! p = fs (main U E w).1 !! p).
Proof.
  assert (∀ chapter_key pages tr (w : World Backend),
            exists_file w (output_path chapter_key) = true →
            process_chapter U E chapter_key pages OUTPUT_DIRECTORY tr w
            = (w, Returned (path <$> pages) true)) as Hskip.
  { intros chapter_key pages tr w Hex. unfold process_chapter. cbv zeta.
    fold (output_path chapter_key). by rewrite Hex. }
  split; [exact Hskip|]. split; [|split].
  - intros chapter_key page pages rest t all counts w Hex.
    cbn [chapter_loop]. by rewrite (Hskip _ _ _ _ Hex).
  - intros w chapter_key content Hp.
    by apply main_frame, output_path_head.
  - intros w p Hp Hnew.
    destruct (proj2 (main_frame U E w) p Hp) as [?|[[c Hc] Hhead]]; [done|].
    split; [by exists c|]. rewrite Hc.
    by apply main_frame.
Qed.

Lemma existing_output_is_skipped_witness :
  fs (main ascii_tables working_env three_chapters_world).1
    !! output_path (lit "volume1_chapter1")
  = Some (lit "old").
Proof.
  apply (proj1 (proj2 (proj2 (existing_output_is_skipped ascii_tables
                                working_env working_env)))
           three_chapters_world (lit "volume1_chapter1") (lit "old")).
  vm_compute. reflexivity.
Defined.

(** Without a translator object no chapter is touched: the run leaves
    the world as it found it. *)
Lemma chapter_loop_no_translator (U : UnicodeData) {Backend : Type}
    (E : Env Backend) chapters : ∀ all counts (w : World Backend),
  ∃ counts', chapter_loop U E chapters None all counts w = (w, (all, counts')).
Proof.
  induction chapters as [|[key pages] rest IH]; intros all counts w.
  - by exists counts.
  - cbn [chapter_loop]. destruct pages; apply IH.
Qed.

Lemma main_no_translator (U : UnicodeData) {Backend : Type}
    (E : Env Backend) (w : World Backend) :
  DEEP_TRANSLATOR_AVAILABLE E = false ∨ GoogleTranslator E = None →
  (main U E w).1 = w.
Proof.
  unfold main. intros [-> | Hctor]; [done|].
  destruct (negb (DEEP_TRANSLATOR_AVAILABLE E)); [done|].
  unfold init_translator. rewrite Hctor.
  destruct (group_html_files U E SOURCE_DIRECTORY w) as [|kv chapters]; [done|].
  destruct (chapter_loop_no_translator U E (kv :: chapters) [] no_counts w)
    as [counts' ->].
  done.
Qed.

(** C1, the failing run.  Of three chapters the first is skipped (its
    output exists), the second is processed and the third has no text.
    After the run with clean-up enabled the page of the processed
    chapter is deleted and the page of the errored chapter is left, but
    the page of the skipped chapter is still there: [main] counts a
    skipped chapter and drops the page paths [process_chapter] returned
    for it. *)
Theorem skipped_chapter_sources_not_deleted :
  DELETE_SOURCE_FILES_AFTER_PROCESSING = true
  ∧ (main ascii_tables working_env three_chapters_world).2
    = Some {| chapters_processed_count := 1;
              chapters_skipped_count := 1;
              chapters_error_count := 1 |}
  ∧ (process_chapter ascii_tables working_env (lit "volume1_chapter1")
       [ {| path := lit "data/volume1_chapter1_1.html"; page_num := 1 |} ]
       OUTPUT_DIRECTORY (Some TranslatorObject) three_chapters_world).2
    = Returned [lit "data/volume1_chapter1_1.html"] true
  ∧ fs (main ascii_tables working_env three_chapters_world).1
      !! lit "data/volume1_chapter1_1.html" = Some chapter_text
  ∧ fs (main ascii_tables working_env three_chapters_world).1
      !! lit "data/volume1_chapter2_1.html" = None
  ∧ fs (main ascii_tables working_env three_chapters_world).1
      !! lit "data/volume1_chapter3_1.html" = Some [].
Proof. vm_compute. repeat split. Qed.

(** C2, the failing run.  The translator object is constructed and the
    test call raises: initialisation has failed, yet the object is bound
    and the guard of the chapter loop lets the chapter through.  It is
    read, annotated (every gloss a failure marker after three calls) and
    written, and its page is deleted. *)
Theorem failed_test_call_still_processes :
  (call_translate network_down_env [20320; 22909] page_of_world).2
  = TranslateError (lit "Connection refused")
  ∧ (init_translator network_down_env page_of_world).2 = Some TranslatorObject
  ∧ (main ascii_tables network_down_env page_of_world).2
    = Some {| chapters_processed_count := 1;
              chapters_skipped_count := 0;
              chapters_error_count := 0 |}
  ∧ written_paths (trace (main ascii_tables network_down_env page_of_world).1)
    = [lit "output/volume1_chapter1.html"]
  ∧ exists_file (main ascii_tables network_down_env page_of_world).1
      (lit "output/volume1_chapter1.html") = true
  ∧ translate_calls (trace (main ascii_tables network_down_env page_of_world).1)
    = 7%nat
  ∧ fs (main ascii_tables network_down_env page_of_world).1
      !! lit "data/volume1_chapter1_1.html" = None.
Proof. vm_compute. repeat split. Qed.

(** ** The chapter grouper: order and membership *)

Lemma insert_page_perm page sorted : insert_page page sorted ≡ₚ page :: sorted.
Proof.
  induction sorted as [|q rest IH]; cbn [insert_page]; [done|].
  destruct (page_num page <=? page_num q); [done|].
  rewrite IH. apply Permutation_swap.
Qed.

Lemma sort_pages_perm pages : sort_pages pages ≡ₚ pages.
Proof.
  induction pages as [|page rest IH]; [done|].
  unfold sort_pages in *. cbn [foldr]. by rewrite insert_page_perm, IH.
Qed.

Lemma insert_page_sorted page sorted :
  StronglySorted page_le sorted → StronglySorted page_le (insert_page page sorted).
Proof.
  induction 1 as [|q rest Hrest IH Hq]; cbn [insert_page].
  - repeat constructor.
  - destruct (Z.leb_spec (page_num page) (page_num q)) as [Hle|Hgt].
    + constructor; [by constructor|]. constructor; [done|].
      eapply Forall_impl; [exact Hq|]. unfold page_le. intros x Hx. simpl in Hx. lia.
    + constructor; [done|]. rewrite insert_page_perm.
      constructor; [unfold page_le; lia | done].
Qed.

Lemma sort_pages_sorted pages : StronglySorted page_le (sort_pages pages).
Proof.
  induction pages as [|page rest IH]; [constructor|].
  unfold sort_pages in *. cbn [foldr]. by apply insert_page_sorted.
Qed.

Lemma insert_page_filter n page sorted :
  filter (fun p => page_num p = n) (insert_page page sorted)
  = filter (fun p => page_num p = n) (page :: sorted).
Proof.
  induction sorted as [|q rest IH]; cbn [insert_page]; [done|].
  destruct (Z.leb_spec (page_num page) (page_num q)) as [Hle|Hgt]; [done|].
  rewrite (filter_cons _ q), IH, !filter_cons.
  repeat case_decide; (done || lia).
Qed.

Lemma sort_pages_filter n pages :
  filter (fun p => page_num p = n) (sort_pages pages)
  = filter (fun p => page_num p = n) pages.
Proof.
  induction pages as [|page rest IH]; [done|].
  unfold sort_pages in *. cbn [foldr].
  rewrite insert_page_filter, !filter_cons, IH. done.
Qed.

Lemma add_page_in_group key page : ∀ data k pg,
  in_group k pg (add_page key page data)
  ↔ (k = key ∧ pg = page) ∨ in_group k pg data.
Proof.
  induction data as [|[k0 pages0] rest IH]; intros k pg; cbn [add_page].
  - split.
    + intros (pages & Hin & Hpg). apply list_elem_of_singleton in Hin as [= -> ->].
      apply list_elem_of_singleton in Hpg. by left.
    + intros [[-> ->]|(pages & Hin & _)]; [|by apply elem_of_nil in Hin].
      exists [page]. split; apply list_elem_of_singleton; done.
  - case_bool_decide as Hk.
    + subst k0. split.
      * intros (pages & Hin & Hpg). apply elem_of_cons in Hin as [[= -> ->]|Hin].
        -- apply elem_of_app in Hpg as [Hpg|Hpg].
           ++ right. exists pages0. split; [by left | done].
           ++ apply list_elem_of_singleton in Hpg. by left.
        -- right. exists pages. split; [by right | done].
      * intros [[-> ->]|(pages & Hin & Hpg)].
        -- exists (pages0 ++ [page]). split; [by left|].
           apply elem_of_app. right. by apply list_elem_of_singleton.
        -- apply elem_of_cons in Hin as [[= -> ->]|Hin].
           ++ exists (pages0 ++ [page]). split; [by left|].
              apply elem_of_app. by left.
           ++ exists pages. split; [by right | done].
    + split.
      * intros (pages & Hin & Hpg). apply elem_of_cons in Hin as [[= -> ->]|Hin].
        -- right. exists pages0. split; [by left | done].
        -- destruct (proj1 (IH k pg)) as [?|(pages' & ? & ?)];
             [by exists pages | by left |].
           right. exists pages'. split; [by right | done].
      * intros [Hnew|(pages & Hin & Hpg)].
        -- destruct (proj2 (IH k pg)) as (pages' & ? & ?); [by left|].
           exists pages'. split; [by right | done].
        -- apply elem_of_cons in Hin as [[= -> ->]|Hin].
           ++ exists pages0. split; [by left | done].
           ++ destruct (proj2 (IH k pg)) as (pages' & ? & ?);
                [right; by exists pages|].
              exists pages'. split; [by right | done].
Qed.

Lemma add_page_keys key page : ∀ data,
  (add_page key page data).*1
  = if bool_decide (key ∈ data.*1) then data.*1 else data.*1 ++ [key].
Proof.
  induction data as [|[k0 pages0] rest IH]; cbn [add_page]; [done|].
  destruct (bool_decide_reflect (k0 = key)) as [Hk|Hk].
  - subst k0. cbn [fmap list_fmap fst].
    rewrite bool_decide_eq_true_2; [done | by left].
  - cbn [fmap list_fmap fst]. rewrite IH.
    destruct (bool_decide_reflect (key ∈ rest.*1)) as [Hin|Hin].
    + rewrite bool_decide_eq_true_2; [done | by right].
    + rewrite bool_decide_eq_false_2; [done|].
      intros [?|?]%elem_of_cons; congruence.
Qed.

Lemma add_page_nonempty key page data :
  Forall (fun kv => kv.2 ≠ []) data →
  Forall (fun kv => kv.2 ≠ []) (add_page key page data).
Proof.
  induction 1 as [|[k0 pages0] rest H0 H IH]; cbn [add_page].
  - by repeat constructor.
  - case_bool_decide; constructor; try done. simpl. by intros [_ ?]%app_eq_nil.
Qed.

Section Grouping.
Context (U : UnicodeData).

Lemma group_step_in_group files : ∀ data k pg,
  in_group k pg (fold_left (group_step U) files data)
  ↔ (path pg ∈ files ∧ page_parses U k pg) ∨ in_group k pg data.
Proof.
  induction files as [|f files IH]; intros data k pg; cbn [fold_left].
  - split; [by right|]. intros [[Hnil _]|?]; [by apply elem_of_nil in Hnil | done].
  - rewrite IH. unfold group_step.
    destruct (parse_filename U f) as [[[[volume chapter] page_int] page_str]|] eqn:Hp.
    + rewrite add_page_in_group. split.
      * intros [[Hin Hpp]|[[-> ->]|Hd]].
        -- left. split; [by right | done].
        -- left. split; [by left|]. by exists volume, chapter, page_str.
        -- by right.
      * intros [[Hin Hpp]|Hd]; [|right; by right].
        apply elem_of_cons in Hin as [Hf|Hin]; [|left; by split].
        right. left. destruct Hpp as (v & c & s & Hpp & ->). rewrite Hf, Hp in Hpp.
        injection Hpp as <- <- Hn <-. split; [done|]. destruct pg. simpl in *. congruence.
    + split.
      * intros [[Hin Hpp]|Hd]; [|by right]. left. split; [by right | done].
      * intros [[Hin Hpp]|Hd]; [|by right].
        apply elem_of_cons in Hin as [Hf|Hin]; [|left; by split].
        destruct Hpp as (v & c & s & Hpp & _). by rewrite Hf, Hp in Hpp.
Qed.

Lemma group_step_keys files : ∀ data,
  NoDup data.*1 → Forall (fun kv => kv.2 ≠ []) data →
  NoDup (fold_left (group_step U) files data).*1
  ∧ Forall (fun kv => kv.2 ≠ []) (fold_left (group_step U) files data).
Proof.
  induction files as [|f files IH]; intros data Hnd Hne; [done|].
  cbn [fold_left]. apply IH; unfold group_step;
    destruct (parse_filename U f) as [[[[volume chapter] page_int] page_str]|];
    try done.
  - rewrite add_page_keys. case_bool_decide as Hin; [done|].
    apply NoDup_app. split; [done|]. split; [|apply NoDup_singleton].
    intros x Hx ->%list_elem_of_singleton. done.
  - by apply add_page_nonempty.
Qed.

End Grouping.

Lemma in_group_sorted k pg data :
  in_group k pg ((fun kv => (kv.1, sort_pages kv.2)) <$> data) ↔ in_group k pg data.
Proof.
  split.
  - intros (pages & ([k0 pages0] & [= -> ->] & Hin)%list_elem_of_fmap & Hpg).
    exists pages0. split; [done|]. by rewrite <-(sort_pages_perm pages0).
  - intros (pages & Hin & Hpg). exists (sort_pages pages). split.
    + apply list_elem_of_fmap. by exists (k, pages).
    + by rewrite sort_pages_perm.
Qed.

(** X1.  The pages of a chapter are sorted as a stable sort by page
    number sorts them: the result is a rearrangement of the pages, in
    ascending order of page number, and the pages with one and the same
    number keep the order in which they were found. *)
Theorem sort_pages_stable (pages : list Page) :
  sort_pages pages ≡ₚ pages
  ∧ StronglySorted page_le (sort_pages pages)
  ∧ ∀ n, filter (fun p => page_num p = n) (sort_pages pages)
         = filter (fun p => page_num p = n) pages.
Proof.
  split; [apply sort_pages_perm|]. split; [apply sort_pages_sorted|].
  intros n. apply sort_pages_filter.
Qed.

(** X2.  A page is in the group of a key exactly when its file is one
    of the scanned files, the file name parses, the key is built from
    the volume and chapter of the name, and the page number is the one
    parsed: no parsable file is lost, no file lands in a foreign
    chapter, and a file that does not parse is in no group. *)
Theorem group_files_membership (U : UnicodeData) (files : list str)
    (k : str) (pg : Page) :
  in_group k pg (group_files U files)
  ↔ path pg ∈ files ∧ page_parses U k pg.
Proof.
  unfold group_files. rewrite in_group_sorted, group_step_in_group.
  split; [|by left]. intros [?|(pages & Hnil & _)]; [done|].
  by apply elem_of_nil in Hnil.
Qed.

(** The keys of the grouping are pairwise different and no group is
    empty. *)
Lemma group_files_keys (U : UnicodeData) (files : list str) :
  NoDup (group_files U files).*1
  ∧ Forall (fun kv => kv.2 ≠ []) (group_files U files).
Proof.
  destruct (group_step_keys U files [] (NoDup_nil_2) (Forall_nil_2 _))
    as [Hnd Hne].
  unfold group_files. split.
  - rewrite <-list_fmap_compose.
    by rewrite (list_fmap_ext _ fst (fold_left (group_step U) files []))
      by by intros ? [? ?].
  - apply Forall_fmap. eapply Forall_impl; [exact Hne|].
    intros [k pages] Hp. simpl in *.
    intros Hs. apply Hp. apply Permutation_nil_r. by rewrite <-Hs, sort_pages_perm.
Qed.

(** X3.  The chapter keys of the grouping are pairwise different, no
    group is empty, and every group is in ascending order of page
    number. *)
Theorem group_files_wellformed (U : UnicodeData) (files : list str) :
  NoDup (group_files U files).*1
  ∧ Forall (fun kv => kv.2 ≠ [] ∧ StronglySorted page_le kv.2)
      (group_files U files).
Proof.
  destruct (group_files_keys U files) as [Hnd Hne].
  split; [exact Hnd|].
  rewrite Forall_forall in Hne. apply Forall_forall. intros kv Hkv.
  split; [by apply Hne|].
  unfold group_files in Hkv.
  apply list_elem_of_fmap in Hkv as ([k pages] & -> & _).
  apply sort_pages_sorted.
Qed.

Lemma until_slash_app a b :
  entry_name a = true → until_slash (a ++ 47 :: b) = a.
Proof.
  induction a as [|c a IH]; simpl; [done|].
  intros [Hc Ha]%andb_prop. destruct (Z.eqb_spec c 47); [done|]. by rewrite IH.
Qed.

Lemma until_slash_entry a : entry_name a = true → until_slash a = a.
Proof.
  induction a as [|c a IH]; simpl; [done|].
  intros [Hc Ha]%andb_prop. destruct (Z.eqb_spec c 47); [done|]. by rewrite IH.
Qed.

Lemma entry_name_reverse a : entry_name a = true → entry_name (reverse a) = true.
Proof.
  unfold entry_name. induction a as [|c a IH]; [done|].
  simpl. intros [Hc Ha]%andb_prop.
  rewrite reverse_cons, forallb_app, IH by done. simpl. by rewrite Hc.
Qed.

Lemma basename_entry name : entry_name name = true → basename name = name.
Proof.
  intros H. unfold basename.
  by rewrite until_slash_entry, reverse_involutive by by apply entry_name_reverse.
Qed.

Lemma basename_after_slash d name :
  entry_name name = true → basename (d ++ 47 :: name) = name.
Proof.
  intros H. unfold basename. rewrite reverse_app, reverse_cons, <-app_assoc.
  simpl. rewrite until_slash_app by by apply entry_name_reverse.
  apply reverse_involutive.
Qed.

Lemma ends_with_slash a : ends_with [47] a = true → ∃ d, a = d ++ [47].
Proof.
  unfold ends_with. change (reverse [47]) with [47].
  destruct (reverse a) as [|c r] eqn:Hr; [done|].
  cbn [starts_with]. rewrite andb_true_r. intros <-%Z.eqb_eq. exists (reverse r).
  by rewrite <-(reverse_involutive a), Hr, reverse_cons.
Qed.

Lemma basename_path_join dir name :
  entry_name name = true → basename (path_join dir name) = name.
Proof.
  intros H. unfold path_join.
  assert (starts_with [47] name = false) as ->.
  { destruct name as [|c name]; [done|]. cbn [starts_with entry_name forallb] in *.
    apply andb_prop in H as [Hc _]. rewrite andb_true_r.
    destruct (Z.eqb_spec c 47) as [->|]; [done|]. apply Z.eqb_neq. lia. }
  destruct (nonempty dir) eqn:Hd; simpl.
  - destruct (ends_with [47] dir) eqn:He.
    + apply ends_with_slash in He as [d ->]. rewrite <-app_assoc.
      by apply basename_after_slash.
    + by apply basename_after_slash.
  - destruct dir; [|done]. by apply basename_entry.
Qed.

(** X4.  The parser looks at the base name only: for a directory entry
    (a name without a slash) joined to any directory, the result is the
    one for the bare name.  The grouping therefore does not depend on
    the directory that was scanned. *)
Theorem parse_filename_path_join (U : UnicodeData) (dir name : str) :
  entry_name name = true →
  basename (path_join dir name) = name
  ∧ parse_filename U (path_join dir name) = parse_filename U name.
Proof.
  intros H. split; [by apply basename_path_join|].
  unfold parse_filename. by rewrite basename_path_join, basename_entry.
Qed.

Lemma parse_filename_path_join_witness :
  basename (path_join (lit "data") (lit "volume1_chapter2_3.html"))
  = lit "volume1_chapter2_3.html"
  ∧ parse_filename ascii_tables (path_join (lit "data") (lit "volume1_chapter2_3.html"))
    = parse_filename ascii_tables (lit "volume1_chapter2_3.html").
Proof.
  apply (parse_filename_path_join ascii_tables (lit "data")
           (lit "volume1_chapter2_3.html")).
  reflexivity.
Defined.

(** ** The gloss resolver: every outcome *)

Section ResolverOutcomes.
Context (U : UnicodeData) {Backend : Type} (E : Env Backend).
Implicit Types w : World Backend.

Lemma translate_calls_snoc events e :
  translate_calls (events ++ [e])
  = (translate_calls events + if is_translate_event e then 1 else 0)%nat.
Proof.
  rewrite translate_calls_app. f_equal. by destruct e.
Qed.

Lemma call_translate_calls segment w :
  translate_calls (trace (call_translate E segment w).1)
  = S (translate_calls (trace w)).
Proof.
  unfold call_translate. destruct (translate E (backend w) segment).
  simpl. rewrite translate_calls_snoc. simpl. lia.
Qed.

Lemma sleep_calls d w :
  translate_calls (trace (sleep d w)) = translate_calls (trace w).
Proof. simpl. rewrite translate_calls_snoc. simpl. lia. Qed.

(** The loop calls the provider at most once for each attempt. *)
Lemma translation_attempts_calls segment attempts : ∀ w,
  (translate_calls (trace (translation_attempts U E segment attempts w).1)
   ≤ translate_calls (trace w) + length attempts)%nat.
Proof.
  induction attempts as [|attempt rest IH]; intros w; [simpl; lia|].
  cbn [translation_attempts length].
  pose proof (call_translate_calls segment w) as Hc.
  destruct (call_translate E segment w) as [w1 r]. simpl in Hc.
  assert (∀ d, (translate_calls
                  (trace (translation_attempts U E segment rest (sleep d w1)).1)
                ≤ translate_calls (trace w) + S (length rest))%nat) as Hnext.
  { intros d. specialize (IH (sleep d w1)). rewrite sleep_calls in IH. lia. }
  destruct r as [text|message].
  - destruct (nonempty text); [simpl; lia|].
    destruct (attempt <? _); [apply Hnext | simpl; lia].
  - destruct (is_rate_limit U message), (attempt <? _);
      try apply Hnext; simpl; lia.
Qed.

(** What the loop returns, when its last attempt does not retry: an
    answer of the provider that is not empty, or one of the three
    markers; it does not run off its end. *)
Lemma translation_attempts_result segment attempts : ∀ w,
  ends_without_retry attempts →
  let r := (translation_attempts U E segment attempts w).2 in
  r ∈ failure_markers
  ∨ (r ≠ [] ∧ ∃ b b', translate E b segment = (b', Translated r)).
Proof.
  induction attempts as [|attempt rest IH]; intros w Hend; [destruct Hend|].
  cbn [translation_attempts]. unfold call_translate.
  destruct (translate E (backend w) segment) as [b' r] eqn:Ht.
  assert (rest ≠ [] → ends_without_retry rest) as Hrest.
  { intros Hne. destruct rest as [|a rest']; [done | exact Hend]. }
  assert (rest = [] → (attempt <? ONLINE_TRANSLATION_MAX_RETRIES) = false) as Hlast.
  { intros ->. exact Hend. }
  destruct r as [text|message].
  - destruct (nonempty text) eqn:Hne.
    + right. split; [by destruct text|]. by exists (backend w), b'.
    + destruct (attempt <? _) eqn:Ha.
      * apply IH, Hrest. intros ->. specialize (Hlast eq_refl). congruence.
      * left. unfold failure_markers. set_solver.
  - destruct (is_rate_limit U message), (attempt <? _) eqn:Ha;
      try (apply IH, Hrest; intros ->; specialize (Hlast eq_refl); congruence);
      left; unfold failure_markers; set_solver.
Qed.


(** One attempt, by the kind of the provider's response. *)
Lemma translation_attempts_text segment attempt rest w b text :
  translate E (backend w) segment = (b, Translated text) → text ≠ [] →
  translation_attempts U E segment (attempt :: rest) w
  = ({| fs := fs w; backend := b; trace := trace w ++ [EvTranslate segment] |},
     text).
Proof.
  intros Ht Hne. cbn [translation_attempts]. unfold call_translate.
  rewrite Ht. by destruct text.
Qed.

Lemma translation_attempts_empty segment attempt rest w b :
  translate E (backend w) segment = (b, Translated []) →
  translation_attempts U E segment (attempt :: rest) w
  = let w1 := {| fs := fs w; backend := b;
                 trace := trace w ++ [EvTranslate segment] |} in
    if attempt <? ONLINE_TRANSLATION_MAX_RETRIES
    then translation_attempts U E segment rest (sleep (general_delay attempt) w1)
    else (w1, lit "Translation Failed (Empty)").
Proof.
  intros Ht. cbn [translation_attempts]. unfold call_translate. by rewrite Ht.
Qed.

Lemma translation_attempts_error segment attempt rest w b message :
  translate E (backend w) segment = (b, TranslateError message) →
  is_rate_limit U message = false →
  translation_attempts U E segment (attempt :: rest) w
  = let w1 := {| fs := fs w; backend := b;
                 trace := trace w ++ [EvTranslate segment] |} in
    if attempt <? ONLINE_TRANSLATION_MAX_RETRIES
    then translation_attempts U E segment rest (sleep (general_delay attempt) w1)
    else (w1, lit "Translation Failed (Max Retries)").
Proof.
  intros Ht Hr. cbn [translation_attempts]. unfold call_translate.
  by rewrite Ht, Hr.
Qed.

End ResolverOutcomes.

Lemma snoc5 {A} (l : list A) a b c d e :
  ((((l ++ [a]) ++ [b]) ++ [c]) ++ [d]) ++ [e] = l ++ [a; b; c; d; e].
Proof. by rewrite <-!app_assoc. Qed.

Lemma failure_marker_nonempty (r : str) : r ∈ failure_markers → r ≠ [].
Proof.
  intros Hm ->. unfold failure_markers in Hm.
  repeat (apply elem_of_cons in Hm as [Hm|Hm]; [discriminate|]).
  by apply elem_of_nil in Hm.
Qed.

(** The result of a resolution, case by case. *)
Lemma get_online_translation_cases (U : UnicodeData) {Backend : Type}
    (E : Env Backend) (segment : str) (tr : option Translator)
    (w : World Backend) :
  let res := get_online_translation U E segment tr w in
  (translate_calls (trace res.1)
   ≤ translate_calls (trace w) + Z.to_nat (ONLINE_TRANSLATION_MAX_RETRIES + 1))%nat
  ∧ res.2 ≠ []
  ∧ (res.2 = lit "Translator N/A" ∨ res.2 = NBSP ∨ res.2 = segment
     ∨ res.2 ∈ failure_markers
     ∨ ∃ b b', translate E b segment = (b', Translated res.2)).
Proof.
  intros res. subst res. unfold get_online_translation.
  destruct (negb (DEEP_TRANSLATOR_AVAILABLE E) || _).
  { split; [simpl; lia|]. split; [done | by left]. }
  destruct (negb (nonempty segment) || negb (nonempty (strip segment))) eqn:Hblank.
  { split; [simpl; lia|]. split; [done | right; by left]. }
  apply orb_false_elim in Hblank as [Hseg _]. apply negb_false_iff in Hseg.
  assert (segment ≠ []) as Hne by by destruct segment.
  destruct (_ && _).
  { split; [simpl; lia|]. split; [done | right; right; by left]. }
  destruct (negb (is_likely_chinese segment)).
  { split; [simpl; lia|]. split; [done | right; right; by left]. }
  split; [apply (translation_attempts_calls U E segment [0; 1; 2])|].
  destruct (translation_attempts_result U E segment [0; 1; 2] w eq_refl)
    as [Hm|[Hr Hp]].
  - split; [by apply failure_marker_nonempty | by do 3 right; left].
  - split; [done | by do 4 right].
Qed.

(** X5.  Whatever the provider does, one resolution leaves the files
    alone, calls the provider at most MAX_RETRIES + 1 times, and returns
    a text that is not empty: the marker for a missing translator, the
    placeholder, the segment itself, one of the three failure markers,
    or an answer the provider gave for this segment.  The text of the
    return that closes the source function after its loop comes back
    only as the segment itself or as an answer of the provider. *)
Theorem get_online_translation_outcomes (U : UnicodeData) {Backend : Type}
    (E : Env Backend) (segment : str) (tr : option Translator)
    (w : World Backend) :
  let res := get_online_translation U E segment tr w in
  fs res.1 = fs w
  ∧ (translate_calls (trace res.1)
     ≤ translate_calls (trace w) + Z.to_nat (ONLINE_TRANSLATION_MAX_RETRIES + 1))%nat
  ∧ res.2 ≠ []
  ∧ (res.2 = lit "Translator N/A" ∨ res.2 = NBSP ∨ res.2 = segment
     ∨ res.2 ∈ failure_markers
     ∨ ∃ b b', translate E b segment = (b', Translated res.2))
  ∧ (res.2 = lit "Translation Failed (Loop End)" →
     segment = lit "Translation Failed (Loop End)"
     ∨ ∃ b b', translate E b segment
               = (b', Translated (lit "Translation Failed (Loop End)"))).
Proof.
  intros res. split; [apply get_online_translation_quiet|].
  destruct (get_online_translation_cases U E segment tr w) as (Hcalls & Hne & Hres).
  fold res in Hcalls, Hne, Hres.
  split; [exact Hcalls|]. split; [exact Hne|]. split; [exact Hres|].
  intros Hend. rewrite Hend in Hres.
  destruct Hres as [Hr | [Hr | [Hr | [Hr | Hr]]]];
    [discriminate Hr | discriminate Hr | by left | | by right].
  unfold failure_markers in Hr.
  repeat (apply elem_of_cons in Hr as [Hr|Hr]; [discriminate Hr|]).
  by apply elem_of_nil in Hr.
Qed.

Lemma get_online_translation_outcomes_witness :
  lit "Translation Failed (Loop End)" = lit "Translation Failed (Loop End)"
  ∨ ∃ b b', translate working_env b (lit "Translation Failed (Loop End)")
            = (b', Translated (lit "Translation Failed (Loop End)")).
Proof.
  apply (proj2 (proj2 (proj2 (proj2
           (get_online_translation_outcomes ascii_tables working_env
              (lit "Translation Failed (Loop End)") (Some TranslatorObject)
              (demo_world [])))))).
  vm_compute. reflexivity.
Defined.

(** X6.  With the translator available, a segment with an ideograph is
    answered by the first answer of the provider that is not empty: one
    call, no sleep, and the answer is passed on as it is (also when it
    repeats the segment). *)
Theorem first_answer_is_returned (U : UnicodeData) {Backend : Type}
    (E : Env Backend) (segment text : str) (t : Translator)
    (w : World Backend) (b : Backend) :
  DEEP_TRANSLATOR_AVAILABLE E = true →
  existsb is_cjk segment = true →
  translate E (backend w) segment = (b, Translated text) →
  text ≠ [] →
  get_online_translation U E segment (Some t) w
  = ({| fs := fs w; backend := b; trace := trace w ++ [EvTranslate segment] |},
     text).
Proof.
  intros Ha Hc Ht Hne.
  rewrite (get_online_translation_chinese U E segment t w Ha Hc).
  change (py_range (ONLINE_TRANSLATION_MAX_RETRIES + 1)) with [0; 1; 2].
  by apply translation_attempts_text.
Qed.

Lemma first_answer_is_returned_witness :
  get_online_translation ascii_tables
    (demo_env true (Some TranslatorObject) (Translated [26159]))
    [26159] (Some TranslatorObject) (demo_world [])
  = ({| fs := fs (demo_world []); backend := 1%nat;
        trace := trace (demo_world []) ++ [EvTranslate [26159]] |},
     [26159]).
Proof.
  apply (first_answer_is_returned ascii_tables
           (demo_env true (Some TranslatorObject) (Translated [26159]))
           [26159] [26159] TranslatorObject (demo_world []) 1%nat);
    [reflexivity | reflexivity | reflexivity | discriminate].
Defined.

(** X7.  With the translator available and a segment with an ideograph:
    when every call gives an empty answer the result is the marker for
    an empty result, and when every call raises an error without a
    rate-limit indicator it is the marker for exhausted retries; either
    way after MAX_RETRIES + 1 calls with a sleep of
    BASE_DELAY * (attempt + 1) after each call but the last. *)
Theorem plain_failures_exhaust_retries (U : UnicodeData) {Backend : Type}
    (E : Env Backend) (segment : str) (t : Translator) (w : World Backend) :
  DEEP_TRANSLATOR_AVAILABLE E = true →
  existsb is_cjk segment = true →
  let slept :=
    trace w ++
    [EvTranslate segment;
     EvSleep (ONLINE_TRANSLATION_BASE_DELAY * inject_Z (0 + 1))%Q;
     EvTranslate segment;
     EvSleep (ONLINE_TRANSLATION_BASE_DELAY * inject_Z (1 + 1))%Q;
     EvTranslate segment] in
  ((∀ b, ∃ b', translate E b segment = (b', Translated [])) →
   ∃ w', get_online_translation U E segment (Some t) w
         = (w', lit "Translation Failed (Empty)")
         ∧ fs w' = fs w ∧ trace w' = slept)
  ∧ ((∀ b, ∃ b' message,
         translate E b segment = (b', TranslateError message)
         ∧ is_rate_limit U message = false) →
     ∃ w', get_online_translation U E segment (Some t) w
           = (w', lit "Translation Failed (Max Retries)")
           ∧ fs w' = fs w ∧ trace w' = slept).
Proof.
  intros Ha Hc slept. subst slept.
  rewrite (get_online_translation_chinese U E segment t w Ha Hc).
  change (py_range (ONLINE_TRANSLATION_MAX_RETRIES + 1)) with [0; 1; 2].
  split.
  - intros Hempty.
    destruct (Hempty (backend w)) as (b1 & Ht1).
    erewrite (translation_attempts_empty U E); [|exact Ht1].
    cbn zeta. change (0 <? ONLINE_TRANSLATION_MAX_RETRIES) with true. cbn iota.
    destruct (Hempty b1) as (b2 & Ht2).
    erewrite (translation_attempts_empty U E); [|exact Ht2].
    cbn zeta. change (1 <? ONLINE_TRANSLATION_MAX_RETRIES) with true. cbn iota.
    destruct (Hempty b2) as (b3 & Ht3).
    erewrite (translation_attempts_empty U E); [|exact Ht3].
    cbn zeta. change (2 <? ONLINE_TRANSLATION_MAX_RETRIES) with false. cbn iota.
    eexists. split; [reflexivity|]. split; [reflexivity|].
    cbn [trace sleep log]. apply snoc5.
  - intros Herr.
    destruct (Herr (backend w)) as (b1 & m1 & Ht1 & Hr1).
    erewrite (translation_attempts_error U E); [|exact Ht1|exact Hr1].
    cbn zeta. change (0 <? ONLINE_TRANSLATION_MAX_RETRIES) with true. cbn iota.
    destruct (Herr b1) as (b2 & m2 & Ht2 & Hr2).
    erewrite (translation_attempts_error U E); [|exact Ht2|exact Hr2].
    cbn zeta. change (1 <? ONLINE_TRANSLATION_MAX_RETRIES) with true. cbn iota.
    destruct (Herr b2) as (b3 & m3 & Ht3 & Hr3).
    erewrite (translation_attempts_error U E); [|exact Ht3|exact Hr3].
    cbn zeta. change (2 <? ONLINE_TRANSLATION_MAX_RETRIES) with false. cbn iota.
    eexists. split; [reflexivity|]. split; [reflexivity|].
    cbn [trace sleep log]. apply snoc5.
Qed.

Lemma plain_failures_exhaust_retries_witness :
  ∃ w', get_online_translation ascii_tables network_down_env [26159]
          (Some TranslatorObject) (demo_world [])
        = (w', lit "Translation Failed (Max Retries)")
        ∧ fs w' = fs (demo_world [])
        ∧ trace w'
          = trace (demo_world []) ++
            [EvTranslate [26159];
             EvSleep (ONLINE_TRANSLATION_BASE_DELAY * inject_Z (0 + 1))%Q;
             EvTranslate [26159];
             EvSleep (ONLINE_TRANSLATION_BASE_DELAY * inject_Z (1 + 1))%Q;
             EvTranslate [26159]].
Proof.
  apply (proj2 (plain_failures_exhaust_retries ascii_tables network_down_env
                  [26159] TranslatorObject (demo_world []) eq_refl eq_refl)).
  intros b. exists (S b), (lit "Connection refused"). split; reflexivity.
Defined.

(** X8.  With the translator available and a segment with an ideograph:
    when the first call fails and the second gives an answer that is not
    empty, the answer is returned after two calls and one sleep, of
    BASE_DELAY * RATE_LIMIT_MULTIPLIER for a rate-limit error and of
    BASE_DELAY for an empty answer or another error. *)
Theorem second_attempt_recovers (U : UnicodeData) {Backend : Type}
    (E : Env Backend) (segment text : str) (t : Translator)
    (w : World Backend) (b1 b2 : Backend) (r1 : Response) :
  DEEP_TRANSLATOR_AVAILABLE E = true →
  existsb is_cjk segment = true →
  translate E (backend w) segment = (b1, r1) →
  r1 = Translated [] ∨ (∃ message, r1 = TranslateError message) →
  translate E b1 segment = (b2, Translated text) →
  text ≠ [] →
  get_online_translation U E segment (Some t) w
  = ({| fs := fs w; backend := b2;
        trace := trace w ++
          [EvTranslate segment;
           EvSleep (match r1 with
                    | TranslateError message =>
                        if is_rate_limit U message
                        then (ONLINE_TRANSLATION_BASE_DELAY
                              * inject_Z ONLINE_TRANSLATION_RATE_LIMIT_MULTIPLIER
                              * inject_Z (0 + 1))%Q
                        else (ONLINE_TRANSLATION_BASE_DELAY * inject_Z (0 + 1))%Q
                    | Translated _ =>
                        (ONLINE_TRANSLATION_BASE_DELAY * inject_Z (0 + 1))%Q
                    end);
           EvTranslate segment] |},
     text).
Proof.
  intros Ha Hc Ht1 Hfail Ht2 Hne.
  rewrite (get_online_translation_chinese U E segment t w Ha Hc).
  change (py_range (ONLINE_TRANSLATION_MAX_RETRIES + 1)) with [0; 1; 2].
  assert (∀ (l : list Event) a b c, ((l ++ [a]) ++ [b]) ++ [c] = l ++ [a; b; c])
    as Happ by (intros; by rewrite <-!app_assoc).
  destruct Hfail as [-> | [message ->]].
  - erewrite (translation_attempts_empty U E); [|exact Ht1].
    cbn zeta. change (0 <? ONLINE_TRANSLATION_MAX_RETRIES) with true. cbn iota.
    erewrite (translation_attempts_text U E); [|exact Ht2|exact Hne].
    cbn [trace sleep log fs backend]. by rewrite Happ.
  - destruct (is_rate_limit U message) eqn:Hr.
    + erewrite (translation_attempts_rate_limited U E); [|exact Ht1|exact Hr].
      cbn zeta. change (0 <? ONLINE_TRANSLATION_MAX_RETRIES) with true. cbn iota.
      erewrite (translation_attempts_text U E); [|exact Ht2|exact Hne].
      cbn [trace sleep log fs backend]. by rewrite Happ.
    + erewrite (translation_attempts_error U E); [|exact Ht1|exact Hr].
      cbn zeta. change (0 <? ONLINE_TRANSLATION_MAX_RETRIES) with true. cbn iota.
      erewrite (translation_attempts_text U E); [|exact Ht2|exact Hne].
      cbn [trace sleep log fs backend]. by rewrite Happ.
Qed.

Lemma second_attempt_recovers_witness :
  get_online_translation ascii_tables recovering_env [26159]
    (Some TranslatorObject) (demo_world [])
  = ({| fs := fs (demo_world []); backend := 2%nat;
        trace := trace (demo_world []) ++
          [EvTranslate [26159];
           EvSleep (ONLINE_TRANSLATION_BASE_DELAY
                    * inject_Z ONLINE_TRANSLATION_RATE_LIMIT_MULTIPLIER
                    * inject_Z (0 + 1))%Q;
           EvTranslate [26159]] |},
     lit "hello").
Proof.
  apply (second_attempt_recovers ascii_tables recovering_env [26159] (lit "hello")
           TranslatorObject (demo_world []) 1%nat 2%nat
           (TranslateError (lit "HTTP 429 Too Many Requests")));
    [reflexivity | reflexivity | reflexivity | right; by eexists
    | reflexivity | discriminate].
Defined.

(** ** The segment annotator: the shape of the stream *)

Section Annotator.
Context (U : UnicodeData) {Backend : Type} (E : Env Backend).
Implicit Types w : World Backend.

Lemma get_pinyin_for_segment_nonempty segment w :
  (get_pinyin_for_segment E segment w).2 ≠ [].
Proof.
  unfold get_pinyin_for_segment. destruct (pinyin E segment); [|done].
  simpl. by destruct (join [32] (omap head l)).
Qed.

Lemma annotate_segments_stream segments tr : ∀ data errors w,
  ∃ anns,
    (annotate_segments U E segments tr data errors w).2.1 = data ++ (Ann <$> anns)
    ∧ zh <$> anns = tokens_of segments
    ∧ Forall annotation_filled anns.
Proof.
  induction segments as [|seg rest IH]; intros data errors w.
  { exists []. by rewrite app_nil_r. }
  cbn [annotate_segments]. cbv zeta. unfold tokens_of. cbn [fmap list_fmap].
  destruct (nonempty (strip seg)) eqn:Hne; cbn [negb].
  2: { apply nonempty_false_iff in Hne. rewrite Hne.
       rewrite filter_cons_False by (by intros ?). apply IH. }
  apply nonempty_true_iff in Hne.
  pose proof (get_pinyin_for_segment_nonempty (strip seg) w) as Hpy.
  destruct (get_pinyin_for_segment E (strip seg) w) as [w1 pinyin_text].
  pose proof (get_online_translation_cases U E (strip seg) tr w1) as (_ & Htr & _).
  destruct (get_online_translation U E (strip seg) tr w1) as [w2 english_text].
  simpl in Hpy, Htr.
  destruct (IH (data ++ [Ann {| zh := strip seg; py := pinyin_text;
                                trans := english_text |}])
              (errors || annotation_failed pinyin_text english_text) w2)
    as (anns & Hdata & Hzh & Hfilled).
  exists ({| zh := strip seg; py := pinyin_text; trans := english_text |} :: anns).
  split; [|split].
  - rewrite Hdata. cbn [fmap list_fmap]. by rewrite <-app_assoc.
  - rewrite filter_cons_True by done. cbn [fmap list_fmap zh]. by rewrite Hzh.
  - constructor; [|done]. repeat split; try done. apply strip_idemp.
Qed.

Lemma annotate_paragraphs_stream paragraphs tr : ∀ data errors w,
  match (annotate_paragraphs U E paragraphs tr data errors w).2 with
  | Some (stream, _) =>
      ∃ groups : list (list Annotation),
        paragraph_tokens E paragraphs = Some ((fun g : list Annotation => zh <$> g) <$> groups)
        ∧ stream = data ++ stream_of_groups groups
        ∧ Forall (Forall annotation_filled) groups
  | None => paragraph_tokens E paragraphs = None
  end.
Proof.
  induction paragraphs as [|para rest IH]; intros data errors w.
  { simpl. exists []. by rewrite app_nil_r. }
  cbn [annotate_paragraphs paragraph_tokens]. cbv zeta.
  destruct (negb (nonempty (strip para))); [apply IH|].
  destruct (jieba_cut E para) as [segments|]; [|done].
  destruct (annotate_segments_stream segments tr data errors (log (EvCut para) w))
    as (anns & Hdata & Hzh & Hfilled).
  destruct (annotate_segments U E segments tr data errors (log (EvCut para) w))
    as [w1 [data1 errors1]].
  simpl in Hdata. specialize (IH (data1 ++ [PARAGRAPH_BREAK]) errors1 w1).
  destruct (annotate_paragraphs U E rest tr (data1 ++ [PARAGRAPH_BREAK]) errors1 w1)
    as [w2 [[stream errs]|]]; simpl in *.
  - destruct IH as (groups & Htok & Hstream & Hall).
    exists (anns :: groups). rewrite Htok. split; [|split].
    + cbn [fmap list_fmap option_fmap option_map]. by rewrite Hzh.
    + rewrite Hstream, Hdata. unfold stream_of_groups.
      cbn [fmap list_fmap mjoin list_join]. by rewrite <-!app_assoc.
    + by constructor.
  - by rewrite IH.
Qed.

End Annotator.

(** ** The renderer: groups and blocks *)

Lemma paragraph_groups_from_annotations anns : ∀ current rest,
  paragraph_groups_from current ((Ann <$> anns) ++ rest)
  = paragraph_groups_from (current ++ anns) rest.
Proof.
  induction anns as [|a anns IH]; intros current rest.
  - by rewrite app_nil_r.
  - cbn [fmap list_fmap app paragraph_groups_from]. rewrite IH.
    by rewrite <-app_assoc.
Qed.

Lemma paragraph_groups_stream groups :
  paragraph_groups (stream_of_groups groups) = filter (fun g => g ≠ []) groups.
Proof.
  unfold paragraph_groups, stream_of_groups.
  induction groups as [|g groups IH]; [done|].
  cbn [fmap list_fmap mjoin list_join]. rewrite <-app_assoc.
  rewrite paragraph_groups_from_annotations.
  destruct g as [|a g]; cbn [app paragraph_groups_from].
  - rewrite filter_cons_False by (by intros ?). exact IH.
  - rewrite filter_cons_True by done. f_equal. exact IH.
Qed.

Lemma generate_chapter_html_parts_blocks data title :
  count_blocks (generate_chapter_html_parts data title)
  = length (paragraph_groups data).
Proof.
  pose proof (render_groups data (html_head title) []) as H.
  change (generate_chapter_html_parts data title
          = html_head title
            ++ mjoin (block_of_rows <$> (rows_of_group <$> paragraph_groups data))
            ++ [lit "</body></html>"]) in H.
  rewrite H, !count_blocks_app, count_blocks_head, count_blocks_foot,
    count_blocks_groups, length_fmap.
  lia.
Qed.

Lemma paragraph_groups_from_break : ∀ data current,
  paragraph_groups_from current (data ++ [PARAGRAPH_BREAK])
  = paragraph_groups_from current data.
Proof.
  induction data as [|item data IH]; intros current.
  - simpl. by destruct current.
  - destruct item as [a|]; cbn [app paragraph_groups_from]; [apply IH|].
    destruct current; by rewrite IH.
Qed.

Lemma generate_chapter_html_parts_groups data data' title :
  paragraph_groups data = paragraph_groups data' →
  generate_chapter_html_parts data title = generate_chapter_html_parts data' title.
Proof.
  intros Hg.
  pose proof (render_groups data (html_head title) []) as H.
  pose proof (render_groups data' (html_head title) []) as H'.
  change (generate_chapter_html_parts data title
          = html_head title
            ++ mjoin (block_of_rows <$> (rows_of_group <$> paragraph_groups data))
            ++ [lit "</body></html>"]) in H.
  change (generate_chapter_html_parts data' title
          = html_head title
            ++ mjoin (block_of_rows <$> (rows_of_group <$> paragraph_groups data'))
            ++ [lit "</body></html>"]) in H'.
  by rewrite H, H', Hg.
Qed.

Lemma filter_nonempty_fmap {A B} (f : A → B) (groups : list (list A)) :
  (fun g : list A => f <$> g) <$> filter (fun g => g ≠ []) groups
  = filter (fun g : list B => g ≠ []) ((fun g : list A => f <$> g) <$> groups).
Proof.
  induction groups as [|g groups IH]; [done|].
  cbn [fmap list_fmap]. destruct g as [|a g].
  - rewrite !filter_cons_False by (by intros ?). exact IH.
  - rewrite !filter_cons_True by done. cbn [fmap list_fmap]. f_equal. exact IH.
Qed.

(** X9.  The stream the annotator builds for a list of paragraphs is,
    for every paragraph that is not blank and in their order, the
    annotations of its tokens followed by one break.  The originals of
    the annotations are the stripped tokens that are not empty, in the
    order of the tokenizer; every annotation has a trimmed original and
    a phonetic text and a gloss that are not empty.  The annotator gives
    up (an exception reaches the caller) exactly when the tokenizer
    raises on a paragraph. *)
Theorem annotate_paragraphs_shape (U : UnicodeData) {Backend : Type}
    (E : Env Backend) (paragraphs : list str) (tr : option Translator)
    (w : World Backend) :
  match (annotate_paragraphs U E paragraphs tr [] false w).2 with
  | Some (stream, _) =>
      ∃ groups : list (list Annotation),
        paragraph_tokens E paragraphs
        = Some ((fun g : list Annotation => zh <$> g) <$> groups)
        ∧ stream = stream_of_groups groups
        ∧ Forall (Forall annotation_filled) groups
  | None => paragraph_tokens E paragraphs = None
  end.
Proof. apply (annotate_paragraphs_stream U E paragraphs tr [] false w). Qed.

(** X10.  When the annotator returns its stream, the document rendered
    from it has one block for every paragraph with at least one token,
    and the originals of the blocks are the token lists of these
    paragraphs, in order: a paragraph without tokens leaves no empty
    block behind.  So are the cells of the original rows, read off the
    rendered parts: one cell for every token of the paragraph. *)
Theorem rendered_blocks_follow_paragraphs (U : UnicodeData) {Backend : Type}
    (E : Env Backend) (paragraphs : list str) (tr : option Translator)
    (w : World Backend) (stream : list Item) (errors : bool) (title : str) :
  (annotate_paragraphs U E paragraphs tr [] false w).2 = Some (stream, errors) →
  ∃ tokens,
    paragraph_tokens E paragraphs = Some tokens
    ∧ (fun g : list Annotation => zh <$> g) <$> paragraph_groups stream
      = filter (fun t => t ≠ []) tokens
    ∧ count_blocks (generate_chapter_html_parts stream title)
      = length (filter (fun t => t ≠ []) tokens)
    ∧ rows_tagged ROW_ZH (generate_chapter_html_parts stream title)
      = (fun t : list str => cell <$> t) <$> filter (fun t => t ≠ []) tokens.
Proof.
  intros Hann.
  pose proof (annotate_paragraphs_stream U E paragraphs tr [] false w) as H.
  rewrite Hann in H. destruct H as (groups & Htok & -> & _).
  eexists. split; [exact Htok|].
  change ([] ++ stream_of_groups groups) with (stream_of_groups groups).
  rewrite (proj1 (rows_tagged_parts _ _)).
  rewrite generate_chapter_html_parts_blocks, paragraph_groups_stream.
  rewrite filter_nonempty_fmap. split; [done|].
  split; [by rewrite <-filter_nonempty_fmap, length_fmap|].
  by rewrite <-filter_nonempty_fmap, <-list_fmap_compose.
Qed.

Lemma rendered_blocks_follow_paragraphs_witness :
  ∃ tokens,
    paragraph_tokens working_env [chapter_text; [32]; [33]] = Some tokens
    ∧ (fun g : list Annotation => zh <$> g)
        <$> paragraph_groups
              [Ann {| zh := [28201; 27700]; py := lit "yin"; trans := lit "hello" |};
               Ann {| zh := [26159]; py := lit "yin"; trans := lit "hello" |};
               PARAGRAPH_BREAK;
               Ann {| zh := [33]; py := lit "yin"; trans := [33] |};
               PARAGRAPH_BREAK]
      = filter (fun t => t ≠ []) tokens
    ∧ count_blocks
        (generate_chapter_html_parts
           [Ann {| zh := [28201; 27700]; py := lit "yin"; trans := lit "hello" |};
            Ann {| zh := [26159]; py := lit "yin"; trans := lit "hello" |};
            PARAGRAPH_BREAK;
            Ann {| zh := [33]; py := lit "yin"; trans := [33] |};
            PARAGRAPH_BREAK] (lit "T"))
      = length (filter (fun t => t ≠ []) tokens)
    ∧ rows_tagged ROW_ZH
        (generate_chapter_html_parts
           [Ann {| zh := [28201; 27700]; py := lit "yin"; trans := lit "hello" |};
            Ann {| zh := [26159]; py := lit "yin"; trans := lit "hello" |};
            PARAGRAPH_BREAK;
            Ann {| zh := [33]; py := lit "yin"; trans := [33] |};
            PARAGRAPH_BREAK] (lit "T"))
      = (fun t : list str => cell <$> t) <$> filter (fun t => t ≠ []) tokens.
Proof.
  exact (rendered_blocks_follow_paragraphs ascii_tables working_env
           [chapter_text; [32]; [33]] (Some TranslatorObject) (demo_world [])
           _ false (lit "T") eq_refl).
Defined.

(** X11.  The number of blocks in the rendered parts is the number of
    non-empty groups of annotations between breaks.  A break at the end
    of the stream and a break at its start change nothing in the
    document: a stream renders the same with and without its closing
    break. *)
Theorem renderer_blocks_and_breaks (data : list Item) (title : str) :
  count_blocks (generate_chapter_html_parts data title)
  = length (paragraph_groups data)
  ∧ generate_chapter_html_output (data ++ [PARAGRAPH_BREAK]) title
    = generate_chapter_html_output data title
  ∧ generate_chapter_html_output (PARAGRAPH_BREAK :: data) title
    = generate_chapter_html_output data title.
Proof.
  split; [apply generate_chapter_html_parts_blocks|].
  unfold generate_chapter_html_output. split; [|reflexivity].
  f_equal. apply generate_chapter_html_parts_groups, paragraph_groups_from_break.
Qed.

(** ** The chapter assembler: pages and paragraphs *)

(** Splitting a text around one line feed: the first piece of the left
    part stays the first piece, and the kept pieces are those of the two
    parts. *)
Lemma re_split_newlines_around a b :
  ∃ h ps1 ps2,
    re_split_newlines a = h :: ps1
    ∧ re_split_newlines (a ++ 10 :: b) = h :: ps2
    ∧ kept ps2 = kept ps1 ++ kept (re_split_newlines b).
Proof.
  induction a as [|c a IH].
  - destruct (re_split_newlines_leading b) as (ps & Hps & Hf).
    exists [], [], ps. cbn [app]. by rewrite Hps, Hf.
  - destruct IH as (h & ps1 & ps2 & H1 & H2 & Hk).
    destruct (Z.eqb_spec c 10) as [->|Hc].
    + destruct a as [|c' a].
      * (* a line feed at the end of the left part *)
        injection H1 as <- <-. exists [], [[]], ps2. split; [done|].
        split; [|by rewrite Hk].
        change (re_split_newlines ([10] ++ 10 :: b))
          with (re_split_newlines (10 :: b)). exact H2.
      * destruct (Z.eqb_spec c' 10) as [->|Hc'].
        -- exists h, ps1, ps2. split; [exact H1|]. split; [exact H2 | exact Hk].
        -- exists [], (h :: ps1), (h :: ps2).
           split; [|split].
           ++ change (re_split_newlines (10 :: c' :: a))
                with (if c' =? 10 then re_split_newlines (c' :: a)
                      else [] :: re_split_newlines (c' :: a)).
              destruct (Z.eqb_spec c' 10); [done|]. by rewrite H1.
           ++ change (re_split_newlines ((10 :: c' :: a) ++ 10 :: b))
                with (if c' =? 10 then re_split_newlines ((c' :: a) ++ 10 :: b)
                      else [] :: re_split_newlines ((c' :: a) ++ 10 :: b)).
              destruct (Z.eqb_spec c' 10); [done|]. by rewrite H2.
           ++ rewrite !(filter_cons _ h), Hk. by case_decide.
    + exists (c :: h), ps1, ps2. split; [|split; [|exact Hk]].
      * rewrite re_split_newlines_cons_keep by done. by rewrite H1.
      * change ((c :: a) ++ 10 :: b) with (c :: (a ++ 10 :: b)).
        rewrite re_split_newlines_cons_keep by done. by rewrite H2.
Qed.

Lemma segment_text_to_paragraphs_app a b :
  segment_text_to_paragraphs (a ++ 10 :: b)
  = segment_text_to_paragraphs a ++ segment_text_to_paragraphs b.
Proof.
  unfold segment_text_to_paragraphs.
  destruct (re_split_newlines_around a b) as (h & ps1 & ps2 & -> & -> & Hk).
  rewrite <-fmap_app. f_equal.
  rewrite !(filter_cons _ h), Hk. by case_decide.
Qed.

Lemma segment_text_to_paragraphs_join texts :
  segment_text_to_paragraphs (join [10] texts)
  = mjoin (segment_text_to_paragraphs <$> texts).
Proof.
  induction texts as [|p rest IH]; [done|].
  destruct rest as [|q rest].
  - simpl. by rewrite app_nil_r.
  - change (join [10] (p :: q :: rest)) with (p ++ 10 :: join [10] (q :: rest)).
    rewrite segment_text_to_paragraphs_app, IH. done.
Qed.

Lemma re_split_newlines_no_newline text :
  Forall no_newline (re_split_newlines text).
Proof.
  induction text as [|c text IH]; [by repeat constructor|].
  destruct (Z.eqb_spec c 10) as [->|Hc].
  - destruct text as [|c' text]; [by repeat constructor|].
    change (re_split_newlines (10 :: c' :: text))
      with (if c' =? 10 then re_split_newlines (c' :: text)
            else [] :: re_split_newlines (c' :: text)).
    destruct (c' =? 10); [done|]. constructor; [constructor | done].
  - rewrite re_split_newlines_cons_keep by done.
    destruct (re_split_newlines text) as [|p ps]; [by repeat constructor|].
    inversion IH; subst. constructor; [by constructor | done].
Qed.

Lemma Forall_lstrip (P : Z → Prop) s : Forall P s → Forall P (lstrip s).
Proof.
  induction 1 as [|c s Hc Hs IH]; simpl; [done|].
  destruct (py_isspace c); [done | by constructor].
Qed.

Lemma Forall_strip (P : Z → Prop) s : Forall P s → Forall P (strip s).
Proof.
  intros H. unfold strip, rstrip.
  by apply Forall_reverse, Forall_lstrip, Forall_reverse, Forall_lstrip.
Qed.

Section Assembler.
Context {Backend : Type} (E : Env Backend).
Implicit Types w : World Backend.

Lemma page_text_of_log e w p : page_text_of E (log e w) p = page_text_of E w p.
Proof. done. Qed.

Lemma read_pages_spec pages : ∀ texts w,
  read_pages E pages texts w
  = ({| fs := fs w; backend := backend w;
        trace := trace w ++ (EvRead <$> (path <$> pages)) |},
     texts ++ omap (fun page => page_text_of E w (path page)) pages).
Proof.
  induction pages as [|page rest IH]; intros texts w.
  - simpl. rewrite !app_nil_r. by destruct w.
  - cbn [read_pages]. cbv zeta. cbn [omap list_omap fmap list_fmap].
    destruct (page_text_of E w (path page)) as [text|] eqn:Ht; rewrite IH;
      cbn [fs backend trace log]; rewrite <-!app_assoc; f_equal.
Qed.

End Assembler.

(** X12.  The text of a chapter is the texts of its pages that could be
    read and hold text, in page order and joined by line feeds; a page
    that is missing, has no content container or fails to parse is
    passed over.  Every page is opened once, in order, and nothing else
    happens.  The paragraphs of the chapter are the paragraphs of these
    page texts, one page after the other: a page break is a paragraph
    break. *)
Theorem read_and_concatenate_chapter_text_pages {Backend : Type}
    (E : Env Backend) (pages : list Page) (w : World Backend) :
  let page_texts := omap (fun page => page_text_of E w (path page)) pages in
  read_and_concatenate_chapter_text E pages w
  = ({| fs := fs w; backend := backend w;
        trace := trace w ++ (EvRead <$> (path <$> pages)) |},
     join [10] page_texts)
  ∧ Forall (fun text => text ≠ []) page_texts
  ∧ segment_text_to_paragraphs (join [10] page_texts)
    = mjoin (segment_text_to_paragraphs <$> page_texts).
Proof.
  intros page_texts. split; [|split].
  - unfold read_and_concatenate_chapter_text. by rewrite read_pages_spec.
  - subst page_texts. apply Forall_forall. intros text.
    rewrite list_elem_of_omap. intros (page & _ & Ht). unfold page_text_of in Ht.
    destruct (fs w !! path page); [|done].
    destruct (page_markup E _); try done.
    destruct (nonempty (join [10] _)) eqn:Hne; [|done].
    injection Ht as <-. by apply nonempty_true_iff.
  - apply segment_text_to_paragraphs_join.
Qed.

(** X13.  Splitting a text at a line feed gives the paragraphs of the
    part before it followed by those of the part after it, and no
    paragraph of any text holds a line feed. *)
Theorem segment_text_to_paragraphs_compose (a b text : str) :
  segment_text_to_paragraphs (a ++ [10] ++ b)
  = segment_text_to_paragraphs a ++ segment_text_to_paragraphs b
  ∧ Forall no_newline (segment_text_to_paragraphs text).
Proof.
  split; [apply segment_text_to_paragraphs_app|].
  unfold segment_text_to_paragraphs. apply Forall_fmap.
  apply Forall_forall. intros p [_ Hp]%list_elem_of_filter.
  simpl. apply Forall_strip.
  pose proof (re_split_newlines_no_newline text) as H.
  rewrite Forall_forall in H. by apply H.
Qed.

(** ** The orchestrator: what a run does to the files *)

Lemma output_path_eq k :
  output_path k
  = if starts_with [47] (k ++ lit ".html") then k ++ lit ".html"
    else lit "output/" ++ k ++ lit ".html".
Proof.
  unfold output_path, path_join.
  by destruct (starts_with [47] (k ++ lit ".html")).
Qed.

Lemma output_path_inj k1 k2 : output_path k1 = output_path k2 → k1 = k2.
Proof.
  rewrite !output_path_eq.
  destruct (starts_with [47] (k1 ++ lit ".html")) eqn:H1,
           (starts_with [47] (k2 ++ lit ".html")) eqn:H2; intros Heq.
  - by apply app_inv_tail in Heq.
  - rewrite Heq in H1. by vm_compute in H1.
  - rewrite <-Heq in H2. by vm_compute in H2.
  - by apply app_inv_head, app_inv_tail in Heq.
Qed.

Lemma elem_of_outputs_of p chapters :
  p ∈ outputs_of chapters ↔ ∃ kv, kv ∈ chapters ∧ p = output_path kv.1.
Proof.
  unfold outputs_of. rewrite list_elem_of_fmap. split.
  - intros (kv & -> & Hkv). by exists kv.
  - intros (kv & Hkv & ->). by exists kv.
Qed.

Lemma elem_of_pages_of p chapters :
  p ∈ pages_of chapters ↔ ∃ kv, kv ∈ chapters ∧ p ∈ path <$> kv.2.
Proof.
  unfold pages_of. rewrite list_elem_of_join. split.
  - intros (l & Hp & (kv & -> & Hkv)%list_elem_of_fmap). by exists kv.
  - intros (kv & Hkv & Hp). exists (path <$> kv.2). split; [done|].
    apply list_elem_of_fmap. by exists kv.
Qed.

Lemma NoDup_keys_eq {A} (l : list (str * A)) k a b :
  NoDup l.*1 → (k, a) ∈ l → (k, b) ∈ l → a = b.
Proof.
  induction l as [|[k0 a0] l IH]; intros Hnd Ha Hb; [by apply elem_of_nil in Ha|].
  cbn [fmap list_fmap fst] in Hnd. apply NoDup_cons in Hnd as [Hk0 Hnd].
  assert (∀ c, (k0, c) ∈ l → False) as Hno.
  { intros c Hc. apply Hk0. apply list_elem_of_fmap. by exists (k0, c). }
  apply elem_of_cons in Ha as [Ha|Ha]; apply elem_of_cons in Hb as [Hb|Hb].
  - congruence.
  - injection Ha as -> _. by destruct (Hno _ Hb).
  - injection Hb as -> _. by destruct (Hno _ Ha).
  - by apply IH.
Qed.

Section Orchestrator.
Context (U : UnicodeData) {Backend : Type} (E : Env Backend).
Implicit Types w : World Backend.

(** The ways [process_chapter] comes back. *)
Lemma process_chapter_cases chapter_key pages tr w :
  let out := output_path chapter_key in
  let res := process_chapter U E chapter_key pages OUTPUT_DIRECTORY tr w in
  match res.2 with
  | Returned processed true =>
      res.1 = w ∧ processed = path <$> pages ∧ exists_file w out = true
  | Returned processed false =>
      exists_file w out = false
      ∧ ((processed = [] ∧ no_complete_write E out w res.1)
         ∨ (processed = path <$> pages ∧ pages ≠ []
            ∧ write_fails E out = false
            ∧ written_paths (trace res.1) = written_paths (trace w) ++ [out]
            ∧ ∃ html, fs res.1 = <[out := html]> (fs w)))
  | Raised => exists_file w out = false ∧ quiet w res.1
  end.
Proof.
  cbv zeta. unfold process_chapter. cbv zeta. fold (output_path chapter_key).
  set (out := output_path chapter_key).
  destruct (exists_file w out) eqn:Hex; [done|].
  pose proof (read_and_concatenate_chapter_text_quiet E pages w) as Hr.
  destruct (read_and_concatenate_chapter_text E pages w) as [w1 text] eqn:Hread.
  simpl in Hr.
  destruct (negb (nonempty (strip text))) eqn:Htext.
  { simpl. split; [done|]. left. split; [done|]. destruct Hr as [Hfs Hwr].
    split; [done | by left]. }
  pose proof (annotate_paragraphs_quiet U E (segment_text_to_paragraphs text) tr [] false w1)
    as Ha.
  destruct (annotate_paragraphs U E (segment_text_to_paragraphs text) tr [] false w1)
    as [w2 [[data errors]|]]; simpl in Ha.
  - pose proof (quiet_trans _ _ _ Hr Ha) as [Hfs Hwr].
    destruct (write_fails E out) eqn:Hwf.
    + cbn [fst snd]. split; [done|]. left. split; [done|].
      unfold no_complete_write, fail_write. cbn [trace fs]. split.
      * by rewrite written_paths_snoc, app_nil_r.
      * destruct (failed_write_leaves E out _) as [remains|] eqn:Hleft; [|by left].
        right. split; [|split; [done|]].
        { unfold exists_file in Hex. by destruct (fs w !! out). }
        eexists _, remains. split; [exact Hleft|]. by rewrite Hfs.
    + simpl. split; [done|]. right.
      split; [done|]. split; [|split; [done|split]].
      * intros ->. unfold read_and_concatenate_chapter_text in Hread.
        cbn [read_pages] in Hread. injection Hread as _ <-. done.
      * by rewrite written_paths_snoc, Hwr.
      * eexists. by rewrite Hfs.
  - simpl. split; [done|]. by eapply quiet_trans.
Qed.

Lemma no_complete_write_lookup out w w1 p :
  no_complete_write E out w w1 →
  fs w1 !! p = fs w !! p
  ∨ (p = out ∧ fs w !! p = None ∧ write_fails E p = true).
Proof.
  intros [_ [-> | (Hnone & Hwf & content & remains & _ & ->)]]; [by left|].
  destruct (decide (p = out)) as [->|Hne]; [by right|].
  left. by rewrite lookup_insert_ne.
Qed.

Lemma loop_result_keep chapter_key pages rest all counts counts1 w w1 res :
  no_complete_write E (output_path chapter_key) w w1 →
  chapters_processed_count counts1 = chapters_processed_count counts →
  chapters_skipped_count counts <= chapters_skipped_count counts1 →
  chapters_error_count counts <= chapters_error_count counts1 →
  (pages ≠ [] → chapters_counted counts1 = chapters_counted counts + 1) →
  loop_result E rest all counts1 w1 res →
  loop_result E ((chapter_key, pages) :: rest) all counts w res.
Proof.
  intros Hstep Hp Hs He Hc
    (done & Hsub & Hall & Hwr' & Hproc & Hskip & Herr & Hcnt & Hdone & Hother).
  assert (∀ p, fs w1 !! p = None → fs w !! p = None) as Hnone.
  { intros p Hp1.
    destruct (no_complete_write_lookup _ _ _ p Hstep) as [<- | (_ & ? & _)]; done. }
  assert (∀ p, fs w1 !! p = fs w !! p
               ∨ (p = output_path chapter_key ∧ fs w !! p = None
                  ∧ write_fails E p = true)) as Hlook
    by (intros p; by apply no_complete_write_lookup).
  destruct Hstep as [Hwr Hfs].
  exists done. split; [by apply sublist_cons|]. split; [done|].
  split; [by rewrite Hwr', Hwr|]. split; [by rewrite Hproc, Hp|].
  split; [lia|]. split; [lia|].
  split; [|split].
  - intros Hne. apply Forall_cons in Hne as [Hne Hrest]. simpl in Hne.
    rewrite (Hcnt Hrest), (Hc Hne).
    change (length ((chapter_key, pages) :: rest)) with (S (length rest)). lia.
  - eapply Forall_impl; [exact Hdone|]. intros kv (? & ? & ? & ?).
    repeat split; auto.
  - intros p Hp'.
    destruct (Hother p Hp') as [Hsame | (Hnew & Hwf & Hin)].
    + destruct (Hlook p) as [<- | (-> & ? & ?)]; [by left|].
      right. split; [done|]. split; [done|].
      apply elem_of_outputs_of. exists (chapter_key, pages). split; [by left | done].
    + right. split; [by apply Hnone|]. split; [done|].
      apply elem_of_outputs_of in Hin as (kv & Hkv & ->).
      apply elem_of_outputs_of. exists kv. split; [by right | done].
Qed.

Lemma loop_result_done chapter_key pages rest all counts w w1 html res :
  pages ≠ [] →
  fs w !! output_path chapter_key = None →
  write_fails E (output_path chapter_key) = false →
  fs w1 = <[output_path chapter_key := html]> (fs w) →
  written_paths (trace w1) = written_paths (trace w) ++ [output_path chapter_key] →
  loop_result E rest (all ++ (path <$> pages)) (count_processed counts) w1 res →
  loop_result E ((chapter_key, pages) :: rest) all counts w res.
Proof.
  intros Hne Hnew Hwf Hfs Hwr
    (done & Hsub & Hall & Hwr' & Hproc & Hskip & Herr & Hcnt & Hdone & Hother).
  exists ((chapter_key, pages) :: done).
  split; [by apply sublist_skip|].
  split; [by rewrite Hall, <-app_assoc|].
  split; [by rewrite Hwr', Hwr, <-app_assoc|].
  split.
  { rewrite Hproc. cbn [count_processed chapters_processed_count].
    change (length ((chapter_key, pages) :: done)) with (S (length done)). lia. }
  split; [exact Hskip|]. split; [exact Herr|].
  split.
  { intros Hall_ne. apply Forall_cons in Hall_ne as [_ Hrest].
    rewrite (Hcnt Hrest). unfold chapters_counted.
    cbn [count_processed chapters_processed_count chapters_skipped_count
         chapters_error_count].
    change (length ((chapter_key, pages) :: rest)) with (S (length rest)). lia. }
  split.
  - apply Forall_cons. split.
    + cbn [fst snd]. split; [done|]. split; [done|]. split; [done|].
      destruct (decide (output_path chapter_key ∈ outputs_of done)) as [Hin|Hin].
      * apply elem_of_outputs_of in Hin as (kv & Hkv & ->).
        rewrite Forall_forall in Hdone. by apply Hdone.
      * destruct (Hother _ Hin) as [-> | (Hnone & _)].
        -- rewrite Hfs, lookup_insert_eq. by eexists.
        -- by rewrite Hfs, lookup_insert_eq in Hnone.
    + eapply Forall_impl; [exact Hdone|]. intros kv (? & Hnone & ? & ?).
      split; [done|]. split; [|done].
      rewrite Hfs in Hnone. by apply lookup_insert_None in Hnone as [? _].
  - intros p Hp. cbn [outputs_of fmap list_fmap fst] in Hp.
    apply not_elem_of_cons in Hp as [Hne' Hp].
    destruct (Hother p Hp) as [-> | (Hnone & Hwf' & Hin)].
    + left. by rewrite Hfs, lookup_insert_ne.
    + right. rewrite Hfs, lookup_insert_ne in Hnone by done.
      split; [done|]. split; [done|].
      apply elem_of_outputs_of in Hin as (kv & Hkv & ->).
      apply elem_of_outputs_of. exists kv. split; [by right | done].
Qed.

(** The chapter loop: its bookkeeping and its effect on the files. *)
Lemma chapter_loop_spec chapters tr : ∀ all counts w,
  loop_result E chapters all counts w (chapter_loop U E chapters tr all counts w).
Proof.
  induction chapters as [|[key pages] rest IH]; intros all counts w.
  { exists []. cbn. rewrite !app_nil_r. repeat split; try done; try lia.
    intros p _. by left. }
  assert (∀ w1, quiet w w1 → no_complete_write E (output_path key) w w1) as Hquiet.
  { intros w1 [Hfs Hwr]. split; [done | by left]. }
  cbn [chapter_loop].
  destruct pages as [|page pages'] eqn:Hpages.
  { by eapply (loop_result_keep _ _ _ _ _ counts);
      [apply Hquiet, quiet_refl | | | | | apply IH]. }
  rewrite <-Hpages in *. assert (pages ≠ []) as Hne by by rewrite Hpages.
  clear Hpages.
  assert (∀ w1, no_complete_write E (output_path key) w w1 →
            loop_result E ((key, pages) :: rest) all counts w
              (chapter_loop U E rest tr all (count_error counts) w1)) as Herr.
  { intros w1 Hq.
    eapply (loop_result_keep _ _ _ _ _ (count_error counts));
      [exact Hq | done | done | simpl; lia | | apply IH].
    intros _. unfold chapters_counted. simpl. lia. }
  destruct tr as [t|]; [|apply Herr, Hquiet, quiet_refl].
  pose proof (process_chapter_cases key pages (Some t) w) as Hcases.
  cbv zeta in Hcases.
  destruct (process_chapter U E key pages OUTPUT_DIRECTORY (Some t) w)
    as [w1 [processed skipped|]]; simpl in Hcases.
  - destruct skipped.
    + destruct Hcases as (-> & _ & _).
      eapply (loop_result_keep _ _ _ _ _ (count_skipped counts));
        [apply Hquiet, quiet_refl | done | simpl; lia | done | | apply IH].
      intros _. unfold chapters_counted. simpl. lia.
    + destruct Hcases as (Hex & [[-> Hq] | (-> & _ & Hwf & Hwr & html & Hfs)]).
      * by apply Herr.
      * destruct (path <$> pages) as [|f processed'] eqn:Hproc.
        { by apply fmap_nil_inv in Hproc. }
        rewrite <-Hproc.
        eapply loop_result_done;
          [done | | exact Hwf | exact Hfs | exact Hwr | apply IH].
        unfold exists_file in Hex. by destruct (fs w !! output_path key).
  - destruct Hcases as [_ Hq]. by apply Herr, Hquiet.
Qed.

(** Without a translator object every chapter is counted as an error
    and nothing else happens. *)
Lemma chapter_loop_none chapters : ∀ all counts w,
  Forall (fun kv => kv.2 ≠ []) chapters →
  chapter_loop U E chapters None all counts w
  = (w, (all, {| chapters_processed_count := chapters_processed_count counts;
                 chapters_skipped_count := chapters_skipped_count counts;
                 chapters_error_count :=
                   chapters_error_count counts + Z.of_nat (length chapters) |})).
Proof.
  induction chapters as [|[key pages] rest IH]; intros all counts w Hne.
  - cbn. rewrite Z.add_0_r. by destruct counts.
  - apply Forall_cons in Hne as [Hpages Hrest]. simpl in Hpages.
    cbn [chapter_loop]. destruct pages as [|page pages']; [done|].
    rewrite IH by done. cbn [count_error chapters_processed_count
      chapters_skipped_count chapters_error_count].
    change (length ((key, page :: pages') :: rest)) with (S (length rest)).
    do 3 f_equal. lia.
Qed.

(** The deletion loop, file by file. *)
Lemma remove_file_lookup w f p :
  fs (remove_file E w f) !! p
  = if bool_decide (p = f) && negb (remove_fails E f) then None else fs w !! p.
Proof.
  unfold remove_file, exists_file.
  destruct (bool_decide_reflect (p = f)) as [->|Hp]; cbn [andb].
  - destruct (fs w !! f) eqn:Hf; [|by destruct (negb _)].
    destruct (remove_fails E f); cbn [negb fs log]; [done|].
    by rewrite lookup_delete_eq.
  - destruct (fs w !! f); [|done].
    destruct (remove_fails E f); cbn [fs log]; [done|].
    by rewrite lookup_delete_ne.
Qed.

Lemma delete_sources_lookup files : ∀ w p,
  fs (delete_sources E files w) !! p
  = if bool_decide (p ∈ files) && negb (remove_fails E p) then None
    else fs w !! p.
Proof.
  induction files as [|f files IH]; intros w p; [done|].
  unfold delete_sources in *. cbn [fold_left]. rewrite IH, remove_file_lookup.
  destruct (bool_decide_reflect (p = f)) as [->|Hp].
  - rewrite (bool_decide_eq_true_2 (f ∈ f :: files)) by by left.
    cbn [andb]. by destruct (bool_decide (f ∈ files)), (negb (remove_fails E f)).
  - cbn [andb].
    destruct (bool_decide_reflect (p ∈ files)) as [Hin|Hin].
    + rewrite (bool_decide_eq_true_2 (p ∈ f :: files)) by by right. done.
    + rewrite (bool_decide_eq_false_2 (p ∈ f :: files)); [done|].
      by intros [?|?]%elem_of_cons.
Qed.

Lemma delete_sources_backend files : ∀ w,
  backend (delete_sources E files w) = backend w.
Proof.
  induction files as [|f files IH]; intros w; [done|].
  unfold delete_sources in *. cbn [fold_left]. rewrite IH.
  unfold remove_file. destruct (exists_file w f); [|done].
  by destruct (remove_fails E f).
Qed.

Lemma group_html_files_fs dir w w' :
  fs w' = fs w → group_html_files U E dir w' = group_html_files U E dir w.
Proof. unfold group_html_files, glob_html. by intros ->. Qed.

(** A run that reaches the chapter loop. *)
Lemma main_unfold w :
  DEEP_TRANSLATOR_AVAILABLE E = true →
  group_html_files U E SOURCE_DIRECTORY w ≠ [] →
  ∃ w1 tr,
    init_translator E w = (w1, tr) ∧ quiet w w1
    ∧ let loop := chapter_loop U E (group_html_files U E SOURCE_DIRECTORY w)
                    tr [] no_counts w1 in
      main U E w = (delete_sources E loop.2.1 loop.1, Some loop.2.2).
Proof.
  intros Hav Hgr. unfold main. rewrite Hav. cbn [negb].
  pose proof (init_translator_quiet E w) as Hi.
  destruct (init_translator E w) as [w1 tr]. simpl in Hi.
  exists w1, tr. split; [done|]. split; [done|].
  rewrite (group_html_files_fs _ w w1) by apply Hi.
  destruct (group_html_files U E SOURCE_DIRECTORY w) as [|kv chapters] eqn:Hg;
    [done|].
  rewrite <-Hg. cbv zeta.
  by destruct (chapter_loop U E _ tr [] no_counts w1) as [w2 [all counts]].
Qed.

Lemma main_early w :
  DEEP_TRANSLATOR_AVAILABLE E = false
  ∨ group_html_files U E SOURCE_DIRECTORY w = [] →
  (main U E w).2 = None ∧ quiet w (main U E w).1.
Proof.
  unfold main. intros [-> | Hg]; [split; [done | apply quiet_refl]|].
  destruct (negb _); [split; [done | apply quiet_refl]|].
  pose proof (init_translator_quiet E w) as Hi.
  destruct (init_translator E w) as [w1 tr]. simpl in Hi.
  rewrite (group_html_files_fs _ w w1), Hg by apply Hi. done.
Qed.

(** The pages of the groups lie in the source directory. *)
Lemma group_pages_head w kv p :
  kv ∈ group_html_files U E SOURCE_DIRECTORY w → p ∈ path <$> kv.2 →
  head p = Some 100.
Proof.
  intros Hkv Hp. apply (glob_html_head E w).
  by apply (group_files_paths U _ kv).
Qed.

End Orchestrator.

(** X14.  The ways [process_chapter] comes back.  With the skipped flag
    the output was there and the world is untouched.  Without it the
    output was not there, and either no path is returned and no write
    was completed: then no file has changed (no text, or the output
    could not be opened), or the write failed after the output was
    opened and the only change is the file it left at the output path;
    or the returned paths are those of the pages, there is at least one,
    the write did not fail and the only change to the files is the new
    output.  When the tokenizer raises, no file has changed either. *)
Theorem process_chapter_outcome (U : UnicodeData) {Backend : Type}
    (E : Env Backend) (chapter_key : str) (pages : list Page)
    (tr : option Translator) (w : World Backend) :
  let out := output_path chapter_key in
  let res := process_chapter U E chapter_key pages OUTPUT_DIRECTORY tr w in
  match res.2 with
  | Returned processed true =>
      res.1 = w ∧ processed = path <$> pages ∧ is_Some (fs w !! out)
  | Returned processed false =>
      fs w !! out = None
      ∧ ((processed = []
          ∧ written_paths (trace res.1) = written_paths (trace w)
          ∧ (fs res.1 = fs w
             ∨ (write_fails E out = true
                ∧ ∃ content remains,
                    failed_write_leaves E out content = Some remains
                    ∧ fs res.1 = <[out := remains]> (fs w))))
         ∨ (processed = path <$> pages ∧ processed ≠ []
            ∧ write_fails E out = false
            ∧ written_paths (trace res.1) = written_paths (trace w) ++ [out]
            ∧ ∃ html, fs res.1 = <[out := html]> (fs w)))
  | Raised =>
      fs w !! out = None ∧ fs res.1 = fs w
      ∧ written_paths (trace res.1) = written_paths (trace w)
  end.
Proof.
  intros out res. pose proof (process_chapter_cases U E chapter_key pages tr w) as H.
  cbv zeta in H. fold out res in H. unfold exists_file in H.
  destruct (res.2) as [processed [|]|].
  - destruct H as (? & ? & Hex). split; [done|]. split; [done|].
    by destruct (fs w !! out).
  - destruct H as (Hex & H). split; [by destruct (fs w !! out)|].
    destruct H as [[-> [Hwr Hfs]] | (-> & Hne & ? & ? & ?)].
    + left. split; [done|]. split; [done|].
      destruct Hfs as [? | (_ & ? & ?)]; [by left | by right].
    + right. split; [done|]. split; [|done].
      by intros ?%fmap_nil_inv.
  - destruct H as (Hex & [? ?]). split; [by destruct (fs w !! out)|]. done.
Qed.

(** X15.  A run never rewrites a file that was there, and it removes
    one only if it is a page of a chapter whose output was not there
    before the run and is there after it: every other file is found
    with its content when the run ends. *)
Theorem main_deletes_only_processed_pages (U : UnicodeData) {Backend : Type}
    (E : Env Backend) (w : World Backend) (p c : str) :
  fs w !! p = Some c →
  fs (main U E w).1 !! p = Some c
  ∨ (fs (main U E w).1 !! p = None
     ∧ remove_fails E p = false
     ∧ ∃ chapter_key pages,
         (chapter_key, pages) ∈ group_html_files U E SOURCE_DIRECTORY w
         ∧ p ∈ path <$> pages
         ∧ fs w !! output_path chapter_key = None
         ∧ is_Some (fs (main U E w).1 !! output_path chapter_key)).
Proof.
  intros Hp.
  destruct (DEEP_TRANSLATOR_AVAILABLE E) eqn:Hav.
  2: { left. destruct (main_early U E w (or_introl Hav)) as [_ [Hfs _]].
       by rewrite Hfs. }
  destruct (decide (group_html_files U E SOURCE_DIRECTORY w = [])) as [Hg|Hg].
  { left. destruct (main_early U E w (or_intror Hg)) as [_ [Hfs _]].
    by rewrite Hfs. }
  destruct (main_unfold U E w Hav Hg) as (w1 & tr & _ & [Hfs1 _] & Hmain).
  cbv zeta in Hmain. rewrite Hmain. clear Hmain.
  pose proof (chapter_loop_spec U E (group_html_files U E SOURCE_DIRECTORY w)
                tr [] no_counts w1) as Hloop.
  destruct (chapter_loop U E _ tr [] no_counts w1) as [w2 [all counts]].
  destruct Hloop as (done & Hsub & Hall & _ & _ & _ & _ & _ & Hdone & Hother).
  cbn [fst snd] in *. rewrite app_nil_l in Hall. subst all.
  rewrite Forall_forall in Hdone.
  assert (fs w2 !! p = Some c) as Hp2.
  { destruct (decide (p ∈ outputs_of done)) as [Hin|Hin].
    - apply elem_of_outputs_of in Hin as (kv & Hkv & ->).
      destruct (Hdone kv Hkv) as (_ & Hnone & _). rewrite Hfs1 in Hnone. congruence.
    - destruct (Hother p Hin) as [-> | (Hnone & _)]; [by rewrite Hfs1|].
      rewrite Hfs1 in Hnone. congruence. }
  rewrite !delete_sources_lookup, Hp2.
  destruct (bool_decide_reflect (p ∈ pages_of done)) as [Hin|Hin]; [|by left].
  destruct (remove_fails E p) eqn:Hrm; [by left|]. right.
  split; [done|]. split; [done|].
  apply elem_of_pages_of in Hin as ([key pages] & Hkv & Hpage).
  exists key, pages. split; [by eapply elem_of_sublist|]. split; [done|].
  destruct (Hdone _ Hkv) as (_ & Hnone & _ & Hsome). cbn [fst] in *.
  split; [by rewrite <-Hfs1|].
  rewrite delete_sources_lookup, bool_decide_eq_false_2; [done|].
  intros (kv' & Hkv' & Hpage')%elem_of_pages_of.
  apply (output_path_head key).
  eapply (group_pages_head U E w kv'); [|done]. by eapply elem_of_sublist.
Qed.

Lemma main_deletes_only_processed_pages_witness :
  fs (main ascii_tables working_env three_chapters_world).1
    !! lit "data/volume1_chapter3_1.html" = Some []
  ∨ (fs (main ascii_tables working_env three_chapters_world).1
       !! lit "data/volume1_chapter3_1.html" = None
     ∧ remove_fails working_env (lit "data/volume1_chapter3_1.html") = false
     ∧ ∃ chapter_key pages,
         (chapter_key, pages)
           ∈ group_html_files ascii_tables working_env SOURCE_DIRECTORY
               three_chapters_world
         ∧ lit "data/volume1_chapter3_1.html" ∈ path <$> pages
         ∧ fs three_chapters_world !! output_path chapter_key = None
         ∧ is_Some (fs (main ascii_tables working_env three_chapters_world).1
                      !! output_path chapter_key)).
Proof.
  apply (main_deletes_only_processed_pages ascii_tables working_env
           three_chapters_world (lit "data/volume1_chapter3_1.html") []).
  vm_compute. reflexivity.
Defined.

(** X16.  For a run that no keyboard interrupt cuts short.  When the
    run reports a summary, the three counts add up to the number of
    chapter groups found, none is negative, and the writes the run
    completed are the outputs of as many groups as the processed count
    says, in the order of the groups; these outputs are there when the
    run ends.  A file that is there after the run and was not there
    before is one of these outputs, or what a failed write left at the
    output path of a group (such a group is not counted as processed).
    When the run returns without a summary, the translation library is
    missing or there is no group, and no file has changed. *)
Theorem main_summary_counts (U : UnicodeData) {Backend : Type}
    (E : Env Backend) (w : World Backend) :
  let grouped_chapters := group_html_files U E SOURCE_DIRECTORY w in
  match (main U E w).2 with
  | Some counts =>
      DEEP_TRANSLATOR_AVAILABLE E = true
      ∧ chapters_counted counts = Z.of_nat (length grouped_chapters)
      ∧ 0 <= chapters_skipped_count counts
      ∧ 0 <= chapters_error_count counts
      ∧ ∃ done,
          sublist done grouped_chapters
          ∧ chapters_processed_count counts = Z.of_nat (length done)
          ∧ written_paths (trace (main U E w).1)
            = written_paths (trace w) ++ outputs_of done
          ∧ Forall (fun kv => write_fails E (output_path kv.1) = false
                              ∧ is_Some (fs (main U E w).1 !! output_path kv.1))
              done
          ∧ ∀ p, fs w !! p = None → is_Some (fs (main U E w).1 !! p) →
                 p ∈ outputs_of done
                 ∨ (write_fails E p = true ∧ p ∈ outputs_of grouped_chapters)
  | None =>
      (DEEP_TRANSLATOR_AVAILABLE E = false ∨ grouped_chapters = [])
      ∧ fs (main U E w).1 = fs w
  end.
Proof.
  intros grouped_chapters. subst grouped_chapters.
  destruct (DEEP_TRANSLATOR_AVAILABLE E) eqn:Hav.
  2: { destruct (main_early U E w (or_introl Hav)) as [-> [Hfs _]].
       split; [by left | done]. }
  destruct (decide (group_html_files U E SOURCE_DIRECTORY w = [])) as [Hg|Hg].
  { destruct (main_early U E w (or_intror Hg)) as [-> [Hfs _]].
    split; [by right | done]. }
  destruct (main_unfold U E w Hav Hg) as (w1 & tr & _ & [Hfs1 Hwr1] & Hmain).
  cbv zeta in Hmain. rewrite Hmain. clear Hmain.
  pose proof (chapter_loop_spec U E (group_html_files U E SOURCE_DIRECTORY w)
                tr [] no_counts w1) as Hloop.
  destruct (chapter_loop U E _ tr [] no_counts w1) as [w2 [all counts]].
  destruct Hloop
    as (done & Hsub & Hall & Hwr & Hproc & Hskip & Herr & Hcnt & Hdone & Hother).
  cbn [fst snd] in *. rewrite app_nil_l in Hall. subst all.
  assert (∀ kv, kv ∈ done → output_path kv.1 ∉ pages_of done) as Hout.
  { intros kv Hkv (kv' & Hkv' & Hpage')%elem_of_pages_of.
    apply (output_path_head kv.1).
    eapply (group_pages_head U E w kv'); [|done]. by eapply elem_of_sublist. }
  split; [done|]. split.
  { rewrite Hcnt; [done|]. apply (group_files_keys U). }
  split; [exact Hskip|]. split; [exact Herr|].
  exists done. split; [done|]. split; [by rewrite Hproc|].
  split; [by rewrite delete_sources_written, Hwr, Hwr1|].
  split.
  - rewrite Forall_forall in Hdone. apply Forall_forall. intros kv Hkv.
    destruct (Hdone kv Hkv) as (_ & _ & Hwf & Hsome). split; [done|].
    rewrite delete_sources_lookup, bool_decide_eq_false_2; [done|].
    by apply Hout.
  - intros p Hnone Hsome. rewrite delete_sources_lookup in Hsome.
    destruct (bool_decide (p ∈ pages_of done) && negb (remove_fails E p));
      [by destruct Hsome|].
    destruct (decide (p ∈ outputs_of done)) as [Hin|Hin]; [by left|].
    destruct (Hother p Hin) as [Heq | (_ & Hwf & Hin')].
    + rewrite Heq, Hfs1, Hnone in Hsome. by destruct Hsome.
    + right. by split.
Qed.

Lemma main_summary_counts_witness :
  (main ascii_tables truncating_env page_of_world).2
  = Some {| chapters_processed_count := 0; chapters_skipped_count := 0;
            chapters_error_count := 1 |}
  ∧ fs page_of_world !! lit "output/volume1_chapter1.html" = None
  ∧ fs (main ascii_tables truncating_env page_of_world).1
      !! lit "output/volume1_chapter1.html" = Some []
  ∧ (lit "output/volume1_chapter1.html" ∈ outputs_of []
     ∨ (write_fails truncating_env (lit "output/volume1_chapter1.html") = true
        ∧ lit "output/volume1_chapter1.html"
            ∈ outputs_of
                (group_html_files ascii_tables truncating_env SOURCE_DIRECTORY
                   page_of_world))).
Proof.
  pose proof (main_summary_counts ascii_tables truncating_env page_of_world) as H.
  cbv zeta in H.
  assert ((main ascii_tables truncating_env page_of_world).2
          = Some {| chapters_processed_count := 0; chapters_skipped_count := 0;
                    chapters_error_count := 1 |}) as Hsum
    by (vm_compute; reflexivity).
  rewrite Hsum in H.
  destruct H as (_ & _ & _ & _ & done & _ & Hproc & _ & _ & Hnew).
  assert (done = []) as -> by (destruct done; [done | simpl in Hproc; lia]).
  split; [exact Hsum|].
  assert (fs page_of_world !! lit "output/volume1_chapter1.html" = None) as Hnone
    by (vm_compute; reflexivity).
  assert (fs (main ascii_tables truncating_env page_of_world).1
            !! lit "output/volume1_chapter1.html" = Some []) as Hsome
    by (vm_compute; reflexivity).
  split; [exact Hnone|]. split; [exact Hsome|].
  apply Hnew; [exact Hnone | by rewrite Hsome].
Defined.

(** X17.  The deletion loop: afterwards a file is gone exactly when it
    was listed and its removal did not fail (or it was not there
    before); every other file is as it was, a listed file that is
    missing is passed over, and the loop writes nothing and makes no
    provider call. *)
Theorem delete_sources_effect {Backend : Type} (E : Env Backend)
    (files : list str) (w : World Backend) (p : str) :
  fs (delete_sources E files w) !! p
  = (if bool_decide (p ∈ files) && negb (remove_fails E p) then None
     else fs w !! p)
  ∧ backend (delete_sources E files w) = backend w
  ∧ written_paths (trace (delete_sources E files w)) = written_paths (trace w).
Proof.
  split; [apply delete_sources_lookup|].
  split; [apply delete_sources_backend | apply delete_sources_written].
Qed.

(** X18.  For a run that no keyboard interrupt cuts short.  When the
    output of a chapter group was not there before the run and is there
    after it, and writing it does not fail (so that what is there is the
    completed output, not what a failed write left behind), every page
    of the group whose removal does not fail is gone after the run. *)
Theorem main_processed_pages_deleted (U : UnicodeData) {Backend : Type}
    (E : Env Backend) (w : World Backend) (chapter_key : str)
    (pages : list Page) (p : str) :
  (chapter_key, pages) ∈ group_html_files U E SOURCE_DIRECTORY w →
  fs w !! output_path chapter_key = None →
  is_Some (fs (main U E w).1 !! output_path chapter_key) →
  write_fails E (output_path chapter_key) = false →
  p ∈ path <$> pages →
  remove_fails E p = false →
  fs (main U E w).1 !! p = None.
Proof.
  intros Hkv Hnone Hsome Hwf Hp Hrm.
  destruct (DEEP_TRANSLATOR_AVAILABLE E) eqn:Hav.
  2: { destruct (main_early U E w (or_introl Hav)) as [_ [Hfs _]].
       rewrite Hfs, Hnone in Hsome. by destruct Hsome. }
  assert (group_html_files U E SOURCE_DIRECTORY w ≠ []) as Hg.
  { intros Hg. rewrite Hg in Hkv. by apply elem_of_nil in Hkv. }
  destruct (main_unfold U E w Hav Hg) as (w1 & tr & _ & [Hfs1 _] & Hmain).
  cbv zeta in Hmain. rewrite Hmain in *. clear Hmain.
  pose proof (chapter_loop_spec U E (group_html_files U E SOURCE_DIRECTORY w)
                tr [] no_counts w1) as Hloop.
  destruct (chapter_loop U E _ tr [] no_counts w1) as [w2 [all counts]].
  destruct Hloop as (done & Hsub & Hall & _ & _ & _ & _ & _ & Hdone & Hother).
  cbn [fst snd] in *. rewrite app_nil_l in Hall. subst all.
  rewrite delete_sources_lookup in Hsome.
  destruct (bool_decide (output_path chapter_key ∈ pages_of done)
            && negb (remove_fails E (output_path chapter_key)));
    [by destruct Hsome|].
  assert ((chapter_key, pages) ∈ done) as Hin.
  { destruct (decide (output_path chapter_key ∈ outputs_of done)) as [Hout|Hout].
    - apply elem_of_outputs_of in Hout as ([key' pages'] & Hkv' & Heq).
      apply output_path_inj in Heq. cbn [fst] in Heq. subst key'.
      assert (pages = pages') as ->; [|done].
      eapply NoDup_keys_eq; [apply (group_files_keys U) | exact Hkv |].
      by eapply elem_of_sublist.
    - destruct (Hother _ Hout) as [Heq | (_ & Hwf' & _)]; [|congruence].
      rewrite Heq, Hfs1, Hnone in Hsome. by destruct Hsome. }
  rewrite delete_sources_lookup, Hrm, bool_decide_eq_true_2; [done|].
  apply elem_of_pages_of. by exists (chapter_key, pages).
Qed.

Lemma main_processed_pages_deleted_witness :
  fs (main ascii_tables working_env three_chapters_world).1
    !! lit "data/volume1_chapter2_1.html" = None.
Proof.
  apply (main_processed_pages_deleted ascii_tables working_env
           three_chapters_world (lit "volume1_chapter2")
           [ {| path := lit "data/volume1_chapter2_1.html"; page_num := 1 |} ]).
  - vm_compute. do 2 constructor.
  - vm_compute. reflexivity.
  - vm_compute. by eexists.
  - vm_compute. reflexivity.
  - vm_compute. constructor.
  - vm_compute. reflexivity.
Defined.

(** X19.  A run that has no translator object touches nothing.  When
    the library is missing it returns at once, without a summary.  When
    the constructor raises, the run goes on to scan the source
    directory and counts every chapter group as an error: nothing is
    read, written or deleted and no provider call is made. *)
Theorem run_without_translator (U : UnicodeData) {Backend : Type}
    (E : Env Backend) (w : World Backend) :
  (DEEP_TRANSLATOR_AVAILABLE E = false → main U E w = (w, None))
  ∧ (DEEP_TRANSLATOR_AVAILABLE E = true → GoogleTranslator E = None →
     main U E w
     = (w, match group_html_files U E SOURCE_DIRECTORY w with
           | [] => None
           | grouped_chapters =>
               Some {| chapters_processed_count := 0;
                       chapters_skipped_count := 0;
                       chapters_error_count :=
                         Z.of_nat (length grouped_chapters) |}
           end)).
Proof.
  split.
  - intros Hav. unfold main. by rewrite Hav.
  - intros Hav Hctor. unfold main, init_translator. rewrite Hav, Hctor.
    cbn [negb].
    pose proof (proj2 (group_files_keys U (glob_html E SOURCE_DIRECTORY w)))
      as Hne.
    fold (group_html_files U E SOURCE_DIRECTORY w) in Hne.
    destruct (group_html_files U E SOURCE_DIRECTORY w) as [|kv chapters] eqn:Hg;
      [done|].
    rewrite chapter_loop_none by done. done.
Qed.

Lemma run_without_translator_witness :
  main ascii_tables (demo_env true None (Translated [])) three_chapters_world
  = (three_chapters_world,
     Some {| chapters_processed_count := 0; chapters_skipped_count := 0;
             chapters_error_count := 3 |}).
Proof.
  pose proof (proj2 (run_without_translator ascii_tables
                       (demo_env true None (Translated []))
                       three_chapters_world) eq_refl eq_refl) as H.
  rewrite H. vm_compute. reflexivity.
Defined.

(** ** From the pages to the document *)

(** X20.  When [process_chapter] reports a chapter as processed, the
    file at the output path holds the document rendered from the
    annotations of the chapter: its paragraphs are those of the pages
    that could be read, page after page, and the document has one block
    for every paragraph with at least one token, whose originals are the
    tokens of that paragraph; the original row of the block, read off
    the rendered parts, has one cell for every token. *)
Theorem process_chapter_document (U : UnicodeData) {Backend : Type}
    (E : Env Backend) (chapter_key : str) (pages : list Page)
    (tr : option Translator) (w : World Backend) (processed : list str) :
  (process_chapter U E chapter_key pages OUTPUT_DIRECTORY tr w).2
  = Returned processed false →
  processed ≠ [] →
  let page_texts := omap (fun page => page_text_of E w (path page)) pages in
  let paragraphs := mjoin (segment_text_to_paragraphs <$> page_texts) in
  let title := unicode_title U (replace_char 95 [32] chapter_key) in
  ∃ tokens stream,
    paragraph_tokens E paragraphs = Some tokens
    ∧ (fun g : list Annotation => zh <$> g) <$> paragraph_groups stream
      = filter (fun t => t ≠ []) tokens
    ∧ fs (process_chapter U E chapter_key pages OUTPUT_DIRECTORY tr w).1
        !! output_path chapter_key
      = Some (generate_chapter_html_output stream title)
    ∧ count_blocks (generate_chapter_html_parts stream title)
      = length (filter (fun t => t ≠ []) tokens)
    ∧ rows_tagged ROW_ZH (generate_chapter_html_parts stream title)
      = (fun t : list str => cell <$> t) <$> filter (fun t => t ≠ []) tokens.
Proof.
  intros Hret Hne page_texts paragraphs title. revert Hret.
  unfold process_chapter. cbv zeta. fold (output_path chapter_key).
  set (out := output_path chapter_key).
  destruct (exists_file w out); [done|].
  unfold read_and_concatenate_chapter_text. rewrite read_pages_spec.
  cbn [app]. fold page_texts.
  destruct (negb (nonempty (strip (join [10] page_texts)))).
  { simpl. intros [= <-]. done. }
  rewrite segment_text_to_paragraphs_join. fold paragraphs.
  match goal with
  | |- context [annotate_paragraphs U E paragraphs tr [] false ?w1] =>
      pose proof (annotate_paragraphs_stream U E paragraphs tr [] false w1) as Hs;
      destruct (annotate_paragraphs U E paragraphs tr [] false w1)
        as [w2 [[data errs]|]]
  end; [|done].
  simpl in Hs. destruct Hs as (groups & Htok & -> & _).
  change ([] ++ stream_of_groups groups) with (stream_of_groups groups).
  fold title.
  destruct (write_fails E out); [simpl; intros [= <-]; done|].
  intros _. eexists _, (stream_of_groups groups).
  split; [exact Htok|].
  rewrite (proj1 (rows_tagged_parts _ _)).
  rewrite generate_chapter_html_parts_blocks, paragraph_groups_stream.
  rewrite filter_nonempty_fmap. split; [done|].
  split; [simpl; by rewrite lookup_insert_eq|].
  split; [by rewrite <-filter_nonempty_fmap, length_fmap|].
  by rewrite <-filter_nonempty_fmap, <-list_fmap_compose.
Qed.

Lemma process_chapter_document_witness :
  ∃ tokens stream,
    paragraph_tokens working_env [chapter_text] = Some tokens
    ∧ (fun g : list Annotation => zh <$> g) <$> paragraph_groups stream
      = filter (fun t => t ≠ []) tokens
    ∧ fs (process_chapter ascii_tables working_env (lit "volume1_chapter1")
            [ {| path := lit "data/volume1_chapter1_1.html"; page_num := 1 |} ]
            OUTPUT_DIRECTORY (Some TranslatorObject) page_of_world).1
        !! output_path (lit "volume1_chapter1")
      = Some (generate_chapter_html_output stream
                (unicode_title ascii_tables
                   (replace_char 95 [32] (lit "volume1_chapter1"))))
    ∧ count_blocks
        (generate_chapter_html_parts stream
           (unicode_title ascii_tables
              (replace_char 95 [32] (lit "volume1_chapter1"))))
      = length (filter (fun t => t ≠ []) tokens)
    ∧ rows_tagged ROW_ZH
        (generate_chapter_html_parts stream
           (unicode_title ascii_tables
              (replace_char 95 [32] (lit "volume1_chapter1"))))
      = (fun t : list str => cell <$> t) <$> filter (fun t => t ≠ []) tokens.
Proof.
  apply (process_chapter_document ascii_tables working_env
           (lit "volume1_chapter1")
           [ {| path := lit "data/volume1_chapter1_1.html"; page_num := 1 |} ]
           (Some TranslatorObject) page_of_world
           [lit "data/volume1_chapter1_1.html"]).
  - vm_compute. reflexivity.
  - done.
Defined.

(** ** The cost of a chapter in provider calls *)

Section Budget.
Context (U : UnicodeData) {Backend : Type} (E : Env Backend).
Implicit Types w : World Backend.

Lemma transcribed_snoc events e :
  transcribed (events ++ [e])
  = transcribed events ++ match e with EvPinyin segment => [segment] | _ => [] end.
Proof. unfold transcribed. rewrite omap_app. by destruct e. Qed.

Lemma log_transcribed e w :
  (∀ segment, e ≠ EvPinyin segment) →
  transcribed (trace (log e w)) = transcribed (trace w).
Proof.
  intros He. simpl. rewrite transcribed_snoc.
  destruct e as [?|?|?|?|s|?|?|?|?]; try apply app_nil_r. by destruct (He s).
Qed.

Lemma call_translate_transcribed segment w :
  transcribed (trace (call_translate E segment w).1) = transcribed (trace w).
Proof.
  unfold call_translate. destruct (translate E (backend w) segment).
  simpl. by rewrite transcribed_snoc, app_nil_r.
Qed.

Lemma translation_attempts_transcribed segment attempts : ∀ w,
  transcribed (trace (translation_attempts U E segment attempts w).1)
  = transcribed (trace w).
Proof.
  induction attempts as [|attempt rest IH]; intros w; [done|].
  cbn [translation_attempts].
  pose proof (call_translate_transcribed segment w) as Hc.
  destruct (call_translate E segment w) as [w1 r]. simpl in Hc.
  assert (∀ d, transcribed
                 (trace (translation_attempts U E segment rest (sleep d w1)).1)
               = transcribed (trace w)) as Hnext.
  { intros d. rewrite IH. unfold sleep. by rewrite log_transcribed. }
  destruct r as [text|message].
  - destruct (nonempty text); [done|]. by destruct (attempt <? _).
  - by destruct (is_rate_limit U message), (attempt <? _).
Qed.

Lemma get_online_translation_transcribed segment tr w :
  transcribed (trace (get_online_translation U E segment tr w).1)
  = transcribed (trace w).
Proof.
  unfold get_online_translation.
  repeat (match goal with |- context [if ?b then _ else _] => destruct b end;
          [done|]).
  apply translation_attempts_transcribed.
Qed.

Lemma get_pinyin_for_segment_trace segment w :
  trace (get_pinyin_for_segment E segment w).1 = trace w ++ [EvPinyin segment].
Proof. unfold get_pinyin_for_segment. by destruct (pinyin E segment). Qed.

Lemma annotate_segments_budget segments tr : ∀ data errors w,
  let res := annotate_segments U E segments tr data errors w in
  transcribed (trace res.1) = transcribed (trace w) ++ tokens_of segments
  ∧ (translate_calls (trace res.1)
     ≤ translate_calls (trace w)
       + Z.to_nat (ONLINE_TRANSLATION_MAX_RETRIES + 1) * length (tokens_of segments))%nat.
Proof.
  induction segments as [|seg rest IH]; intros data errors w.
  { cbn. rewrite app_nil_r. split; [done | lia]. }
  cbv zeta in *. cbn [annotate_segments]. cbv zeta.
  unfold tokens_of. cbn [fmap list_fmap].
  destruct (nonempty (strip seg)) eqn:Hne; cbn [negb].
  2: { apply nonempty_false_iff in Hne. rewrite Hne.
       rewrite filter_cons_False by (by intros ?). apply IH. }
  apply nonempty_true_iff in Hne. rewrite filter_cons_True by done.
  pose proof (get_pinyin_for_segment_trace (strip seg) w) as Hpy.
  destruct (get_pinyin_for_segment E (strip seg) w) as [w1 pinyin_text].
  pose proof (get_online_translation_cases U E (strip seg) tr w1) as (Hcalls & _).
  pose proof (get_online_translation_transcribed (strip seg) tr w1) as Htr.
  destruct (get_online_translation U E (strip seg) tr w1) as [w2 english_text].
  simpl in Hpy, Hcalls, Htr.
  match goal with
  | |- context [annotate_segments U E rest tr ?d ?e w2] =>
      destruct (IH d e w2) as [IH1 IH2]
  end.
  fold (tokens_of rest) in *.
  rewrite Hpy, translate_calls_snoc in Hcalls. rewrite Hpy, transcribed_snoc in Htr.
  cbn [is_translate_event] in Hcalls.
  split.
  - rewrite IH1, Htr. by rewrite <-app_assoc.
  - cbn [length]. lia.
Qed.

Lemma annotate_paragraphs_budget paragraphs tr : ∀ data errors w,
  let res := annotate_paragraphs U E paragraphs tr data errors w in
  ∃ tokens,
    transcribed (trace res.1) = transcribed (trace w) ++ tokens
    ∧ (translate_calls (trace res.1)
       ≤ translate_calls (trace w)
         + Z.to_nat (ONLINE_TRANSLATION_MAX_RETRIES + 1) * length tokens)%nat
    ∧ match paragraph_tokens E paragraphs with
      | Some groups => tokens = mjoin groups
      | None => True
      end.
Proof.
  induction paragraphs as [|para rest IH]; intros data errors w.
  { exists []. cbn. rewrite app_nil_r. split; [done|]. split; [lia | done]. }
  cbv zeta in *. cbn [annotate_paragraphs paragraph_tokens]. cbv zeta.
  destruct (negb (nonempty (strip para))); [apply IH|].
  assert (transcribed (trace (log (EvCut para) w)) = transcribed (trace w)
          ∧ translate_calls (trace (log (EvCut para) w)) = translate_calls (trace w))
    as [Hl1 Hl2].
  { simpl. rewrite transcribed_snoc, translate_calls_snoc, app_nil_r.
    split; [done | simpl; lia]. }
  destruct (jieba_cut E para) as [segments|].
  2: { exists []. cbn [fst]. rewrite Hl1, Hl2, app_nil_r.
       split; [done|]. split; [lia | done]. }
  destruct (annotate_segments_budget segments tr data errors (log (EvCut para) w))
    as [Hs1 Hs2].
  destruct (annotate_segments U E segments tr data errors (log (EvCut para) w))
    as [w1 [data1 errors1]].
  cbn [fst] in Hs1, Hs2. rewrite Hl1 in Hs1. rewrite Hl2 in Hs2.
  destruct (IH (data1 ++ [PARAGRAPH_BREAK]) errors1 w1) as (tokens & H1 & H2 & H3).
  exists (tokens_of segments ++ tokens). split; [|split].
  - by rewrite H1, Hs1, <-app_assoc.
  - rewrite length_app. lia.
  - destruct (paragraph_tokens E rest) as [groups|]; [|done].
    cbn [fmap option_fmap option_map mjoin list_join]. by rewrite H3.
Qed.

End Budget.

(** X21.  Annotating the paragraphs of a chapter costs at most
    MAX_RETRIES + 1 provider calls for every token that is transcribed,
    whatever the provider answers; the transcribed tokens are, when the
    tokenizer does not raise, the tokens of the paragraphs in order. *)
Theorem annotation_call_budget (U : UnicodeData) {Backend : Type}
    (E : Env Backend) (paragraphs : list str) (tr : option Translator)
    (w : World Backend) :
  let res := annotate_paragraphs U E paragraphs tr [] false w in
  ∃ tokens,
    transcribed (trace res.1) = transcribed (trace w) ++ tokens
    ∧ (translate_calls (trace res.1)
       ≤ translate_calls (trace w)
         + Z.to_nat (ONLINE_TRANSLATION_MAX_RETRIES + 1) * length tokens)%nat
    ∧ match paragraph_tokens E paragraphs with
      | Some groups => tokens = mjoin groups
      | None => True
      end.
Proof. apply (annotate_paragraphs_budget U E paragraphs tr [] false w). Qed.
